(** * PyPop7 evolution-strategy engine: LMMAES, XNES and SRS

    A shallow embedding of [pypop7/optimizers/es/lmmaes.py],
    [pypop7/optimizers/nes/xnes.py] and [pypop7/optimizers/rs/srs.py].

    Conventions of the embedding.
    - numpy's float64 arithmetic is modelled by the real numbers of the
      Standard Library ([R], with [exp], [ln], [sqrt], [Rmax]): rounding,
      overflow and NaN are outside the model.
    - a one-dimensional array of length [N] is a column vector ['cV[R]_N], a
      two-dimensional array of shape [(n, N)] a matrix ['M[R]_(n, N)];
      [np.dot] is the matrix product [*m].
    - [self] is a record that every method takes and returns (explicit state
      passing); the random generators and the wall clock are oracles whose
      state is threaded through [self].
    - [while True] loops take a fuel argument. *)

From HB Require Import structures.
From mathcomp Require Import boot perm ssralg matrix.
From Stdlib Require Import Reals Lra Lia ClassicalEpsilon FunctionalExtensionality.

Set Implicit Arguments.
Unset Strict Implicit.
Unset Printing Implicit Defensive.

Import GRing.Theory.

Delimit Scope R_scope with Re.
Delimit Scope ring_scope with R.
Local Open Scope ring_scope.
Local Open Scope R_scope.

(** ** The reals as a MathComp commutative ring

    Matrices, traces and determinants come from MathComp, which needs the
    scalars to be a [comNzRingType].  The operations of the instance are the
    Standard Library's own ([Rplus], [Rmult], ...), so a scalar goal can
    always be handed to [lra] or [field]. *)

Definition eqr (x y : R) : bool := if Req_dec_T x y then true else false.

Lemma eqrP : Equality.axiom eqr.
Proof. by move=> x y; rewrite /eqr; case: Req_dec_T => h; constructor. Qed.

HB.instance Definition _ := hasDecEq.Build R eqrP.

Definition pick_real (P : pred R) (_ : nat) : option R :=
  match excluded_middle_informative (exists x, P x) with
  | left ex => Some (proj1_sig (constructive_indefinite_description _ ex))
  | right _ => None
  end.

Lemma pick_real_correct (P : pred R) n x : pick_real P n = Some x -> P x.
Proof.
rewrite /pick_real; case: excluded_middle_informative => // ex [<-].
exact: (proj2_sig (constructive_indefinite_description _ ex)).
Qed.

Lemma pick_real_complete (P : pred R) :
  (exists x, P x) -> exists n, pick_real P n.
Proof.
by move=> ex; exists 0%nat; rewrite /pick_real; case: excluded_middle_informative.
Qed.

Lemma pick_real_ext (P Q : pred R) : P =1 Q -> pick_real P =1 pick_real Q.
Proof. by move=> /functional_extensionality ->. Qed.

HB.instance Definition _ :=
  hasChoice.Build R pick_real_correct pick_real_complete pick_real_ext.

Lemma RplusA : associative Rplus.
Proof. by move=> x y z; rewrite Rplus_assoc. Qed.

Lemma RmultA : associative Rmult.
Proof. by move=> x y z; rewrite Rmult_assoc. Qed.

HB.instance Definition _ :=
  GRing.isZmodule.Build R RplusA Rplus_comm Rplus_0_l Rplus_opp_l.

Lemma R1_neq0 : R1 != R0.
Proof. by apply/eqP; exact: R1_neq_R0. Qed.

HB.instance Definition _ :=
  GRing.Zmodule_isComNzRing.Build R
    RmultA Rmult_comm Rmult_1_l Rmult_plus_distr_r R1_neq0.

(** Python's [<] and [<=] on floats, as boolean tests. *)

Definition Rltb (x y : R) : bool := if Rlt_dec x y then true else false.
Definition Rleb (x y : R) : bool := if Rle_dec x y then true else false.

Lemma RltbP x y : reflect (x < y) (Rltb x y).
Proof. by rewrite /Rltb; case: Rlt_dec => h; constructor. Qed.

Lemma RlebP x y : reflect (x <= y) (Rleb x y).
Proof. by rewrite /Rleb; case: Rle_dec => h; constructor. Qed.

(** [INR n] is MathComp's [n%:R]. *)

Lemma INR_natmul (n : nat) : INR n = (1 *+ n)%R.
Proof.
elim: n => [|n IH]; first by rewrite mulr0n.
by rewrite S_INR IH mulrSr.
Qed.

Lemma natmul_INR (x : R) (n : nat) : (x *+ n)%R = INR n * x.
Proof.
elim: n => [|n IH]; first by rewrite mulr0n /= Rmult_0_l.
by rewrite mulrSr IH S_INR /GRing.add /=; lra.
Qed.

(** A sum of non-negative reals, one of which is positive, is positive. *)

Lemma sum_nonneg (n : nat) (P : pred 'I_n) (F : 'I_n -> R) :
  (forall i, 0 <= F i) -> 0 <= (\sum_(i < n | P i) F i)%R.
Proof.
move=> HF; elim/big_rec: _ => [|i x _ Hx]; first exact: Rle_refl.
exact: Rplus_le_le_0_compat.
Qed.

Lemma sum_pos (n : nat) (F : 'I_n -> R) (i0 : 'I_n) :
  (forall i, 0 <= F i) -> 0 < F i0 -> 0 < (\sum_(i < n) F i)%R.
Proof.
move=> HF Hi0; rewrite (bigD1 i0) //=.
exact: Rplus_lt_le_0_compat Hi0 (sum_nonneg _ HF).
Qed.

Lemma ln_monotone (x y : R) : 0 < x -> x <= y -> ln x <= ln y.
Proof.
by move=> Hx [Hlt|->]; [left; apply: ln_increasing | apply: Rle_refl].
Qed.

(** Assigning one row of a two-dimensional array: [m[k] = v]. *)

Definition set_row {n N : nat} (m : 'M[R]_(n, N)) (k : 'I_n) (v : 'cV[R]_N) :
  'M[R]_(n, N) :=
  (\matrix_(i, j) if i == k then v j ord0 else m i j)%R.

(** Reading one row as a one-dimensional array: [m[k]]. *)

Definition get_row {n N : nat} (m : 'M[R]_(n, N)) (k : 'I_n) : 'cV[R]_N :=
  (\col_j m k j)%R.

(** Assigning one entry of a one-dimensional array: [y[k] = v]. *)

Definition set_item {n : nat} (y : 'cV[R]_n) (k : 'I_n) (v : R) : 'cV[R]_n :=
  (\col_i if i == k then v else y i ord0)%R.

Lemma get_row_set_row {n N : nat} (m : 'M[R]_(n, N)) (k i : 'I_n)
    (v : 'cV[R]_N) :
  get_row (set_row m k v) i = if i == k then v else get_row m i.
Proof. by apply/colP => j; rewrite !mxE; case: ifP; rewrite ?mxE. Qed.

(** A loop that assigns row [k] from row [k], for each [k] of a list without
    repetition, assigns each listed row once. *)

Lemma get_row_foldl {n N : nat} (F : 'I_n -> 'cV[R]_N -> 'cV[R]_N)
    (ks : seq 'I_n) (m : 'M[R]_(n, N)) (i : 'I_n) :
  uniq ks ->
  get_row (foldl (fun m k => set_row m k (F k (get_row m k))) m ks) i =
  if i \in ks then F i (get_row m i) else get_row m i.
Proof.
elim: ks m => [|k ks IH] m //= /andP[Hk Huniq].
rewrite IH // in_cons !get_row_set_row.
case: (altP (i =P k)) => [->|Hik] /=; first by rewrite (negbTE Hk).
by [].
Qed.

Lemma set_item_at {n : nat} (y : 'cV[R]_n) (k i : 'I_n) (v : R) :
  set_item y k v i ord0 = if i == k then v else y i ord0.
Proof. by rewrite mxE. Qed.

(** A loop that keeps assigning row [k] from row [k] folds over that row
    and leaves the other rows alone. *)

Lemma get_row_fold_one {n N : nat} (J : Type)
    (F : 'cV[R]_N -> J -> 'cV[R]_N) (js : seq J) (m : 'M[R]_(n, N))
    (k i : 'I_n) :
  get_row (foldl (fun m j => set_row m k (F (get_row m k) j)) m js) i =
  if i == k then foldl F (get_row m k) js else get_row m i.
Proof.
elim: js m => [|j js IH] m /=; first by case: eqP => [->|].
by rewrite IH !get_row_set_row eqxx; case: (i == k).
Qed.

(** Reduces the tuple patterns of a method body without unfolding the
    methods it calls. *)

Ltac unlet := cbv beta iota zeta delta [fst snd].

(** The outcome of a [while True] loop run with fuel. *)

Inductive run (A : Type) : Type :=
| Done (a : A)      (* the loop reached [break] and the method returned *)
| Raised            (* a Python exception was raised *)
| OutOfFuel.        (* the fuel ran out first *)

Arguments Raised {A}.
Arguments OutOfFuel {A}.

(** ** The base class [Optimizer] *)

Module Optimizer.

Inductive Terminations : Type :=
| NO_TERMINATION
| MAX_FUNCTION_EVALUATIONS
| MAX_RUNTIME
| FITNESS_THRESHOLD.

Definition is_termination (t : Terminations) : bool :=
  if t is NO_TERMINATION then false else true.

Section Base.

Variable N : nat.                         (* ndim_problem *)
Variable rng : Type.                      (* the state of a numpy Generator *)
Variable fitness_function : 'cV[R]_N -> R.
Variable time_time : nat -> R.            (* the successive readings of time.time() *)

(** The attributes of [self] that the base class owns.  [None] stands for
    [np.Inf] in [max_function_evaluations] and [max_runtime], for [-np.Inf] in
    [fitness_threshold], and for the pair [(None, np.Inf)] in [best_so_far]. *)

Record optimizer : Type := Build {
  max_function_evaluations : option nat;
  max_runtime : option R;
  fitness_threshold : option R;
  sigma : R;
  n_function_evaluations : nat;
  best_so_far : option ('cV[R]_N * R);
  start_time : R;
  clock : nat;                            (* how many times the clock was read *)
  runtime : R;
  termination_signal : Terminations;
  _n_generations : nat;
  rng_initialization : rng;
  rng_optimization : rng;
  record_fitness : bool
}.

Definition best_so_far_x (self : optimizer) : option 'cV[R]_N :=
  omap fst (best_so_far self).

Definition best_so_far_y (self : optimizer) : option R :=
  omap snd (best_so_far self).

Definition set_sigma (self : optimizer) (s : R) : optimizer :=
  Build (max_function_evaluations self) (max_runtime self)
    (fitness_threshold self) s (n_function_evaluations self)
    (best_so_far self) (start_time self) (clock self) (runtime self)
    (termination_signal self) (_n_generations self)
    (rng_initialization self) (rng_optimization self) (record_fitness self).

Definition set_n_generations (self : optimizer) (g : nat) : optimizer :=
  Build (max_function_evaluations self) (max_runtime self)
    (fitness_threshold self) (sigma self) (n_function_evaluations self)
    (best_so_far self) (start_time self) (clock self) (runtime self)
    (termination_signal self) g
    (rng_initialization self) (rng_optimization self) (record_fitness self).

Definition set_rng_initialization (self : optimizer) (g : rng) : optimizer :=
  Build (max_function_evaluations self) (max_runtime self)
    (fitness_threshold self) (sigma self) (n_function_evaluations self)
    (best_so_far self) (start_time self) (clock self) (runtime self)
    (termination_signal self) (_n_generations self)
    g (rng_optimization self) (record_fitness self).

Definition set_rng_optimization (self : optimizer) (g : rng) : optimizer :=
  Build (max_function_evaluations self) (max_runtime self)
    (fitness_threshold self) (sigma self) (n_function_evaluations self)
    (best_so_far self) (start_time self) (clock self) (runtime self)
    (termination_signal self) (_n_generations self)
    (rng_initialization self) g (record_fitness self).

(** Modelled from the spec: [Optimizer._check_terminations] is not among the
    sources.  Section 4.2: "Conditions, any true -> stop: evaluations >=
    max_function_evaluations; elapsed runtime >= max_runtime; best-so-far
    fitness <= fitness_threshold", reported "in the fixed priority order
    above".  The elapsed runtime is the clock reading minus [start_time]. *)

Definition termination_of (elapsed : R) (self : optimizer) : Terminations :=
  if (if max_function_evaluations self is Some m
      then (m <= n_function_evaluations self)%nat else false)
  then MAX_FUNCTION_EVALUATIONS
  else if (if max_runtime self is Some t then Rleb t elapsed else false)
  then MAX_RUNTIME
  else if (if (best_so_far self, fitness_threshold self) is (Some (_, y), Some t)
           then Rleb y t else false)
  then FITNESS_THRESHOLD
  else NO_TERMINATION.

Definition _check_terminations (self : optimizer) : bool * optimizer :=
  let elapsed := time_time (clock self) - start_time self in
  let signal := termination_of elapsed self in
  (is_termination signal,
   Build (max_function_evaluations self) (max_runtime self)
     (fitness_threshold self) (sigma self) (n_function_evaluations self)
     (best_so_far self) (start_time self) (clock self).+1 elapsed
     signal (_n_generations self)
     (rng_initialization self) (rng_optimization self) (record_fitness self)).

(** Modelled from the spec: [Optimizer._evaluate_fitness] is not among the
    sources.  Section 3 (RunState): the counter of function evaluations and
    the best-so-far solution and fitness are "updated once per evaluation";
    section 5: "a single authoritative counter increment per evaluation";
    section 8.2: [best_so_far_y] never increases.  The best-so-far vector is
    a snapshot of the evaluated point. *)

Definition _evaluate_fitness (self : optimizer) (x : 'cV[R]_N) : R * optimizer :=
  let y := fitness_function x in
  let improved :=
    if best_so_far self is Some (_, best_y) then Rltb y best_y else true in
  (y,
   Build (max_function_evaluations self) (max_runtime self)
     (fitness_threshold self) (sigma self) (n_function_evaluations self).+1
     (if improved then Some (x, y) else best_so_far self)
     (start_time self) (clock self) (runtime self)
     (termination_signal self) (_n_generations self)
     (rng_initialization self) (rng_optimization self) (record_fitness self)).

(** Modelled from the spec: [Optimizer.optimize] is not among the sources.
    It starts the run's clock and hands back the empty list of recorded
    fitness values (section 3, RunState: "elapsed wall-clock time, optional
    fitness history"). *)

Definition optimize (self : optimizer) : seq R * optimizer :=
  ([::],
   Build (max_function_evaluations self) (max_runtime self)
     (fitness_threshold self) (sigma self) (n_function_evaluations self)
     (best_so_far self) (time_time (clock self)) (clock self).+1 (runtime self)
     (termination_signal self) (_n_generations self)
     (rng_initialization self) (rng_optimization self) (record_fitness self)).

(** Modelled from the spec: [Optimizer._collect_results] is not among the
    sources.  Section 6: "Result is a mapping with at least keys:
    n_function_evaluations, best_so_far_x, best_so_far_y, fitness"; section 7:
    "every stop has a recorded, inspectable reason in Result". *)

Record results : Type := Results {
  r_n_function_evaluations : nat;
  r_best_so_far : option ('cV[R]_N * R);
  r_termination_signal : Terminations;
  r_n_generations : nat;
  r_fitness : seq R
}.

Definition _collect_results (self : optimizer) (fitness : seq R) : results :=
  Results (n_function_evaluations self) (best_so_far self)
    (termination_signal self) (_n_generations self) fitness.

End Base.

Arguments _evaluate_fitness : simpl never.
Arguments _check_terminations : simpl never.

Section BaseFacts.

Variable N : nat.
Variable rng : Type.
Variable fitness_function : 'cV[R]_N -> R.
Variable time_time : nat -> R.

Implicit Types self : optimizer N rng.

(** The clock never runs backwards. *)

Hypothesis time_time_mono :
  forall i j : nat, (i <= j)%nat -> time_time i <= time_time j.

(** What a stop depends on: the budget, the counter, the best fitness and
    the thresholds. *)

Definition same_run_state self self' : Prop :=
  [/\ max_function_evaluations self' = max_function_evaluations self,
      n_function_evaluations self' = n_function_evaluations self,
      max_runtime self' = max_runtime self,
      fitness_threshold self' = fitness_threshold self &
      best_so_far self' = best_so_far self].

Lemma termination_of_later self self' (e e' : R) :
  same_run_state self self' -> e <= e' ->
  is_termination (termination_of e self) ->
  is_termination (termination_of e' self').
Proof.
case=> Hm Hn Hr Ht Hb Hee; rewrite /termination_of Hm Hn Hr Ht Hb.
set b1 := (if max_function_evaluations self is Some _ then _ else _).
set b3 := (if best_so_far self is Some _ then _ else _).
case: b1 => //; case: b3; first by do 2!case: ifP.
case: (max_runtime self) => [t|] //=.
case: (RlebP t e) => // Hte _; case: (RlebP t e') => // Hn'.
by case: Hn'; lra.
Qed.

Lemma check_same_run_state self :
  same_run_state self (_check_terminations time_time self).2.
Proof. by split. Qed.

(** A termination check that fired fires again when it is repeated with no
    fitness evaluation in between. *)

Lemma check_terminations_stable self :
  (_check_terminations time_time self).1 ->
  (_check_terminations time_time (_check_terminations time_time self).2).1.
Proof.
rewrite {1 2}/_check_terminations /=.
apply: termination_of_later; first exact: check_same_run_state.
by apply: Rplus_le_compat_r; apply: time_time_mono.
Qed.

(** A check that did not fire left room in the evaluation budget. *)

Lemma check_terminations_budget self (m : nat) :
  max_function_evaluations self = Some m ->
  (_check_terminations time_time self).1 = false ->
  (n_function_evaluations self < m)%nat.
Proof.
rewrite /_check_terminations /termination_of /= => ->.
by rewrite ltnNge; case: (m <= _)%nat.
Qed.

(** A check that fired because of the budget alone. *)

Lemma check_terminations_spent self (m : nat) :
  max_function_evaluations self = Some m ->
  (m <= n_function_evaluations self)%nat ->
  (_check_terminations time_time self).1.
Proof. by rewrite /_check_terminations /termination_of /= => -> ->. Qed.

(** What an evaluation and a termination check leave unchanged. *)

Lemma evaluate_fitness_value self (x : 'cV[R]_N) :
  (_evaluate_fitness fitness_function self x).1 = fitness_function x.
Proof. by []. Qed.

Lemma evaluate_fitness_count self (x : 'cV[R]_N) :
  n_function_evaluations (_evaluate_fitness fitness_function self x).2 =
  (n_function_evaluations self).+1.
Proof. by []. Qed.

Lemma evaluate_fitness_frame self (x : 'cV[R]_N) :
  let self' := (_evaluate_fitness fitness_function self x).2 in
  [/\ max_function_evaluations self' = max_function_evaluations self,
      sigma self' = sigma self,
      rng_optimization self' = rng_optimization self,
      rng_initialization self' = rng_initialization self &
      _n_generations self' = _n_generations self].
Proof. by []. Qed.

Lemma check_terminations_frame self :
  let self' := (_check_terminations time_time self).2 in
  [/\ max_function_evaluations self' = max_function_evaluations self,
      n_function_evaluations self' = n_function_evaluations self,
      sigma self' = sigma self,
      best_so_far self' = best_so_far self &
      _n_generations self' = _n_generations self].
Proof. by []. Qed.

(** An evaluation leaves a best-so-far point behind. *)

Lemma evaluate_fitness_best self (x : 'cV[R]_N) :
  exists best, best_so_far (_evaluate_fitness fitness_function self x).2 = Some best.
Proof.
rewrite /_evaluate_fitness /=.
case: (best_so_far self) => [[bx b]|]; last by exists (x, fitness_function x).
by case: (Rltb _ _); [exists (x, fitness_function x) | exists (bx, b)].
Qed.

(** When the evaluation budget is the only limit that is set, a check fires
    exactly when the budget is spent, and says so. *)

Lemma check_terminations_only_budget self (m : nat) :
  max_function_evaluations self = Some m ->
  max_runtime self = None -> fitness_threshold self = None ->
  (_check_terminations time_time self).1 = (m <= n_function_evaluations self)%nat /\
  ((_check_terminations time_time self).1 ->
   termination_signal (_check_terminations time_time self).2 =
   MAX_FUNCTION_EVALUATIONS).
Proof.
rewrite /_check_terminations /termination_of /= => -> -> ->.
by case: (m <= _)%nat => //; case: (best_so_far self) => [[]|].
Qed.

(** No limit is set: a termination check cannot fire. *)

Definition unlimited self : Prop :=
  [/\ max_function_evaluations self = None, max_runtime self = None &
      fitness_threshold self = None].

Lemma check_terminations_unlimited self :
  unlimited self ->
  (_check_terminations time_time self).1 = false /\
  unlimited (_check_terminations time_time self).2.
Proof.
case=> Hm Hr Ht; rewrite /_check_terminations /termination_of /unlimited /=.
by rewrite Hm Hr Ht; case: (best_so_far self) => [[]|].
Qed.

Lemma evaluate_fitness_unlimited self (x : 'cV[R]_N) :
  unlimited self -> unlimited (_evaluate_fitness fitness_function self x).2.
Proof. by []. Qed.

End BaseFacts.

End Optimizer.

(** ** The sampling loop shared by [LMMAES.iterate] and [XNES.iterate]

    [for k in range(n): if self._check_terminations(): return ...; body].
    The first component of the result is a ghost: the index [k] before which
    the loop returned early, [None] when it ran to its end. *)

Section SamplingLoop.

Variables (n : nat) (S : Type).
Variable check : S -> bool * S.
Variable candidate : 'I_n -> S -> S.

Fixpoint sampling (ks : seq 'I_n) (st : S) : option 'I_n * S :=
  if ks is k :: ks' then
    let: (stop, st) := check st in
    if stop then (Some k, st) else sampling ks' (candidate k st)
  else (None, st).

Lemma sampling_cons (k : 'I_n) (ks : seq 'I_n) (st : S) :
  sampling (k :: ks) st =
  if (check st).1 then (Some k, (check st).2)
  else sampling ks (candidate k (check st).2).
Proof. by rewrite /=; case: (check st). Qed.

Lemma sampling_first (k : 'I_n) (ks : seq 'I_n) (st : S) :
  (check st).1 -> (sampling (k :: ks) st).1 = Some k.
Proof. by rewrite sampling_cons => ->. Qed.

(** An early return hands back the state of the check that fired. *)

Lemma sampling_early (ks : seq 'I_n) (st : S) (k : 'I_n) :
  (sampling ks st).1 = Some k ->
  exists st0 : S, (check st0).1 /\ (sampling ks st).2 = (check st0).2.
Proof.
elim: ks st => [|k0 ks IH] st //; rewrite sampling_cons.
by case Hc: (check st).1; [exists st; rewrite Hc | exact: IH].
Qed.

Lemma sampling_mem (ks : seq 'I_n) (st : S) (k : 'I_n) :
  (sampling ks st).1 = Some k -> k \in ks.
Proof.
elim: ks st => [|k0 ks IH] st //; rewrite sampling_cons in_cons.
case: (check st).1 => [[->]|/IH ->]; first by rewrite eqxx.
by rewrite orbT.
Qed.

(** How many bodies ran: all of them, or those before the early return. *)

Definition sampled (ks : seq 'I_n) (st : S) : nat :=
  if (sampling ks st).1 is Some k then index k ks else size ks.

Lemma sampling_count (count : S -> nat) (ks : seq 'I_n) (st : S) :
  (forall st, count (check st).2 = count st) ->
  (forall k st, count (candidate k st) = (count st).+1) ->
  uniq ks ->
  count (sampling ks st).2 = (count st + sampled ks st)%nat.
Proof.
move=> Hcheck Hbody; rewrite /sampled.
elim: ks st => [|k0 ks IH] st /=; first by rewrite addn0.
case/andP=> Hk0 Huniq; rewrite -/(sampling (k0 :: ks) st) sampling_cons.
case: (check st).1; first by rewrite /= eqxx addn0 Hcheck.
rewrite IH // Hbody Hcheck addSnnS.
case Hs: (sampling ks _).1 => [k|] //.
by case: eqP Hk0 => // ->; rewrite (sampling_mem Hs).
Qed.

(** An invariant of the check and of a body that runs after a check that
    did not fire is an invariant of the loop. *)

Lemma sampling_inv (P : S -> Prop) (ks : seq 'I_n) (st : S) :
  (forall st, P st -> P (check st).2) ->
  (forall k st, P st -> (check st).1 = false -> P (candidate k (check st).2)) ->
  P st -> P (sampling ks st).2.
Proof.
move=> Hcheck Hbody; elim: ks st => [|k ks IH] st // HP.
rewrite sampling_cons; case Hc: (check st).1; first exact: Hcheck.
exact/IH/Hbody.
Qed.

(** A loop whose check cannot fire runs to its end. *)

Lemma sampling_complete (P : S -> Prop) (ks : seq 'I_n) (st : S) :
  (forall st, P st -> (check st).1 = false /\ P (check st).2) ->
  (forall k st, P st -> P (candidate k st)) ->
  P st -> (sampling ks st).1 = None.
Proof.
move=> Hcheck Hbody; elim: ks st => [|k ks IH] st // HP.
have [Hc HP'] := Hcheck st HP; rewrite sampling_cons Hc.
exact/IH/Hbody.
Qed.

(** What the loop does to the rows of the arrays it fills.  The body at
    index [k] writes row [k] only, and [good] is what it establishes there:
    after a complete loop every row is [good]; after an early return the
    rows before the index of the return are [good] and the others are as
    they were. *)

Section Rows.

Variable T : Type.
Variable rows : S -> 'I_n -> T.
Variable P : S -> Prop.
Variable good : 'I_n -> T -> Prop.

Hypothesis check_rows : forall st i, rows (check st).2 i = rows st i.
Hypothesis check_inv : forall st, P st -> P (check st).2.
Hypothesis body_rows :
  forall k st i, i != k -> rows (candidate k st) i = rows st i.
Hypothesis body_inv : forall k st, P st -> P (candidate k st).
Hypothesis body_good : forall k st, P st -> good k (rows (candidate k st) k).

Lemma sampling_rows (ks : seq 'I_n) (st : S) :
  uniq ks -> P st ->
  [/\ P (sampling ks st).2,
      forall i, i \notin ks -> rows (sampling ks st).2 i = rows st i,
      (sampling ks st).1 = None ->
      forall i, i \in ks -> good i (rows (sampling ks st).2 i) &
      forall k, (sampling ks st).1 = Some k ->
      forall i, i \in ks ->
        ((index k ks <= index i ks)%nat -> rows (sampling ks st).2 i = rows st i) /\
        ((index i ks < index k ks)%nat -> good i (rows (sampling ks st).2 i))].
Proof.
elim: ks st => [|k0 ks IH] st; first by split.
rewrite [uniq _]/= => /andP[Hk0 Hu] HP; rewrite sampling_cons.
case Hc: (check st).1.
  split=> //; first exact: check_inv.
    by move=> i _; exact: check_rows.
  by move=> k /= [<-] i _; rewrite eqxx; split=> // _; exact: check_rows.
set st1 := candidate k0 (check st).2.
have HP1 : P st1 by apply: body_inv; exact: check_inv.
have [HPr Hnot Hnone Hsome] := IH st1 Hu HP1.
have Hk0good : good k0 (rows (sampling ks st1).2 k0).
  by rewrite Hnot //; apply: body_good; exact: check_inv.
split=> //.
- move=> i; rewrite in_cons negb_or => /andP[Hik Hi].
  by rewrite Hnot // body_rows // check_rows.
- by move=> Hn i; rewrite in_cons => /orP[/eqP ->|Hi] //; exact: Hnone.
move=> k Hk i; have Hkk := sampling_mem Hk.
have Hkk0 : (k0 == k) = false by apply: contraNF Hk0 => /eqP ->.
rewrite in_cons /= Hkk0 => /orP[/eqP ->|Hi]; first by rewrite eqxx.
have Hik0 : (k0 == i) = false by apply: contraNF Hk0 => /eqP ->.
rewrite Hik0 !ltnS; have [H1 H2] := Hsome k Hk i Hi; split=> // /H1 ->.
by rewrite body_rows ?check_rows // eq_sym Hik0.
Qed.

End Rows.

(** The same for what a body establishes from its position: [P j] holds of
    the state after [j] bodies, and the body that runs from such a state
    makes its row [good j].  After a complete loop the row of the index at
    position [j] is [good j]. *)

Section Counted.

Variable T : Type.
Variable rows : S -> 'I_n -> T.
Variable P : nat -> S -> Prop.
Variable good : nat -> 'I_n -> T -> Prop.

Hypothesis check_rows : forall st i, rows (check st).2 i = rows st i.
Hypothesis check_inv : forall j st, P j st -> P j (check st).2.
Hypothesis body_rows :
  forall k st i, i != k -> rows (candidate k st) i = rows st i.
Hypothesis body_inv : forall j k st, P j st -> P j.+1 (candidate k st).
Hypothesis body_good :
  forall j k st, P j st -> good j k (rows (candidate k st) k).

Lemma sampling_counted (j : nat) (ks : seq 'I_n) (st : S) :
  uniq ks -> P j st -> (sampling ks st).1 = None ->
  forall i, i \in ks -> good (j + index i ks) i (rows (sampling ks st).2 i).
Proof.
elim: ks j st => [|k0 ks IH] j st //.
rewrite cons_uniq => /andP[Hk0 Hu] HP; rewrite sampling_cons.
case Hc: (check st).1 => // Hnone i.
set st1 := candidate k0 (check st).2.
have HP1 : P j.+1 st1 by apply: body_inv; exact: check_inv.
have [_ Hnot _ _] :=
  @sampling_rows T rows (fun _ => True) (fun _ _ => True) check_rows
    (fun _ _ => I) body_rows (fun _ _ _ => I) (fun _ _ _ => I) ks st1 Hu I.
rewrite in_cons /= => /orP[/eqP ->|Hi].
  by rewrite eqxx addn0 Hnot //; apply: body_good; exact: check_inv.
have -> : (k0 == i) = false by apply: contraNF Hk0 => /eqP ->.
by rewrite addnS -addSn; exact: IH.
Qed.

End Counted.

End SamplingLoop.

(** ** A concrete problem, used to instantiate the theorems

    The sphere function in one dimension, a clock that advances by one
    second at each reading, and generators that return a fixed draw. *)

Module Sample.

Import Optimizer.

Definition sphere (x : 'cV[R]_1) : R := x ord0 ord0 * x ord0 ord0.

Definition time_time (i : nat) : R := INR i.

Definition standard_normal (g : nat) : 'cV[R]_1 * nat := (const_mx 1, g.+1).

Definition uniform (g : nat) : R * nat := (1 / 2, g.+1).

Definition uniform_between (lower upper : 'cV[R]_1) (g : nat) :
  'cV[R]_1 * nat := (lower, g.+1).

(** A freshly constructed optimizer with an evaluation budget and an
    initial step-size. *)

Definition fresh (budget : option nat) (sigma0 : R) : optimizer 1 nat :=
  Build budget None None sigma0 0 None 0 0 0 NO_TERMINATION 0 0%nat 0%nat false.

(** [np.empty] returning zeros, [np.argsort] returning the indices in
    order (a population of four), a mean that is always [3], and base-class
    restart tests that never restart. *)

Definition np_empty (a b : nat) : 'M[R]_(a, b) := 0%R.

Definition argsort (y : 'cV[R]_4) : 'S_4 := perm_one _.

Definition initialize_mean (is_restart : bool) (b : optimizer 1 nat) :
  'cV[R]_1 * optimizer 1 nat := (const_mx 3, b).

Definition restart_reinitialize (b : optimizer 1 nat) (y : 'cV[R]_4) :
  bool * optimizer 1 nat := (false, b).

(** The matrix exponential in dimension one. *)

Definition expm (X : 'M[R]_1) : 'M[R]_1 := ((exp (X ord0 ord0))%:M)%R.

Lemma expm_inverse (X : 'M[R]_1) : (expm (- X) *m expm X = 1%:M)%R.
Proof.
rewrite /expm -scalar_mxM mxE /GRing.mul /GRing.opp /=.
by rewrite exp_Ropp Rinv_l //; have := exp_pos (X ord0 ord0); lra.
Qed.

Lemma det_expm (X : 'M[R]_1) : (\det (expm X))%R = exp (\tr X)%R.
Proof. by rewrite /expm det_scalar1 /mxtrace big_ord1. Qed.

Lemma initialize_mean_keeps (is_restart : bool) (b : optimizer 1 nat) :
  n_function_evaluations (initialize_mean is_restart b).2 =
  n_function_evaluations b /\
  max_function_evaluations (initialize_mean is_restart b).2 =
  max_function_evaluations b.
Proof. by []. Qed.

Lemma restart_reinitialize_keeps (b : optimizer 1 nat) (y : 'cV[R]_4) :
  n_function_evaluations (restart_reinitialize b y).2 =
  n_function_evaluations b /\
  max_function_evaluations (restart_reinitialize b y).2 =
  max_function_evaluations b.
Proof. by []. Qed.

Lemma time_time_mono (i j : nat) : (i <= j)%nat -> time_time i <= time_time j.
Proof. by move=> /leP Hij; apply: le_INR. Qed.

Lemma uniform_range (g : nat) : 0 <= (uniform g).1 < 1.
Proof. by rewrite /=; lra. Qed.

End Sample.

(** ** [SRS]: simple random search (rs/srs.py) *)

Module SRS.

Import Optimizer.

(** The entries of the [options] dictionary that [SRS.__init__] reads with
    [options.get]; [None] is an absent key. *)

Record options : Type := Options {
  opt_alpha : option R;
  opt_beta : option R;
  opt_gamma : option R;
  opt_min_sigma : option R
}.

(** SRS is a single-point search: its population is the one candidate that
    [iterate] evaluates. *)

Definition n_individuals : nat := 1.

Section SRS.

Variable N : nat.
Variable rng : Type.
Variable fitness_function : 'cV[R]_N -> R.
Variable time_time : nat -> R.

(** [Generator.standard_normal(size=(N,))], [Generator.uniform()] (a draw
    from [0, 1)) and [Generator.uniform(low, high)]. *)

Variable standard_normal : rng -> 'cV[R]_N * rng.
Variable uniform : rng -> R * rng.
Variable uniform_between : 'cV[R]_N -> 'cV[R]_N -> rng -> 'cV[R]_N * rng.

Record srs : Type := Srs {
  base : optimizer N rng;
  x : option 'cV[R]_N;
  initial_lower_boundary : 'cV[R]_N;
  initial_upper_boundary : 'cV[R]_N;
  alpha : R;
  beta : R;
  gamma : R;
  min_sigma : R
}.

Definition set_base (self : srs) (b : optimizer N rng) : srs :=
  Srs b (x self) (initial_lower_boundary self) (initial_upper_boundary self)
    (alpha self) (beta self) (gamma self) (min_sigma self).

(** [SRS.__init__].  [PRS.__init__] is not among the sources: the attributes
    it leaves on [self] are the first four arguments.  A failed [assert] is
    [None]. *)

Definition __init__ (prs : optimizer N rng) (x0 : option 'cV[R]_N)
    (lower upper : 'cV[R]_N) (o : options) : option srs :=
  let alpha := odflt (3 / 10) (opt_alpha o) in
  if ~~ Rltb 0 alpha then None else
  let beta := odflt 0 (opt_beta o) in
  if ~~ (Rleb 0 beta && Rleb beta 1) then None else
  let gamma := odflt (99 / 100) (opt_gamma o) in
  if ~~ (Rleb 0 gamma && Rleb gamma 1) then None else
  let min_sigma := odflt (1 / 100) (opt_min_sigma o) in
  if ~~ Rltb 0 min_sigma then None else
  Some (Srs prs x0 lower upper alpha beta gamma min_sigma).

Definition initialize (self : srs) : 'cV[R]_N * R * srs :=
  let: (x, self) :=
    if x self is Some x0 then (x0, self)
    else
      let: (x, g) :=
        uniform_between (initial_lower_boundary self)
          (initial_upper_boundary self) (rng_initialization (base self)) in
      (x, set_base self (set_rng_initialization (base self) g)) in
  let: (y, b) := _evaluate_fitness fitness_function (base self) x in
  (x, y, set_base self b).

(** [iterate] returns [None] where Python raises: [self.best_so_far_x - x]
    with [best_so_far_x] still [None]. *)

Definition iterate (self : srs) (x : 'cV[R]_N) : option ('cV[R]_N * R * srs) :=
  let: (z, g) := standard_normal (rng_optimization (base self)) in
  let delta_x := (sigma (base self) *: z)%R in
  let: (y, b) :=
    _evaluate_fitness fitness_function
      (set_rng_optimization (base self) g) (x + delta_x)%R in
  let: (probability, g) := uniform (rng_optimization b) in
  let b := set_rng_optimization b g in
  if Rltb probability (beta self)
  then Some ((x + alpha self *: delta_x)%R, y, set_base self b)
  else if best_so_far_x b is Some best_x
  then Some ((x + alpha self *: (best_x - x))%R, y, set_base self b)
  else None.

(** The variables of the [while True] loop of [optimize]. *)

Definition loop_state : Type := (srs * 'cV[R]_N * R * seq R)%type.

Definition self_of (st : loop_state) : srs := st.1.1.1.

Definition x_of (st : loop_state) : 'cV[R]_N := st.1.1.2.

(** One pass through the body of the loop: [Some (true, _)] when it left by
    [break]. *)

Definition generation (st : loop_state) : option (bool * loop_state) :=
  let: (self, x, _, fitness) := st in
  if iterate self x is Some (x, y, self) then
    let self :=
      set_base self
        (set_sigma (base self)
           (Rmax (gamma self * sigma (base self)) (min_sigma self))) in
    let fitness :=
      if record_fitness (base self) then rcons fitness y else fitness in
    let: (stop, b) := _check_terminations time_time (base self) in
    if stop then Some (true, (set_base self b, x, y, fitness))
    else
      Some (false,
            (set_base self (set_n_generations b (_n_generations b).+1),
             x, y, fitness))
  else None.

Fixpoint optimize_loop (fuel : nat) (st : loop_state) : run loop_state :=
  if fuel is fuel'.+1 then
    match generation st with
    | Some (true, st') => Done st'
    | Some (false, st') => optimize_loop fuel' st'
    | None => Raised
    end
  else OutOfFuel.

(** The lines of [optimize] before the loop. *)

Definition start (self : srs) : loop_state :=
  let: (fitness, b) := Optimizer.optimize time_time (base self) in
  let: (x, y, self) := initialize (set_base self b) in
  (self, x, y, rcons fitness y).

Definition optimize (fuel : nat) (self : srs) : run (results N) :=
  match optimize_loop fuel (start self) with
  | Done (self, _, _, fitness) => Done (_collect_results (base self) fitness)
  | Raised => Raised
  | OutOfFuel => OutOfFuel
  end.

(** The state after [k] passes through the loop that did not [break]. *)

Fixpoint generations (k : nat) (st : loop_state) : option loop_state :=
  if k is k'.+1 then
    if generations k' st is Some st' then
      if generation st' is Some (false, st'') then Some st'' else None
    else None
  else Some st.

(** *** Facts about [SRS] *)

Implicit Types (self : srs) (st : loop_state).

Lemma init_asserts prs x0 lower upper o self :
  __init__ prs x0 lower upper o = Some self ->
  [/\ 0 < alpha self, 0 <= beta self <= 1, 0 <= gamma self <= 1,
      0 < min_sigma self & base self = prs].
Proof.
rewrite /__init__.
case: RltbP => //= Ha; case: RlebP => //= Hb0; case: RlebP => //= Hb1.
case: RlebP => //= Hg0; case: RlebP => //= Hg1; case: RltbP => //= Hm.
by case=> <-.
Qed.

Lemma init_default_beta prs x0 lower upper o self :
  opt_beta o = None -> __init__ prs x0 lower upper o = Some self ->
  beta self = 0.
Proof.
rewrite /__init__ => ->.
case: RltbP => //= _; case: RlebP => //= _; case: RlebP => //= _.
by case: (_ && _) => //=; case: RltbP => //= _ [<-].
Qed.

(** [iterate] never raises, and this is what it returns. *)

Lemma iterate_eq self (x : 'cV[R]_N) :
  let zg := standard_normal (rng_optimization (base self)) in
  let delta_x := (sigma (base self) *: zg.1)%R in
  let b :=
    (_evaluate_fitness fitness_function
       (set_rng_optimization (base self) zg.2) (x + delta_x)%R).2 in
  let pg := uniform zg.2 in
  exists best_x : 'cV[R]_N,
    best_so_far_x b = Some best_x /\
    iterate self x =
    Some ((if Rltb pg.1 (beta self) then x + alpha self *: delta_x
           else x + alpha self *: (best_x - x))%R,
          fitness_function (x + delta_x)%R,
          set_base self (set_rng_optimization b pg.2)).
Proof.
rewrite /iterate; case: (standard_normal _) => z g; unlet.
set ev := _evaluate_fitness _ _ _.
have [[bx bv] Hbest] : exists best, best_so_far ev.2 = Some best.
  exact: evaluate_fitness_best.
have Hy : ev.1 = fitness_function (x + sigma (base self) *: z)%R by [].
have Hg : rng_optimization ev.2 = g by [].
exists bx; split; first by rewrite /best_so_far_x Hbest.
case: ev Hbest Hy Hg => y b /= Hbest -> ->.
case: (uniform g) => p g' /=; rewrite /best_so_far_x /= Hbest /=.
by case: (Rltb p _).
Qed.

Lemma iterate_frame self (x : 'cV[R]_N) :
  exists (x' : 'cV[R]_N) (y : R) (self' : srs),
    [/\ iterate self x = Some (x', y, self'),
        [/\ beta self' = beta self, gamma self' = gamma self &
            min_sigma self' = min_sigma self] &
        [/\ sigma (base self') = sigma (base self),
            n_function_evaluations (base self') =
            (n_function_evaluations (base self)).+1 &
            max_function_evaluations (base self') =
            max_function_evaluations (base self)]].
Proof.
have [bx [_ ->]] := iterate_eq self x.
by eexists; eexists; eexists; split; first by reflexivity.
Qed.

(** One pass through the loop never raises; it keeps the hyper-parameters
    and applies the step-size recurrence. *)

Lemma generation_eq st :
  exists (stop : bool) (st' : loop_state),
    [/\ generation st = Some (stop, st'),
        beta (self_of st') = beta (self_of st),
        gamma (self_of st') = gamma (self_of st),
        min_sigma (self_of st') = min_sigma (self_of st) &
        sigma (base (self_of st')) =
        Rmax (gamma (self_of st) * sigma (base (self_of st)))
             (min_sigma (self_of st))].
Proof.
case: st => [[[self x0] y0] fitness]; rewrite /generation /self_of.
have [x1 [y1 [self1 [-> [Hb Hg Hm] [Hs _ _]]]]] := iterate_frame self x0.
unlet; set ck := _check_terminations _ _.
have Hck :
  sigma ck.2 = Rmax (gamma self1 * sigma (base self1)) (min_sigma self1).
  by [].
by case: ck Hck => -[] b' /= Hck; eexists; eexists; (split; first by []);
  rewrite /= ?Hck ?Hb ?Hg ?Hm ?Hs.
Qed.

Lemma start_eq self :
  [/\ beta (self_of (start self)) = beta self,
      gamma (self_of (start self)) = gamma self,
      min_sigma (self_of (start self)) = min_sigma self &
      sigma (base (self_of (start self))) = sigma (base self)].
Proof.
rewrite /start /initialize /self_of /=.
by case: (x self) => [x0|] //=; case: (uniform_between _ _ _) => x0 g.
Qed.

Lemma decay_floor (g s m : R) (k : nat) :
  0 <= g <= 1 -> 0 < m ->
  Rmax (g * (if k is 0%nat then s else Rmax (g ^ k * s) m)) m =
  Rmax (g ^ k.+1 * s) m.
Proof.
move=> Hg Hm; case: k => [|k]; first by rewrite /= Rmult_1_r.
rewrite -[(g ^ k.+2)%Re]/(g * g ^ k.+1)%Re Rmult_assoc.
move: (g ^ k.+1 * s) => a.
have H1 : 0 <= (1 - g) * m by apply: Rmult_le_pos; lra.
rewrite /Rmax; case: (Rle_dec a m) => Ham.
  have H2 : 0 <= g * (m - a) by apply: Rmult_le_pos; lra.
  by do 2!case: Rle_dec => ?; nra.
by case: Rle_dec.
Qed.

Lemma generations_eq (k : nat) st0 st :
  0 <= gamma (self_of st0) <= 1 -> 0 < min_sigma (self_of st0) ->
  generations k st0 = Some st ->
  [/\ beta (self_of st) = beta (self_of st0),
      gamma (self_of st) = gamma (self_of st0),
      min_sigma (self_of st) = min_sigma (self_of st0) &
      sigma (base (self_of st)) =
      if k is 0%nat then sigma (base (self_of st0))
      else Rmax (gamma (self_of st0) ^ k * sigma (base (self_of st0)))
                (min_sigma (self_of st0))].
Proof.
move=> Hg Hm; elim: k st => [|k IH] st /=; first by case=> <-.
case: (generations k st0) IH => // st1 /(_ _ erefl) [Hb1 Hg1 Hm1 Hs1].
have [stop [st2 [-> Hb2 Hg2 Hm2 Hs2]]] := generation_eq st1.
case: stop => // -[<-]; split; rewrite ?Hb2 ?Hg2 ?Hm2 //.
by rewrite Hs2 Hg1 Hm1 Hs1 decay_floor.
Qed.

(** C5.  [SRS.iterate] evaluates exactly one candidate, [x + delta_x] with
    [delta_x = sigma * z] and [z] a standard normal draw: the counter of
    evaluations grows by one and the returned fitness is that of
    [x + delta_x].  Then, when the uniform draw is below [beta], [x] moves by
    [alpha * delta_x]; otherwise it moves by [alpha * (best_so_far_x - x)],
    where [best_so_far_x] is the best point after this evaluation. *)

Theorem iterate_explores_or_exploits self (x : 'cV[R]_N) :
  let z := (standard_normal (rng_optimization (base self))).1 in
  let delta_x := (sigma (base self) *: z)%R in
  let probability :=
    (uniform (standard_normal (rng_optimization (base self))).2).1 in
  exists (best_x : 'cV[R]_N) (self' : srs),
    [/\ iterate self x =
        Some ((if Rltb probability (beta self)
               then x + alpha self *: delta_x
               else x + alpha self *: (best_x - x))%R,
              fitness_function (x + delta_x)%R, self'),
        n_function_evaluations (base self') =
        (n_function_evaluations (base self)).+1 &
        best_so_far_x (base self') = Some best_x].
Proof.
move=> z delta_x probability.
have [best_x [Hbest ->]] := iterate_eq self x.
by eexists; eexists; split; first by reflexivity.
Qed.

(** C3.  In every pass through the loop of [SRS.optimize] (pass [k + 1],
    entered in a state reached after [k] passes of a run that [__init__]
    accepted) the body completes and leaves
    [sigma' = max (gamma * sigma, min_sigma)].  Hence [sigma'] is at least
    [min_sigma]; it is [gamma * sigma] as long as that is above the floor;
    and it is [max (gamma ^ (k + 1) * sigma_0, min_sigma)] for the initial
    step-size [sigma_0]. *)

Theorem sigma_decays_to_floor prs x0 lower upper o self0 (k : nat) st :
  __init__ prs x0 lower upper o = Some self0 ->
  generations k (start self0) = Some st ->
  exists (stop : bool) (st' : loop_state),
    generation st = Some (stop, st') /\
    let sigma' := sigma (base (self_of st')) in
    let s := sigma (base (self_of st)) in
    [/\ sigma' = Rmax (gamma self0 * s) (min_sigma self0),
        min_sigma self0 <= sigma',
        min_sigma self0 <= gamma self0 * s -> sigma' = gamma self0 * s &
        sigma' = Rmax (gamma self0 ^ k.+1 * sigma prs) (min_sigma self0)].
Proof.
move=> Hinit Hk.
have [_ _ Hg Hm Hprs] := init_asserts Hinit.
have [_ Hg0 Hm0 Hs0] := start_eq self0.
have [_ Hgk Hmk Hsk] := generations_eq
  (eq_ind_r (fun g => 0 <= g <= 1) Hg Hg0)
  (eq_ind_r (fun m => 0 < m) Hm Hm0) Hk.
have [stop [st' [Hgen _ _ _ Hs']]] := generation_eq st.
exists stop, st'; split=> //=.
rewrite Hs' Hgk Hmk Hg0 Hm0.
split=> //; first exact: Rmax_r.
  by move=> Hfloor; rewrite Rmax_left.
by rewrite Hsk Hg0 Hm0 Hs0 Hprs decay_floor.
Qed.

(** The draws of [Generator.uniform()] lie in [0, 1). *)

Hypothesis uniform_range : forall g : rng, 0 <= (uniform g).1 < 1.

(** C10.  With the default [beta = 0.0] (no ['beta'] in the options) the
    test [probability < beta] is false for every draw, in every generation
    of the run: [iterate] always moves [x] by [alpha * (best_so_far_x - x)],
    whatever the perturbation it evaluated. *)

Theorem default_beta_never_explores prs x0 lower upper o self0 (k : nat) st :
  opt_beta o = None ->
  __init__ prs x0 lower upper o = Some self0 ->
  generations k (start self0) = Some st ->
  (forall g : rng, Rltb (uniform g).1 (beta (self_of st)) = false) /\
  exists (best_x : 'cV[R]_N) (y : R) (self' : srs),
    best_so_far_x (base self') = Some best_x /\
    iterate (self_of st) (x_of st) =
    Some ((x_of st + alpha (self_of st) *: (best_x - x_of st))%R, y, self').
Proof.
move=> Ho Hinit Hk.
have [_ _ Hg Hm _] := init_asserts Hinit.
have [Hb0 Hg0 Hm0 _] := start_eq self0.
have [Hbk _ _ _] := generations_eq
  (eq_ind_r (fun g => 0 <= g <= 1) Hg Hg0)
  (eq_ind_r (fun m => 0 < m) Hm Hm0) Hk.
have Hbeta : beta (self_of st) = 0.
  by rewrite Hbk Hb0 (init_default_beta Ho Hinit).
have Hdraw g : Rltb (uniform g).1 (beta (self_of st)) = false.
  by rewrite Hbeta; case: RltbP => // Hlt; have := uniform_range g; lra.
split=> //.
have [best_x [Hbest ->]] := iterate_eq (self_of st) (x_of st).
by rewrite Hdraw; exists best_x; eexists; eexists; split; last by reflexivity.
Qed.

(** *** The evaluation counter along a run of [SRS] *)

Lemma start_count self :
  n_function_evaluations (base (self_of (start self))) =
  (n_function_evaluations (base self)).+1 /\
  max_function_evaluations (base (self_of (start self))) =
  max_function_evaluations (base self).
Proof.
rewrite /start /initialize /self_of /=.
by case: (x self) => [x0|] //=; case: (uniform_between _ _ _) => x0 g.
Qed.

(** A pass evaluates one candidate and only then checks the budget. *)

Lemma generation_count st :
  exists (stop : bool) (st' : loop_state),
    [/\ generation st = Some (stop, st'),
        n_function_evaluations (base (self_of st')) =
        (n_function_evaluations (base (self_of st))).+1,
        max_function_evaluations (base (self_of st')) =
        max_function_evaluations (base (self_of st)) &
        forall m : nat,
          max_function_evaluations (base (self_of st)) = Some m ->
          if stop then True
          else ((n_function_evaluations (base (self_of st))).+1 < m)%nat].
Proof.
case: st => [[[self x0] y0] fitness]; rewrite /generation.
have [x1 [y1 [self1 [-> _ [_ Hn Hm]]]]] := iterate_frame self x0.
cbv beta iota zeta; set b2 := base (set_base _ _).
have Hn2 : n_function_evaluations b2 = (n_function_evaluations (base self)).+1.
  by rewrite /b2 /= Hn.
have Hm2 : max_function_evaluations b2 = max_function_evaluations (base self).
  by rewrite /b2 /= Hm.
have Hbudget (m : nat) : max_function_evaluations (base self) = Some m ->
    (_check_terminations time_time b2).1 = false ->
    ((n_function_evaluations (base self)).+1 < m)%nat.
  by rewrite -Hm2 -Hn2; exact: check_terminations_budget.
have [Hmc Hnc _ _ _] := check_terminations_frame time_time b2.
case: (_check_terminations _ _) Hmc Hnc Hbudget => -[] b' Hmc Hnc Hbudget;
  eexists; eexists; (split; first by []); rewrite /= ?Hmc ?Hnc ?Hn2 ?Hm2 //.
by move=> m /Hbudget; apply.
Qed.

Lemma optimize_loop_count (fuel : nat) st st' (m : nat) :
  max_function_evaluations (base (self_of st)) = Some m ->
  optimize_loop fuel st = Done st' ->
  (n_function_evaluations (base (self_of st')) <=
   maxn m (n_function_evaluations (base (self_of st))).+1)%nat.
Proof.
elim: fuel st => [|fuel IH] st //= Hm.
have [stop [st1 [-> Hn1 Hm1 Hb]]] := generation_count st.
case: stop Hb => Hb; first by case=> <-; rewrite Hn1 leq_maxr.
rewrite -Hm1 in Hm; move/(IH _ Hm); rewrite Hn1 => Hle.
apply: leq_trans Hle _; rewrite geq_max leq_maxl /=.
by apply: leq_trans (leq_maxl _ _); apply: Hb; rewrite -Hm1.
Qed.

(** When the budget is at most two evaluations above the counter, the
    first pass already stops, two evaluations after [optimize] began. *)

Lemma optimize_small_budget (fuel : nat) self (m : nat) :
  max_function_evaluations (base self) = Some m ->
  (m <= (n_function_evaluations (base self)).+2)%nat ->
  exists r : results N,
    optimize fuel.+1 self = Done r /\
    r_n_function_evaluations r = (n_function_evaluations (base self)).+2.
Proof.
move=> Hm Hle; rewrite /optimize /=.
have [Hn0 Hm0] := start_count self.
have [stop [[[[self1 x1] y1] f1] [-> Hn1 Hm1 Hb]]] :=
  generation_count (start self).
case: stop Hb => [_|Hb].
  by eexists; split; first by []; rewrite /= -Hn0 -Hn1.
have := Hb m; rewrite Hm0 Hn0 => /(_ Hm) Hlt.
by move: (leq_trans Hlt Hle); rewrite ltnn.
Qed.

(** [SRS] evaluates its starting point and one candidate before its first
    termination check: a result holds at most two evaluations more than the
    run started with, or the budget. *)

Lemma srs_optimize_budget (m fuel : nat) self (r : results N) :
  max_function_evaluations (base self) = Some m ->
  optimize fuel self = Done r ->
  (r_n_function_evaluations r <=
   maxn m (n_function_evaluations (base self)).+2)%nat.
Proof.
move=> Hm; rewrite /optimize.
have [Hn0 Hm0] := start_count self; rewrite -Hm0 in Hm.
case Hloop: (optimize_loop fuel (start self)) => [[[[self1 x1] y1] f1]| |] //.
by case=> <-; have := optimize_loop_count Hm Hloop; rewrite Hn0.
Qed.

(** *** The other extreme of [beta] *)

(** X2.  With [beta = 1] the test [probability < beta] succeeds for every
    draw from [0, 1): [iterate] always moves [x] by [alpha * delta_x], in the
    direction of the perturbation it has just evaluated, and never looks at
    [best_so_far_x]. *)

Theorem full_beta_always_explores self (x : 'cV[R]_N) :
  beta self = 1 ->
  let z := (standard_normal (rng_optimization (base self))).1 in
  let delta_x := (sigma (base self) *: z)%R in
  exists self' : srs,
    iterate self x =
    Some ((x + alpha self *: delta_x)%R, fitness_function (x + delta_x)%R, self').
Proof.
move=> Hbeta z delta_x.
have [best_x [_ ->]] := iterate_eq self x.
have -> : Rltb (uniform (standard_normal (rng_optimization (base self))).2).1
               (beta self) = true.
  by rewrite Hbeta; case: RltbP => // -[]; have := uniform_range
    (standard_normal (rng_optimization (base self))).2; lra.
by eexists; reflexivity.
Qed.

(** *** A whole run of [SRS.optimize] *)

(** What one pass through the loop does to the counters, to the limits and
    to the list of recorded fitness values. *)

Lemma generation_run st :
  exists (stop : bool) (st' : loop_state),
    [/\ generation st = Some (stop, st'),
        [/\ max_runtime (base (self_of st')) = max_runtime (base (self_of st)),
            fitness_threshold (base (self_of st')) =
            fitness_threshold (base (self_of st)),
            record_fitness (base (self_of st')) =
            record_fitness (base (self_of st)) &
            _n_generations (base (self_of st')) =
            (_n_generations (base (self_of st)) + ~~ stop)%nat],
        exists y : R,
          st'.2 = if record_fitness (base (self_of st)) then rcons st.2 y
                  else st.2 &
        forall m : nat,
          max_function_evaluations (base (self_of st)) = Some m ->
          max_runtime (base (self_of st)) = None ->
          fitness_threshold (base (self_of st)) = None ->
          stop = (m <= (n_function_evaluations (base (self_of st))).+1)%nat /\
          (stop -> termination_signal (base (self_of st')) =
                   MAX_FUNCTION_EVALUATIONS)].
Proof.
case: st => [[[self x0] y0] fitness]; rewrite /generation /self_of.
have [bx [_ ->]] := iterate_eq self x0.
cbv beta iota zeta; set b2 := base (set_base _ _).
set y1 := fitness_function _.
have Hb2 : [/\ max_function_evaluations b2 = max_function_evaluations (base self),
               max_runtime b2 = max_runtime (base self),
               fitness_threshold b2 = fitness_threshold (base self),
               n_function_evaluations b2 = (n_function_evaluations (base self)).+1 &
               record_fitness b2 = record_fitness (base self)] by [].
case: Hb2 => Hm2 Hr2 Ht2 Hn2 Hf2.
have Honly (m : nat) : max_function_evaluations (base self) = Some m ->
    max_runtime (base self) = None -> fitness_threshold (base self) = None ->
    (_check_terminations time_time b2).1 =
    (m <= (n_function_evaluations (base self)).+1)%nat /\
    ((_check_terminations time_time b2).1 ->
     termination_signal (_check_terminations time_time b2).2 =
     MAX_FUNCTION_EVALUATIONS).
  rewrite -Hm2 -Hr2 -Ht2 -Hn2; exact: check_terminations_only_budget.
have Hck : [/\ max_runtime (_check_terminations time_time b2).2 = max_runtime b2,
               fitness_threshold (_check_terminations time_time b2).2 =
               fitness_threshold b2,
               record_fitness (_check_terminations time_time b2).2 =
               record_fitness b2 &
               _n_generations (_check_terminations time_time b2).2 =
               _n_generations (base self)] by [].
case: Hck; rewrite Hr2 Ht2 Hf2.
case: (_check_terminations time_time b2) Honly => -[] b' /= Honly Hr' Ht' Hf' Hg';
  eexists; eexists; (split; first by []); rewrite /= ?Hr' ?Ht' ?Hf' ?Hg' ?Hf2.
- by rewrite addn0.
- by exists y1.
- exact: Honly.
- by rewrite addn1.
- by exists y1.
- exact: Honly.
Qed.

Lemma start_run self :
  let x0 := if x self is Some x0 then x0
            else (uniform_between (initial_lower_boundary self)
                    (initial_upper_boundary self)
                    (rng_initialization (base self))).1 in
  [/\ [/\ max_runtime (base (self_of (start self))) = max_runtime (base self),
          fitness_threshold (base (self_of (start self))) =
          fitness_threshold (base self),
          record_fitness (base (self_of (start self))) =
          record_fitness (base self) &
          _n_generations (base (self_of (start self))) =
          _n_generations (base self)] &
      (start self).2 = [:: fitness_function x0]].
Proof.
rewrite /start /initialize /self_of /=.
by case: (x self) => [x0|] //=; case: (uniform_between _ _ _) => x0 g.
Qed.

Lemma optimize_loop_done (fuel m : nat) st :
  max_function_evaluations (base (self_of st)) = Some m ->
  (0 < fuel)%nat ->
  (m <= n_function_evaluations (base (self_of st)) + fuel)%nat ->
  exists st' : loop_state, optimize_loop fuel st = Done st'.
Proof.
elim: fuel st => [|fuel IH] st //= Hm _ Hle.
have [stop [st1 [-> Hn1 Hm1 Hb]]] := generation_count st.
case: stop Hb => Hb; first by exists st1.
have Hlt := Hb m Hm.
apply: IH; rewrite ?Hm1 ?Hn1 //; last by rewrite addSnnS.
by case: fuel Hle => // Hle; move: (leq_trans Hlt Hle); rewrite addn1 ltnn.
Qed.

(** X3.  A run of [SRS.optimize] with an evaluation budget [m] never raises
    and comes to an end: with the counter at [n0] when it is called, it
    returns a result within [max (1, m - n0 - 1)] passes through its loop,
    whatever the fitness function and the draws.  (The base class is the one
    modelled above: it counts one evaluation per call and stops at the
    budget.) *)

Theorem srs_optimize_returns (m fuel : nat) self :
  max_function_evaluations (base self) = Some m ->
  (0 < fuel)%nat ->
  (m <= (n_function_evaluations (base self)).+1 + fuel)%nat ->
  exists r : results N, optimize fuel self = Done r.
Proof.
move=> Hm Hfuel Hle; rewrite /optimize.
have [Hn0 Hm0] := start_count self.
have [| |[[[self1 x1] y1] f1] ->] := @optimize_loop_done fuel m (start self) _ Hfuel.
- by rewrite Hm0.
- by rewrite Hn0.
by eexists.
Qed.

Lemma optimize_loop_exact (fuel m : nat) st st' :
  max_function_evaluations (base (self_of st)) = Some m ->
  max_runtime (base (self_of st)) = None ->
  fitness_threshold (base (self_of st)) = None ->
  optimize_loop fuel st = Done st' ->
  n_function_evaluations (base (self_of st')) =
  maxn m (n_function_evaluations (base (self_of st))).+1 /\
  termination_signal (base (self_of st')) = MAX_FUNCTION_EVALUATIONS.
Proof.
elim: fuel st => [|fuel IH] st //= Hm Hr Ht.
have [stop [st1 [Hgen Hn1 Hm1 _]]] := generation_count st.
have [stop' [st1' [Hgen' [Hr1 Ht1 _ _] _ Honly]]] := generation_run st.
move: Hgen'; rewrite Hgen => -[Hs Hst]; rewrite -{}Hs -{}Hst in Hr1 Ht1 Honly.
have [Hstop Hsig] := Honly m Hm Hr Ht.
case: stop Hstop Hsig {Hgen Honly} => Hstop Hsig.
  by case=> <-; rewrite Hn1 (maxn_idPr _) // Hsig.
move=> Hloop.
have [] := IH st1 _ _ _ Hloop; rewrite ?Hm1 ?Hr1 ?Ht1 // Hn1 => -> ->; split=> //.
move/esym/negbT: Hstop; rewrite -ltnNge => Hlt.
by rewrite (maxn_idPl _) ?(maxn_idPl _) // ltnW.
Qed.

(** X4.  When the evaluation budget [m] is the only limit that is set (no
    [max_runtime], no [fitness_threshold]), a run of [SRS.optimize] that
    began with the counter at [n0] reports exactly [max (m, n0 + 2)]
    evaluations, and gives [MAX_FUNCTION_EVALUATIONS] as the reason of the
    stop: the budget is met exactly as soon as it is at least two above the
    counter.  (The base class is the one modelled above.) *)

Theorem srs_budget_is_met_exactly (m fuel : nat) self (r : results N) :
  max_function_evaluations (base self) = Some m ->
  max_runtime (base self) = None ->
  fitness_threshold (base self) = None ->
  optimize fuel self = Done r ->
  r_n_function_evaluations r = maxn m (n_function_evaluations (base self)).+2 /\
  r_termination_signal r = MAX_FUNCTION_EVALUATIONS.
Proof.
move=> Hm Hr Ht; rewrite /optimize.
have [Hn0 Hm0] := start_count self.
have [[Hr0 Ht0 _ _] _] := start_run self.
case Hloop: (optimize_loop fuel (start self)) => [[[[self1 x1] y1] f1]| |] //.
case=> <-; rewrite /=.
have [] := @optimize_loop_exact fuel m _ _ _ _ _ Hloop; rewrite ?Hm0 ?Hr0 ?Ht0 //.
by rewrite Hn0.
Qed.

Lemma optimize_loop_generations (fuel : nat) st st' :
  optimize_loop fuel st = Done st' ->
  [/\ (n_function_evaluations (base (self_of st')) +
       _n_generations (base (self_of st)) =
       _n_generations (base (self_of st')) +
       (n_function_evaluations (base (self_of st))).+1)%nat,
      (n_function_evaluations (base (self_of st)) <
       n_function_evaluations (base (self_of st')))%nat &
      exists tail : seq R,
        st'.2 = st.2 ++ tail /\
        size tail =
        if record_fitness (base (self_of st))
        then (n_function_evaluations (base (self_of st')) -
              n_function_evaluations (base (self_of st)))%nat
        else 0%nat].
Proof.
elim: fuel st => [|fuel IH] st //=.
have [stop [st1 [Hgen Hn1 _ _]]] := generation_count st.
have [stop' [st1' [Hgen' [_ _ Hf1 Hg1] [y Hy] _]]] := generation_run st.
move: Hgen'; rewrite Hgen => -[Hs Hst]; rewrite -{}Hs -{}Hst in Hf1 Hg1 Hy.
case: stop Hg1 {Hgen} => Hg1.
  case=> <-; rewrite Hg1 Hn1 addn0 addnC; split=> //.
  rewrite Hy; case: (record_fitness _).
    by exists [:: y]; rewrite cats1 subSnn.
  by exists [::]; rewrite cats0.
move/IH; rewrite Hg1 Hn1 Hf1 addn1 => -[Hc Hlt [tail [Ht Hs]]]; split.
- by move: Hc; rewrite !addnS => -[].
- exact: ltnW.
rewrite Ht Hy; case: (record_fitness _) Hs => Hs; last by exists tail.
exists (y :: tail); rewrite -cats1 -catA; split=> //=.
by rewrite Hs subnS prednK // subn_gt0 ltnW.
Qed.

(** X5.  The counters of generations and of evaluations move together: a
    run of [SRS.optimize] evaluates its starting point, then one candidate
    per pass through the loop, and the pass that breaks does not count as a
    generation.  So the result holds two evaluations per run more than it
    holds generations: from a fresh optimizer,
    [n_function_evaluations = _n_generations + 2].  (One evaluation is one
    increment of the counter, as in the base class modelled above.) *)

Theorem srs_evaluations_and_generations (fuel : nat) self (r : results N) :
  optimize fuel self = Done r ->
  (r_n_function_evaluations r + _n_generations (base self) =
   r_n_generations r + (n_function_evaluations (base self)).+2)%nat.
Proof.
rewrite /optimize.
have [Hn0 _] := start_count self.
have [[_ _ _ Hg0] _] := start_run self.
case Hloop: (optimize_loop fuel (start self)) => [[[[self1 x1] y1] f1]| |] //.
case=> <- /=.
by have [] := optimize_loop_generations Hloop; rewrite Hn0 Hg0.
Qed.

(** X6.  The list [fitness] that [SRS.optimize] builds and hands to
    [_collect_results] when it leaves its loop is the list that
    [Optimizer.optimize] returned, then the fitness of the starting point
    ([self.x], or the uniform draw between the initial boundaries when
    [self.x] is [None]), appended whether [record_fitness] is set or not,
    and then, when [record_fitness] is set, one value for every pass
    through the loop, the one that breaks included; when it is not set,
    nothing more. *)

Theorem srs_fitness_record (fuel : nat) self st' :
  optimize_loop fuel (start self) = Done st' ->
  let x0 := if x self is Some x0 then x0
            else (uniform_between (initial_lower_boundary self)
                    (initial_upper_boundary self)
                    (rng_initialization (base self))).1 in
  exists tail : seq R,
    st'.2 =
    (Optimizer.optimize time_time (base self)).1 ++
    fitness_function x0 :: tail /\
    size tail =
    if record_fitness (base self)
    then (_n_generations (base (self_of st')) -
          _n_generations (base self)).+1
    else 0%nat.
Proof.
move=> Hloop.
have [[_ _ Hf0 Hg0] Hy0] := start_run self.
have [Hc Hlt [tail [/= Ht Hs]]] := optimize_loop_generations Hloop.
exists tail; rewrite Ht Hy0; split=> //.
rewrite Hs Hf0; case: (record_fitness _) => //.
move: Hc Hlt; rewrite Hg0.
move: (n_function_evaluations _) (n_function_evaluations _) (_n_generations _)
  (_n_generations _) => a b g' g Hc Hlt.
by move/ltP: Hlt; move: Hc; rewrite -!plusE -!minusE; lia.
Qed.

End SRS.

(** *** [SRS] on the sample problem *)

Definition sample_options : options := Options None None None None.

Definition sample_self (budget : option nat) : srs 1 nat :=
  Srs (Sample.fresh budget 1) (Some (const_mx 3)) (const_mx (-5)) (const_mx 5)
    (3 / 10) 0 (99 / 100) (1 / 100).

Lemma sample_init (budget : option nat) :
  __init__ (Sample.fresh budget 1) (Some (const_mx 3)) (const_mx (-5))
    (const_mx 5) sample_options = Some (sample_self budget).
Proof.
rewrite /__init__ /=.
case: RltbP => [_|[]] /=; last lra.
case: RlebP => [_|[]] /=; last lra.
case: RlebP => [_|[]] /=; last lra.
case: RlebP => [_|[]] /=; last lra.
case: RlebP => [_|[]] /=; last lra.
by case: RltbP => [_|[]] //=; lra.
Qed.

Definition sample_start (budget : option nat) : loop_state 1 nat :=
  start Sample.sphere Sample.time_time Sample.uniform_between
    (sample_self budget).

Lemma sigma_decays_witness :
  exists (stop : bool) (st' : loop_state 1 nat),
    generation Sample.sphere Sample.time_time Sample.standard_normal
      Sample.uniform (sample_start None) = Some (stop, st') /\
    sigma (base (self_of st')) = Rmax ((99 / 100) ^ 1 * 1) (1 / 100).
Proof.
have [stop [st' [Hgen]]] :=
  sigma_decays_to_floor (standard_normal := Sample.standard_normal)
    (uniform := Sample.uniform) (uniform_between := Sample.uniform_between)
    (k := 0) (sample_init None) (erefl (Some (sample_start None))).
by cbv zeta => -[_ _ _ Hs]; exists stop, st'.
Defined.

Lemma default_beta_witness :
  exists (best_x : 'cV[R]_1) (y : R) (self' : srs 1 nat),
    iterate Sample.sphere Sample.standard_normal Sample.uniform
      (self_of (sample_start None)) (x_of (sample_start None)) =
    Some ((x_of (sample_start None) +
           alpha (self_of (sample_start None)) *:
           (best_x - x_of (sample_start None)))%R, y, self').
Proof.
have [_ [best_x [y [self' [_ Hit]]]]] :=
  default_beta_never_explores (standard_normal := Sample.standard_normal)
    (uniform_between := Sample.uniform_between)
    Sample.uniform_range (k := 0) (erefl (opt_beta sample_options))
    (sample_init None) (erefl (Some (sample_start None))).
by exists best_x, y, self'.
Defined.

(** C7.  [SRS.optimize] breaks the bound.  It evaluates its starting point
    in [initialize] and one candidate in the first [iterate] before its
    first termination check: with a budget of one evaluation and a counter
    at 0 it returns a result that records two evaluations, more than
    [max_function_evaluations + (n_individuals - 1) = 1]. *)

Lemma srs_overshoots_small_budget :
  exists r : results 1,
    optimize Sample.sphere Sample.time_time Sample.standard_normal
      Sample.uniform Sample.uniform_between 1 (sample_self (Some 1%nat)) =
    Done r /\
    r_n_function_evaluations r = 2%nat /\
    ~ (r_n_function_evaluations r <= 1 + (n_individuals - 1))%nat.
Proof.
have [r [Hr Hn]] :=
  optimize_small_budget Sample.sphere Sample.time_time Sample.standard_normal
    Sample.uniform Sample.uniform_between 0
    (erefl : max_function_evaluations (base (sample_self (Some 1%nat))) =
             Some 1%nat) isT.
by exists r; split=> //; split; rewrite ?Hn.
Qed.

(** *** The further facts on the sample problem *)

Definition sample_exploring : srs 1 nat :=
  Srs (Sample.fresh None 1) (Some (const_mx 3)) (const_mx (-5)) (const_mx 5)
    (3 / 10) 1 (99 / 100) (1 / 100).

Lemma full_beta_witness :
  exists self' : srs 1 nat,
    iterate Sample.sphere Sample.standard_normal Sample.uniform
      sample_exploring (const_mx 3) =
    Some (((const_mx 3 : 'cV[R]_1) + (3 / 10)%Re *: (1 *: const_mx 1))%R,
          Sample.sphere ((const_mx 3 : 'cV[R]_1) + 1 *: const_mx 1)%R, self').
Proof.
exact: (full_beta_always_explores Sample.sphere Sample.standard_normal
          Sample.uniform_range (self := sample_exploring) (const_mx 3) erefl).
Defined.

Lemma srs_optimize_returns_witness :
  exists r : results 1,
    optimize Sample.sphere Sample.time_time Sample.standard_normal
      Sample.uniform Sample.uniform_between 4 (sample_self (Some 5%nat)) =
    Done r.
Proof.
exact: (srs_optimize_returns Sample.sphere Sample.time_time
          Sample.standard_normal Sample.uniform Sample.uniform_between
          (m := 5) (fuel := 4) (self := sample_self (Some 5%nat)) erefl isT isT).
Defined.

(** A run on the sample problem with a budget of two evaluations. *)

Lemma sample_run :
  exists r : results 1,
    optimize Sample.sphere Sample.time_time Sample.standard_normal
      Sample.uniform Sample.uniform_between 1 (sample_self (Some 2%nat)) =
    Done r.
Proof.
have [r [Hr _]] :=
  optimize_small_budget Sample.sphere Sample.time_time Sample.standard_normal
    Sample.uniform Sample.uniform_between 0
    (erefl : max_function_evaluations (base (sample_self (Some 2%nat))) =
             Some 2%nat) isT.
by exists r.
Qed.

Lemma srs_budget_is_met_exactly_witness :
  exists r : results 1,
    optimize Sample.sphere Sample.time_time Sample.standard_normal
      Sample.uniform Sample.uniform_between 1 (sample_self (Some 2%nat)) =
    Done r /\
    r_n_function_evaluations r = 2%nat /\
    r_termination_signal r = MAX_FUNCTION_EVALUATIONS.
Proof.
have [r Hr] := sample_run; exists r; split=> //.
exact: (srs_budget_is_met_exactly (m := 2) (self := sample_self (Some 2%nat))
          erefl erefl erefl Hr).
Defined.

Lemma srs_evaluations_and_generations_witness :
  exists r : results 1,
    optimize Sample.sphere Sample.time_time Sample.standard_normal
      Sample.uniform Sample.uniform_between 1 (sample_self (Some 2%nat)) =
    Done r /\
    (r_n_function_evaluations r + 0 = r_n_generations r + 2)%nat.
Proof.
have [r Hr] := sample_run; exists r; split=> //.
exact: (srs_evaluations_and_generations Hr).
Defined.

Lemma srs_fitness_record_witness :
  exists (st' : loop_state 1 nat) (tail : seq R),
    optimize_loop Sample.sphere Sample.time_time Sample.standard_normal
      Sample.uniform 1 (sample_start (Some 2%nat)) = Done st' /\
    st'.2 = Sample.sphere (const_mx 3) :: tail /\ size tail = 0%nat.
Proof.
have [st' Hst'] :=
  @optimize_loop_done 1 nat Sample.sphere Sample.time_time
    Sample.standard_normal Sample.uniform 1 2 (sample_start (Some 2%nat))
    erefl isT isT.
have [tail Htail] := srs_fitness_record Hst'.
by exists st', tail.
Defined.

End SRS.

(** ** [LMMAES]: limited-memory matrix adaptation (es/lmmaes.py) *)

Module LMMAES.

Import Optimizer.

Section LMMAES.

Variable N : nat.                       (* ndim_problem *)
Variable n_individuals : nat.
Variable n_evolution_paths : nat.       (* m in Algorithm 1 *)
Variable rng : Type.
Variable fitness_function : 'cV[R]_N -> R.
Variable time_time : nat -> R.

(** [Generator.standard_normal((N,))], [np.empty] (an array with whatever
    contents) and [np.argsort] (a permutation of the indices). *)

Variable standard_normal : rng -> 'cV[R]_N * rng.
Variable np_empty : forall a b : nat, 'M[R]_(a, b).
Variable argsort : 'cV[R]_n_individuals -> 'S_n_individuals.

(** The attributes of [self].  Those that [__init__] sets to [None] are
    options; [options_c_s] is [options.get('c_s')]. *)

Record lmmaes : Type := Lmmaes {
  base : optimizer N rng;
  n_parents : nat;
  _w : nat -> R;
  _mu_eff : R;
  options_c_s : option R;
  c_s : option R;
  _s_1 : option R;
  _s_2 : option R;
  _c_d : 'cV[R]_n_evolution_paths;
  _c_c : option 'cV[R]_n_evolution_paths
}.

Definition set_base (self : lmmaes) (b : optimizer N rng) : lmmaes :=
  Lmmaes b (n_parents self) (_w self) (_mu_eff self) (options_c_s self)
    (c_s self) (_s_1 self) (_s_2 self) (_c_d self) (_c_c self).

(** [ES._initialize_mean] and [ES.restart_initialize] are not among the
    sources: they are parameters of the model.  The first one draws a mean
    (section 4.3: it is "resampled within the initial bounds") and touches
    only what the base class owns. *)

Variable _initialize_mean : bool -> optimizer N rng -> 'cV[R]_N * optimizer N rng.
Variable ES_restart_initialize : lmmaes -> bool * lmmaes.

(** [LMMAES.__init__].  [ES.__init__] is not among the sources: the
    attributes it leaves on [self] are the first four arguments. *)

Definition __init__ (es : optimizer N rng) (parents : nat) (w : nat -> R)
    (mu_eff : R) (opt_c_s : option R) : lmmaes :=
  Lmmaes es parents w mu_eff opt_c_s None None None
    (\col_j (1 / (INR N * (3 / 2) ^ j))%Re)%R None.

(** The arrays that [initialize] returns: [z, d, mean, s, tm, y]. *)

Definition arrays : Type :=
  ('M[R]_(n_individuals, N) * 'M[R]_(n_individuals, N) * 'cV[R]_N *
   'cV[R]_N * 'M[R]_(n_evolution_paths, N) * 'cV[R]_n_individuals)%type.

Definition initialize (is_restart : bool) (self : lmmaes) : arrays * lmmaes :=
  let cs := odflt (2 * INR n_individuals / INR N) (options_c_s self) in
  let s_1 := 1 - cs in
  let s_1 := if Rltb s_1 0 then 1 / 2 else s_1 in
  let s_2 := _mu_eff self * cs * (2 - cs) in
  let s_2 := if Rltb s_2 0 then (1 / 2) ^ 2 else s_2 in
  let c_c := (\col_k (INR n_individuals / (INR N * 4 ^ k))%Re)%R in
  let self :=
    Lmmaes (base self) (n_parents self) (_w self) (_mu_eff self)
      (options_c_s self) (Some cs) (Some s_1) (Some (sqrt s_2))
      (_c_d self) (Some c_c) in
  let z := np_empty n_individuals N in
  let d := np_empty n_individuals N in
  let: (mean, b) := _initialize_mean is_restart (base self) in
  let self := set_base self b in
  let s := (0 : 'cV[R]_N)%R in
  let tm := (0 : 'M[R]_(n_evolution_paths, N))%R in
  let y := np_empty n_individuals 1 in
  ((z, d, mean, s, tm, y), self).

(** [np.dot] of two one-dimensional arrays. *)

Definition dot (u v : 'cV[R]_N) : R := (\sum_i u i ord0 * v i ord0)%R.

(** The state of the sampling loop: [self] and the arrays [z, d, y]. *)

Definition sample_state : Type :=
  (lmmaes * ('M[R]_(n_individuals, N) * 'M[R]_(n_individuals, N) *
             'cV[R]_n_individuals))%type.

Definition check (st : sample_state) : bool * sample_state :=
  let: (stop, b) := _check_terminations time_time (base st.1) in
  (stop, (set_base st.1 b, st.2)).

(** One pass of the inner loop over [j]: the new value of [d[k]]. *)

Definition blend (self : lmmaes) (tm : 'M[R]_(n_evolution_paths, N))
    (dk : 'cV[R]_N) (j : 'I_n_evolution_paths) : 'cV[R]_N :=
  ((1 - _c_d self j ord0) *: dk +
   dot (get_row tm j) dk *: (_c_d self j ord0 *: get_row tm j))%R.

(** The body of the loop over [k], after the termination check. *)

Definition candidate (mean : 'cV[R]_N) (tm : 'M[R]_(n_evolution_paths, N))
    (k : 'I_n_individuals) (st : sample_state) : sample_state :=
  let: (self, (z, d, y)) := st in
  let: (zk, g) := standard_normal (rng_optimization (base self)) in
  let self := set_base self (set_rng_optimization (base self) g) in
  let z := set_row z k zk in
  let d := set_row d k (get_row z k) in
  let d :=
    foldl (fun d j => set_row d k (blend self tm (get_row d k) j)) d
      (take (minn (_n_generations (base self)) n_evolution_paths)
         (enum 'I_n_evolution_paths)) in
  let: (yk, b) :=
    _evaluate_fitness fitness_function (base self)
      (mean + sigma (base self) *: get_row d k)%R in
  (set_base self b, (z, d, set_item y k yk)).

Definition iterate_from (self : lmmaes) (z d : 'M[R]_(n_individuals, N))
    (mean : 'cV[R]_N) (tm : 'M[R]_(n_evolution_paths, N))
    (y : 'cV[R]_n_individuals) : option 'I_n_individuals * sample_state :=
  sampling check (candidate mean tm) (enum 'I_n_individuals) (self, (z, d, y)).

Definition iterate (self : lmmaes) (z d : 'M[R]_(n_individuals, N))
    (mean : 'cV[R]_N) (tm : 'M[R]_(n_evolution_paths, N))
    (y : 'cV[R]_n_individuals) : sample_state :=
  (iterate_from self z d mean tm y).2.

(** The recombination loop [for k in range(self.n_parents)]: [None] where
    [order[k]] raises an IndexError. *)

Definition recombine_step (self : lmmaes) (order : 'S_n_individuals)
    (z d : 'M[R]_(n_individuals, N)) (acc : option ('cV[R]_N * 'cV[R]_N))
    (k : nat) : option ('cV[R]_N * 'cV[R]_N) :=
  if acc is Some (d_w, z_w) then
    if insub k is Some i then
      Some ((d_w + _w self k *: get_row d (order i))%R,
            (z_w + _w self k *: get_row z (order i))%R)
    else None
  else None.

Definition recombine (self : lmmaes) (order : 'S_n_individuals)
    (z d : 'M[R]_(n_individuals, N)) : option ('cV[R]_N * 'cV[R]_N) :=
  foldl (recombine_step self order z d) (Some (0, 0)%R)
    (iota 0 (n_parents self)).

(** One pass of the rank-m loop over [k]. *)

Definition update_path (self : lmmaes) (c_c : 'cV[R]_n_evolution_paths)
    (z_w : 'cV[R]_N) (tm : 'M[R]_(n_evolution_paths, N))
    (k : 'I_n_evolution_paths) : 'M[R]_(n_evolution_paths, N) :=
  let tm_1 := 1 - c_c k ord0 in
  let tm_1 := if Rltb tm_1 0 then 1 / 2 else tm_1 in
  let tm_2 := _mu_eff self * c_c k ord0 * (2 - c_c k ord0) in
  let tm_2 := if Rltb tm_2 0 then (1 / 2) ^ 2 else tm_2 in
  set_row tm k (tm_1 *: get_row tm k + sqrt tm_2 *: z_w)%R.

(** [np.sum(np.power(s, 2))]. *)

Definition sum_of_squares (s : 'cV[R]_N) : R := (\sum_i s i ord0 ^ 2)%R.

(** [_update_distribution] returns [None] where Python raises: an index
    past the population, or arithmetic on an attribute that is still [None].
    The attributes are read in the order of the method: [_s_1] and [_s_2]
    for the evolution path, [_c_c] inside the rank-m loop only (so not at
    all when there is no direction vector), [c_s] for the step-size. *)

Definition _update_distribution (self : lmmaes)
    (z d : 'M[R]_(n_individuals, N)) (mean s : 'cV[R]_N)
    (tm : 'M[R]_(n_evolution_paths, N)) (y : 'cV[R]_n_individuals) :
    option ('cV[R]_N * 'cV[R]_N * 'M[R]_(n_evolution_paths, N) * lmmaes) :=
  let order := argsort y in
  if recombine self order z d is Some (d_w, z_w) then
    let mean := (mean + sigma (base self) *: d_w)%R in
    if (_s_1 self, _s_2 self) is (Some s_1, Some s_2) then
      let s := (s_1 *: s + s_2 *: z_w)%R in
      let tm :=
        if _c_c self is Some c_c
        then Some (foldl (update_path self c_c z_w) tm
                     (enum 'I_n_evolution_paths))
        else if (n_evolution_paths == 0)%nat then Some tm else None in
      if (tm, c_s self) is (Some tm, Some cs) then
        let self :=
          set_base self
            (set_sigma (base self)
               (sigma (base self) *
                exp (cs / 2 * (sum_of_squares s / INR N - 1)))) in
        Some (mean, s, tm, self)
      else None
    else None
  else None.

(** The variables of the [while True] loop of [optimize]. *)

Record loop_state : Type := LoopState {
  self_of : lmmaes;
  z_of : 'M[R]_(n_individuals, N);
  d_of : 'M[R]_(n_individuals, N);
  mean_of : 'cV[R]_N;
  s_of : 'cV[R]_N;
  tm_of : 'M[R]_(n_evolution_paths, N);
  y_of : 'cV[R]_n_individuals;
  fitness_of : seq R
}.

Definition restart_initialize (self : lmmaes) (a : arrays) : arrays * lmmaes :=
  let: (restart, self) := ES_restart_initialize self in
  if restart then initialize true self else (a, self).

(** [fitness.extend(y)]. *)

Definition extend (fitness : seq R) (y : 'cV[R]_n_individuals) : seq R :=
  fitness ++ [seq y i ord0 | i <- enum 'I_n_individuals].

(** One pass through the body of the loop: [Some (true, _)] when it left by
    [break], [None] when it raised. *)

Definition generation (st : loop_state) : option (bool * loop_state) :=
  let: (self, (z, d, y)) :=
    iterate (self_of st) (z_of st) (d_of st) (mean_of st) (tm_of st) (y_of st) in
  let fitness :=
    if record_fitness (base self) then extend (fitness_of st) y
    else fitness_of st in
  let: (stop, b) := _check_terminations time_time (base self) in
  let self := set_base self b in
  if stop
  then Some (true, LoopState self z d (mean_of st) (s_of st) (tm_of st) y fitness)
  else
    if _update_distribution self z d (mean_of st) (s_of st) (tm_of st) y
      is Some (mean, s, tm, self) then
      let self :=
        set_base self
          (set_n_generations (base self) (_n_generations (base self)).+1) in
      let: ((z, d, mean, s, tm, y), self) :=
        restart_initialize self (z, d, mean, s, tm, y) in
      Some (false, LoopState self z d mean s tm y fitness)
    else None.

Fixpoint optimize_loop (fuel : nat) (st : loop_state) : run loop_state :=
  if fuel is fuel'.+1 then
    match generation st with
    | Some (true, st') => Done st'
    | Some (false, st') => optimize_loop fuel' st'
    | None => Raised
    end
  else OutOfFuel.

(** The lines of [optimize] before the loop.  [ES.optimize] is not among
    the sources: it is taken to be [Optimizer.optimize]. *)

Definition start (self : lmmaes) : loop_state :=
  let: (fitness, b) := Optimizer.optimize time_time (base self) in
  let: ((z, d, mean, s, tm, y), self) := initialize false (set_base self b) in
  LoopState self z d mean s tm y fitness.

(** The dictionary that [optimize] returns: the common results and the
    keys ['mean'], ['s'] and ['tm']. *)

Record lmmaes_results : Type := LmmaesResults {
  common : results N;
  r_mean : 'cV[R]_N;
  r_s : 'cV[R]_N;
  r_tm : 'M[R]_(n_evolution_paths, N)
}.

Definition optimize (fuel : nat) (self : lmmaes) : run lmmaes_results :=
  match optimize_loop fuel (start self) with
  | Done st =>
      Done (LmmaesResults
              (_collect_results (base (self_of st)) (fitness_of st))
              (mean_of st) (s_of st) (tm_of st))
  | Raised => Raised
  | OutOfFuel => OutOfFuel
  end.

(** *** Facts about [LMMAES] *)

Implicit Types (self : lmmaes) (st : loop_state).

(** [initialize] has run: the attributes that [__init__] left at [None]
    are set. *)

Definition initialized self : bool :=
  [&& c_s self, _s_1 self, _s_2 self & _c_c self].

Lemma initialize_eq (is_restart : bool) self :
  let cs := odflt (2 * INR n_individuals / INR N) (options_c_s self) in
  let var := _mu_eff self * cs * (2 - cs) in
  let self' := (initialize is_restart self).2 in
  [/\ c_s self' = Some cs,
      _s_1 self' = Some (if Rltb (1 - cs) 0 then 1 / 2 else 1 - cs),
      _s_2 self' = Some (sqrt (if Rltb var 0 then (1 / 2) ^ 2 else var)),
      _c_c self' =
      Some (\col_k (INR n_individuals / (INR N * 4 ^ k))%Re)%R &
      [/\ n_parents self' = n_parents self, _w self' = _w self,
          _mu_eff self' = _mu_eff self & _c_d self' = _c_d self]].
Proof. by rewrite /initialize; case: (_initialize_mean _ _) => mean b. Qed.

Lemma initialize_initialized (is_restart : bool) self :
  initialized (initialize is_restart self).2.
Proof.
by have [Hc H1 H2 Hcc _] := initialize_eq is_restart self;
  rewrite /initialized Hc H1 H2 Hcc.
Qed.

(** The recombination loop completes when the parents fit in the
    population. *)

Lemma recombine_some self (order : 'S_n_individuals)
    (z d : 'M[R]_(n_individuals, N)) :
  (n_parents self <= n_individuals)%nat ->
  exists dz : 'cV[R]_N * 'cV[R]_N, recombine self order z d = Some dz.
Proof.
move=> Hle; rewrite /recombine.
have loop (p a : nat) (acc : option ('cV[R]_N * 'cV[R]_N)) :
    (a + p <= n_individuals)%nat -> (exists dz, acc = Some dz) ->
    exists dz, foldl (recombine_step self order z d) acc (iota a p) = Some dz.
  elim: p a acc => [|p IH] a acc Hap [[d_w z_w] ->] /=; first by eexists.
  have Ha : (a < n_individuals)%nat.
    by apply: leq_trans Hap; rewrite addnS ltnS leq_addr.
  rewrite (insubT (fun i => (i < n_individuals)%nat) Ha).
  by apply: IH; [rewrite addSnnS | eexists].
by apply: loop; [rewrite add0n | eexists].
Qed.

(** [_update_distribution] on an initialized object whose parents fit in
    the population. *)

Lemma update_distribution_eq self (z d : 'M[R]_(n_individuals, N))
    (mean s : 'cV[R]_N) (tm : 'M[R]_(n_evolution_paths, N))
    (y : 'cV[R]_n_individuals) :
  initialized self -> (n_parents self <= n_individuals)%nat ->
  exists (d_w z_w : 'cV[R]_N) (cs s_1 s_2 : R)
         (c_c : 'cV[R]_n_evolution_paths),
    [/\ recombine self (argsort y) z d = Some (d_w, z_w),
        [/\ c_s self = Some cs, _s_1 self = Some s_1, _s_2 self = Some s_2 &
            _c_c self = Some c_c] &
        _update_distribution self z d mean s tm y =
        Some ((mean + sigma (base self) *: d_w)%R,
              (s_1 *: s + s_2 *: z_w)%R,
              foldl (update_path self c_c z_w) tm (enum 'I_n_evolution_paths),
              set_base self
                (set_sigma (base self)
                   (sigma (base self) *
                    exp (cs / 2 *
                         (sum_of_squares (s_1 *: s + s_2 *: z_w)%R / INR N - 1)))))].
Proof.
rewrite /initialized /_update_distribution => /and4P[Hc H1 H2 Hcc] Hle.
have [[d_w z_w] ->] := recombine_some (argsort y) z d Hle.
case: (c_s self) Hc => // cs _; case: (_s_1 self) H1 => // s_1 _.
case: (_s_2 self) H2 => // s_2 _; case: (_c_c self) Hcc => // c_c _.
by exists d_w, z_w, cs, s_1, s_2, c_c.
Qed.

(** After the rank-m loop, row [k] of [tm] is the blend that
    [update_path] computes from the old row [k]. *)

Lemma update_path_row self (c_c : 'cV[R]_n_evolution_paths) (z_w : 'cV[R]_N)
    (tm : 'M[R]_(n_evolution_paths, N)) (k : 'I_n_evolution_paths) :
  get_row (foldl (update_path self c_c z_w) tm (enum 'I_n_evolution_paths)) k =
  get_row (update_path self c_c z_w tm k) k.
Proof.
pose F (k : 'I_n_evolution_paths) (r : 'cV[R]_N) : 'cV[R]_N :=
  ((if Rltb (1 - c_c k ord0) 0 then 1 / 2 else 1 - c_c k ord0)%Re *: r +
   sqrt (if Rltb (_mu_eff self * c_c k ord0 * (2 - c_c k ord0)) 0
         then (1 / 2) ^ 2
         else _mu_eff self * c_c k ord0 * (2 - c_c k ord0))%Re *: z_w)%R.
have -> : update_path self c_c z_w =
          fun m k => set_row m k (F k (get_row m k)) by [].
by rewrite get_row_foldl ?enum_uniq // mem_enum get_row_set_row eqxx.
Qed.

(** C4.  On an initialized object whose parents fit in the population,
    [_update_distribution] returns, and it multiplies [sigma] by exactly
    [exp (c_s / 2 * (sum (s' ^ 2) / N - 1))], where [s'] is the evolution
    path it returns: the old path after this generation's exponential
    smoothing, [_s_1 * s + _s_2 * z_w]. *)

Theorem update_multiplies_sigma self (z d : 'M[R]_(n_individuals, N))
    (mean s : 'cV[R]_N) (tm : 'M[R]_(n_evolution_paths, N))
    (y : 'cV[R]_n_individuals) :
  initialized self -> (n_parents self <= n_individuals)%nat ->
  exists (mean' s' z_w : 'cV[R]_N) (tm' : 'M[R]_(n_evolution_paths, N))
         (self' : lmmaes) (cs s_1 s_2 : R),
    [/\ _update_distribution self z d mean s tm y = Some (mean', s', tm', self'),
        [/\ c_s self = Some cs, _s_1 self = Some s_1 & _s_2 self = Some s_2],
        s' = (s_1 *: s + s_2 *: z_w)%R &
        sigma (base self') =
        sigma (base self) * exp (cs / 2 * (sum_of_squares s' / INR N - 1))].
Proof.
move=> Hinit Hle.
have [d_w [z_w [cs [s_1 [s_2 [c_c [_ [Hc H1 H2 _] ->]]]]]]] :=
  update_distribution_eq z d mean s tm y Hinit Hle.
by exists (mean + sigma (base self) *: d_w)%R, (s_1 *: s + s_2 *: z_w)%R, z_w;
  eexists; eexists; exists cs, s_1, s_2; split.
Qed.

(** What [initialize] and [_update_distribution] compute together, on an
    object whose parents fit in the population: the mean moves along the
    recombined direction [d_w], the evolution path and every row of [tm] are
    smoothed towards the recombined draw [z_w] with the coefficients of
    lines 32-39 and 71-76. *)

Lemma update_after_initialize (is_restart : bool) self0
    (z d : 'M[R]_(n_individuals, N)) (mean s : 'cV[R]_N)
    (tm : 'M[R]_(n_evolution_paths, N)) (y : 'cV[R]_n_individuals) :
  (n_parents self0 <= n_individuals)%nat ->
  let self := (initialize is_restart self0).2 in
  let cs := odflt (2 * INR n_individuals / INR N) (options_c_s self0) in
  let c_c (k : nat) := INR n_individuals / (INR N * 4 ^ k) in
  let var (c : R) := _mu_eff self0 * c * (2 - c) in
  let keep (c : R) := if Rltb (1 - c) 0 then 1 / 2 else 1 - c in
  let spread (c : R) := sqrt (if Rltb (var c) 0 then (1 / 2) ^ 2 else var c) in
  exists (d_w z_w : 'cV[R]_N) (tm' : 'M[R]_(n_evolution_paths, N))
         (self' : lmmaes),
    [/\ recombine self (argsort y) z d = Some (d_w, z_w),
        _s_1 self = Some (keep cs) /\ _s_2 self = Some (spread cs),
        _update_distribution self z d mean s tm y =
        Some ((mean + sigma (base self) *: d_w)%R,
              (keep cs *: s + spread cs *: z_w)%R, tm', self') &
        forall k : 'I_n_evolution_paths,
          get_row tm' k =
          (keep (c_c k) *: get_row tm k + spread (c_c k) *: z_w)%R].
Proof.
move=> Hle self cs c_c var keep spread.
have [Hc H1 H2 Hcc [Hp _ Hmu _]] := initialize_eq is_restart self0.
have Hle' : (n_parents self <= n_individuals)%nat by rewrite /self Hp.
have [d_w [z_w [cs' [s_1 [s_2 [cc [Hrec [_ H1' H2' Hcc'] Hupd]]]]]]] :=
  update_distribution_eq z d mean s tm y
    (initialize_initialized is_restart self0) Hle'.
move: H1' H2' Hcc' Hupd; rewrite -/self in H1 H2 Hcc Hmu *.
rewrite H1 H2 {}Hcc => -[<-] [<-] [<-] Hupd.
exists d_w, z_w; eexists; eexists; split=> //; first exact: Hupd.
move=> k; rewrite update_path_row /update_path get_row_set_row eqxx.
by rewrite !mxE Hmu.
Qed.

(** C6.  After [initialize], with [c_s] the option or its default
    [2 * n_individuals / N] and [c_c[k] = n_individuals / (N * 4 ^ k)],
    [_update_distribution] returns the evolution path
    [_s_1 * s + _s_2 * z_w] and the rows [t_1 * tm[k] + sqrt (t_2) * z_w],
    for [z_w] the recombined draw and [_s_1], [_s_2] the attributes of
    [self].  When [1 - c_s < 0] the retention coefficient [_s_1] is 0.5, and
    when [1 - c_c[k] < 0] so is [t_1] for row [k]; when the variance term
    [mu_eff * c * (2 - c)] is negative, for [c_s] or for [c_c[k]], the square
    root is taken of [0.5 ^ 2] instead.  Otherwise the coefficients are
    [1 - c] and the variance term itself. *)

Theorem negative_coefficients_fall_back (is_restart : bool) self0
    (z d : 'M[R]_(n_individuals, N)) (mean s : 'cV[R]_N)
    (tm : 'M[R]_(n_evolution_paths, N)) (y : 'cV[R]_n_individuals) :
  (n_parents self0 <= n_individuals)%nat ->
  let self := (initialize is_restart self0).2 in
  let cs := odflt (2 * INR n_individuals / INR N) (options_c_s self0) in
  let c_c (k : nat) := INR n_individuals / (INR N * 4 ^ k) in
  let var (c : R) := _mu_eff self0 * c * (2 - c) in
  exists (d_w z_w : 'cV[R]_N) (s_1 s_2 : R)
         (tm' : 'M[R]_(n_evolution_paths, N)) (self' : lmmaes),
    [/\ [/\ recombine self (argsort y) z d = Some (d_w, z_w),
            _s_1 self = Some s_1 & _s_2 self = Some s_2],
        _update_distribution self z d mean s tm y =
        Some ((mean + sigma (base self) *: d_w)%R,
              (s_1 *: s + s_2 *: z_w)%R, tm', self'),
        [/\ 1 - cs < 0 -> s_1 = 1 / 2,
            0 <= 1 - cs -> s_1 = 1 - cs,
            var cs < 0 -> s_2 = sqrt ((1 / 2) ^ 2) &
            0 <= var cs -> s_2 = sqrt (var cs)] &
        forall k : 'I_n_evolution_paths,
          exists t_1 t_2 : R,
            [/\ get_row tm' k = (t_1 *: get_row tm k + sqrt t_2 *: z_w)%R,
                (1 - c_c k < 0 -> t_1 = 1 / 2) /\
                (0 <= 1 - c_c k -> t_1 = 1 - c_c k) &
                (var (c_c k) < 0 -> t_2 = (1 / 2) ^ 2) /\
                (0 <= var (c_c k) -> t_2 = var (c_c k))]].
Proof.
move=> Hle self cs c_c var.
have [d_w [z_w [tm' [self' [Hrec [H1 H2] Hupd Hrows]]]]] :=
  update_after_initialize is_restart z d mean s tm y Hle.
exists d_w, z_w; eexists; eexists; exists tm', self'; split.
- by split; [exact: Hrec | exact: H1 | exact: H2].
- exact: Hupd.
- by rewrite -/cs -/(var cs); split; do 2?case: RltbP => //; lra.
move=> k; eexists; eexists; split; first exact: Hrows.
  by rewrite -/(c_c k); split; case: RltbP => //; lra.
by rewrite -/(c_c k) -/(var (c_c k)); split; case: RltbP => //; lra.
Qed.

(** *** The sampling loop of [LMMAES.iterate] *)

Definition evals self : nat := n_function_evaluations (base self).

Definition budget self : option nat := max_function_evaluations (base self).

Lemma check_frame (st : sample_state) :
  [/\ evals (check st).2.1 = evals st.1,
      budget (check st).2.1 = budget st.1,
      sigma (base (check st).2.1) = sigma (base st.1),
      (check st).2.2 = st.2 &
      (check st).1 = (_check_terminations time_time (base st.1)).1].
Proof.
rewrite /check /evals /budget.
have [Hm Hn Hs _ _] := check_terminations_frame time_time (base st.1).
by case: (_check_terminations _ _) Hm Hn Hs => stop b /= Hm Hn Hs.
Qed.

Lemma candidate_frame (mean : 'cV[R]_N) (tm : 'M[R]_(n_evolution_paths, N))
    (k : 'I_n_individuals) (st : sample_state) :
  [/\ evals (candidate mean tm k st).1 = (evals st.1).+1,
      budget (candidate mean tm k st).1 = budget st.1 &
      sigma (base (candidate mean tm k st).1) = sigma (base st.1)].
Proof.
case: st => self [[z d] y]; rewrite /candidate /evals /budget.
case: (standard_normal _) => zk g; cbv beta iota zeta.
set ev := _evaluate_fitness _ _ _.
have Hn : n_function_evaluations ev.2 = (n_function_evaluations (base self)).+1.
  by [].
have Hm : max_function_evaluations ev.2 = max_function_evaluations (base self).
  by [].
have Hs : sigma ev.2 = sigma (base self) by [].
by case: ev Hn Hm Hs => yk b /= Hn Hm Hs.
Qed.

Section Iterate.

Variables (self : lmmaes) (z d : 'M[R]_(n_individuals, N)).
Variables (mean : 'cV[R]_N) (tm : 'M[R]_(n_evolution_paths, N)).
Variable y : 'cV[R]_n_individuals.

Lemma iterate_sigma :
  sigma (base (iterate self z d mean tm y).1) = sigma (base self).
Proof.
rewrite /iterate /iterate_from.
apply: (sampling_inv
  (P := fun ss : sample_state => sigma (base ss.1) = sigma (base self))) => //.
move=> k st <- _; have [_ _ ->] := candidate_frame mean tm k (check st).2.
by have [_ _ ->] := check_frame st.
Qed.

Lemma iterate_budget (m n0 : nat) :
  budget self = Some m -> (evals self <= maxn m n0)%nat ->
  budget (iterate self z d mean tm y).1 = Some m /\
  (evals (iterate self z d mean tm y).1 <= maxn m n0)%nat.
Proof.
move=> Hm Hn; rewrite /iterate /iterate_from.
apply: (sampling_inv
  (P := fun ss : sample_state =>
          budget ss.1 = Some m /\ (evals ss.1 <= maxn m n0)%nat)) => //.
move=> k st [Hb He] Hstop.
have [-> -> _] := candidate_frame mean tm k (check st).2.
have [-> -> _ _ Hc] := check_frame st; split=> //.
apply: leq_trans (leq_maxl _ _); rewrite Hc in Hstop.
exact: check_terminations_budget Hb Hstop.
Qed.

(** An early return: the candidates from [k] on were not evaluated, and
    the termination check fires again in [optimize]. *)

Lemma iterate_early (k : 'I_n_individuals) :
  (forall i j : nat, (i <= j)%nat -> time_time i <= time_time j) ->
  (iterate_from self z d mean tm y).1 = Some k ->
  evals (iterate self z d mean tm y).1 = (evals self + k)%nat /\
  (_check_terminations time_time (base (iterate self z d mean tm y).1)).1.
Proof.
move=> Hmono; rewrite /iterate /iterate_from => Hk; split.
  rewrite (sampling_count (count := fun ss : sample_state => evals ss.1))
    ?enum_uniq //.
  - by move=> i st; have [->] := candidate_frame mean tm i st.
  - by rewrite /sampled Hk index_enum_ord.
have [st0 [Hfired Hst0]] := sampling_early Hk.
rewrite Hst0.
have [_ _ _ _ Hc] := check_frame st0; rewrite Hc in Hfired.
have -> : base (check st0).2.1 = (_check_terminations time_time (base st0.1)).2.
  by rewrite /check; case: (_check_terminations _ _).
exact: check_terminations_stable.
Qed.

End Iterate.

(** *** One generation of [LMMAES.optimize] *)

(** When the sampling loop returned early, [optimize] leaves by [break]:
    the distribution is the one the generation started with. *)

Lemma lmmaes_generation_early st (k : 'I_n_individuals) :
  (forall i j : nat, (i <= j)%nat -> time_time i <= time_time j) ->
  (iterate_from (self_of st) (z_of st) (d_of st) (mean_of st) (tm_of st)
     (y_of st)).1 = Some k ->
  exists st' : loop_state,
    [/\ generation st = Some (true, st'),
        evals (self_of st') = (evals (self_of st) + k)%nat,
        [/\ mean_of st' = mean_of st, s_of st' = s_of st &
            tm_of st' = tm_of st] &
        sigma (base (self_of st')) = sigma (base (self_of st))].
Proof.
move=> Hmono Hk; rewrite /generation.
have [Hn Hfire] := iterate_early Hmono Hk.
have := iterate_sigma (self_of st) (z_of st) (d_of st) (mean_of st)
  (tm_of st) (y_of st).
case: (iterate _ _ _ _ _ _) Hn Hfire => self1 [[z1 d1] y1] /= Hn Hfire Hs.
have [_ Hnc Hsc _ _] := check_terminations_frame time_time (base self1).
case: (_check_terminations _ _) Hfire Hnc Hsc => stop b /= -> Hnc Hsc.
by eexists; split; first by []; rewrite /evals /= ?Hnc ?Hsc.
Qed.

(** [ES._initialize_mean] and [ES.restart_initialize] neither evaluate the
    fitness function nor change the budget (section 4.3: "Evaluation/
    generation counters are NOT reset -- restarts consume the same global
    budget"). *)

Hypothesis initialize_mean_keeps :
  forall (is_restart : bool) (b : optimizer N rng),
    n_function_evaluations (_initialize_mean is_restart b).2 =
    n_function_evaluations b /\
    max_function_evaluations (_initialize_mean is_restart b).2 =
    max_function_evaluations b.

Hypothesis restart_keeps :
  forall self : lmmaes,
    evals (ES_restart_initialize self).2 = evals self /\
    budget (ES_restart_initialize self).2 = budget self.

(** The budget is known and the counter is within [max m n0]. *)

Definition within_budget (m n0 : nat) self : Prop :=
  budget self = Some m /\ (evals self <= maxn m n0)%nat.

Lemma initialize_budget (is_restart : bool) self :
  evals (initialize is_restart self).2 = evals self /\
  budget (initialize is_restart self).2 = budget self.
Proof.
rewrite /initialize /evals /budget /=.
have := initialize_mean_keeps is_restart (base self).
by case: (_initialize_mean _ _) => mean b.
Qed.

Lemma update_distribution_budget self (z d : 'M[R]_(n_individuals, N))
    (mean s : 'cV[R]_N) (tm : 'M[R]_(n_evolution_paths, N))
    (y : 'cV[R]_n_individuals) r :
  _update_distribution self z d mean s tm y = Some r ->
  evals r.2 = evals self /\ budget r.2 = budget self.
Proof.
rewrite /_update_distribution; case: (recombine _ _ _ _) => // -[d_w z_w].
case: (_s_1 self) => // s_1; case: (_s_2 self) => // s_2.
by case: (_c_c self) => [c_c|]; [|case: (_ == _) => //];
  case: (c_s self) => // cs [<-].
Qed.

Lemma lmmaes_generation_budget (m n0 : nat) st (stop : bool) st' :
  within_budget m n0 (self_of st) ->
  generation st = Some (stop, st') ->
  within_budget m n0 (self_of st').
Proof.
rewrite /within_budget => -[Hm Hn]; rewrite /generation.
have := iterate_budget (z_of st) (d_of st) (mean_of st) (tm_of st) (y_of st)
  Hm Hn.
case: (iterate _ _ _ _ _ _) => self1 [[z1 d1] y1]; unlet => -[Hm1 Hn1].
have [Hmc Hnc _ _ _] := check_terminations_frame time_time (base self1).
case: (_check_terminations _ _) Hmc Hnc => -[] b /= Hmc Hnc.
  by case=> _ <-; split; rewrite /budget /evals /= ?Hmc ?Hnc.
set self2 := set_base self1 b.
case Hupd: (_update_distribution _ _ _ _ _ _ _) => [[[[mean s] tm] self3]|] //.
have [/= Hn3 Hm3] := update_distribution_budget Hupd.
rewrite /restart_initialize; set self4 := set_base self3 _.
have [Hn5 Hm5] := restart_keeps self4.
case: (ES_restart_initialize self4) Hn5 Hm5 => -[] self5 /= Hn5 Hm5.
  have [] := initialize_budget true self5.
  case: (initialize true self5) => [[[[[[z6 d6] mean6] s6] tm6] y6] self6] /=.
  move=> Hn6 Hm6 [_ <-]; split; rewrite /= ?Hm6 ?Hn6 ?Hm5 ?Hn5.
    by rewrite /budget /= -/(budget self3) Hm3 /budget /= Hmc.
  by rewrite /evals /= -/(evals self3) Hn3 /evals /= Hnc.
case=> _ <-; split; rewrite /= ?Hm5 ?Hn5.
  by rewrite /budget /= -/(budget self3) Hm3 /budget /= Hmc.
by rewrite /evals /= -/(evals self3) Hn3 /evals /= Hnc.
Qed.

Lemma lmmaes_loop_budget (m n0 fuel : nat) st st' :
  within_budget m n0 (self_of st) ->
  optimize_loop fuel st = Done st' ->
  within_budget m n0 (self_of st').
Proof.
elim: fuel st => [|fuel IH] st //= Hst.
case Hgen: (generation st) => [[[] st1]|] //.
  by case=> <-; exact: lmmaes_generation_budget Hst Hgen.
by apply: IH; exact: lmmaes_generation_budget Hst Hgen.
Qed.

(** Every candidate evaluation of [LMMAES] follows a termination check that
    did not fire: the evaluation counter of a result never exceeds the
    budget it started within. *)

Lemma lmmaes_optimize_budget (m fuel : nat) self (r : lmmaes_results) :
  budget self = Some m ->
  optimize fuel self = Done r ->
  (r_n_function_evaluations (common r) <= maxn m (evals self))%nat.
Proof.
move=> Hm; rewrite /optimize.
case Hloop: (optimize_loop fuel (start self)) => [st'| |] // [<-] /=.
have Hstart : within_budget m (evals self) (self_of (start self)).
  rewrite /start /=.
  have [] := initialize_budget false
    (set_base self (Optimizer.optimize time_time (base self)).2).
  case: (initialize _ _) => [[[[[[z0 d0] mean0] s0] tm0] y0] self0] /= Hn0 Hm0.
  by split; rewrite /= ?Hm0 ?Hn0 // /evals /= leq_maxr.
by have := lmmaes_loop_budget Hstart Hloop; rewrite /within_budget => -[].
Qed.

(** *** What [iterate] leaves in the arrays *)

(** Row [k] of [z], row [k] of [d] and entry [k] of [y]. *)

Definition rows_at (st : sample_state) (k : 'I_n_individuals) :
    'cV[R]_N * 'cV[R]_N * R :=
  (get_row st.2.1.1 k, get_row st.2.1.2 k, st.2.2 k ord0).

(** The indices [j] of the inner loop,
    [range(np.minimum(self._n_generations, self.n_evolution_paths))]. *)

Definition directions self : seq 'I_n_evolution_paths :=
  take (minn (_n_generations (base self)) n_evolution_paths)
    (enum 'I_n_evolution_paths).

(** What the sampling loop reads from [self] and never writes. *)

Definition sampling_frame self (st : sample_state) : Prop :=
  [/\ sigma (base st.1) = sigma (base self),
      _n_generations (base st.1) = _n_generations (base self),
      record_fitness (base st.1) = record_fitness (base self) &
      _c_d st.1 = _c_d self].

Lemma check_keeps self (st : sample_state) :
  sampling_frame self st -> sampling_frame self (check st).2.
Proof.
case=> Hs Hg Hr Hc; rewrite /check /sampling_frame.
set ck := _check_terminations _ _.
have : [/\ sigma ck.2 = sigma (base st.1),
           _n_generations ck.2 = _n_generations (base st.1) &
           record_fitness ck.2 = record_fitness (base st.1)] by [].
by case: ck => stop b /= [-> -> ->].
Qed.

Lemma candidate_keeps self (mean : 'cV[R]_N)
    (tm : 'M[R]_(n_evolution_paths, N)) (k : 'I_n_individuals)
    (st : sample_state) :
  sampling_frame self st -> sampling_frame self (candidate mean tm k st).
Proof.
case: st => self1 [[z d] y] H.
have {H} [Hs Hg Hr Hc] :
    [/\ sigma (base self1) = sigma (base self),
        _n_generations (base self1) = _n_generations (base self),
        record_fitness (base self1) = record_fitness (base self) &
        _c_d self1 = _c_d self] := H.
rewrite /candidate /sampling_frame.
case: (standard_normal _) => zk g; cbv beta iota zeta.
set ev := _evaluate_fitness _ _ _.
have : [/\ sigma ev.2 = sigma (base self1),
           _n_generations ev.2 = _n_generations (base self1) &
           record_fitness ev.2 = record_fitness (base self1)] by [].
by case: ev => yk b /= [-> -> ->].
Qed.

Lemma candidate_rows (mean : 'cV[R]_N) (tm : 'M[R]_(n_evolution_paths, N))
    (k : 'I_n_individuals) (st : sample_state) :
  let zk := (standard_normal (rng_optimization (base st.1))).1 in
  let dk := foldl (blend st.1 tm) zk (directions st.1) in
  rows_at (candidate mean tm k st) k =
  (zk, dk, fitness_function (mean + sigma (base st.1) *: dk)%R) /\
  forall i, i != k -> rows_at (candidate mean tm k st) i = rows_at st i.
Proof.
case: st => self1 [[z d] y]; rewrite /candidate /rows_at /directions.
case: (standard_normal _) => zk g; cbv beta iota zeta.
set ev := _evaluate_fitness _ _ _.
have Hy : ev.1 = _ := evaluate_fitness_value _ _ _.
case: ev Hy => yk b /= ->.
rewrite !get_row_fold_one !get_row_set_row !set_item_at !eqxx; split=> //.
by move=> i /negbTE Hik; rewrite !get_row_fold_one !get_row_set_row set_item_at Hik.
Qed.

Lemma check_rows (st : sample_state) (i : 'I_n_individuals) :
  rows_at (check st).2 i = rows_at st i.
Proof. by rewrite /rows_at; have [_ _ _ ->] := check_frame st. Qed.

(** What [iterate] establishes in row [k] when it gets to it. *)

Definition sampled_row self (mean : 'cV[R]_N)
    (tm : 'M[R]_(n_evolution_paths, N)) (r : 'cV[R]_N * 'cV[R]_N * R) : Prop :=
  r.1.2 = foldl (blend self tm) r.1.1 (directions self) /\
  r.2 = fitness_function (mean + sigma (base self) *: r.1.2)%R.

Lemma blend_frame self self' : _c_d self' = _c_d self -> blend self' = blend self.
Proof. by rewrite /blend => ->. Qed.

Lemma iterate_rows self (z d : 'M[R]_(n_individuals, N)) (mean : 'cV[R]_N)
    (tm : 'M[R]_(n_evolution_paths, N)) (y : 'cV[R]_n_individuals) :
  let r := iterate_from self z d mean tm y in
  [/\ sampling_frame self r.2,
      r.1 = None -> forall i, sampled_row self mean tm (rows_at r.2 i) &
      forall k : 'I_n_individuals, r.1 = Some k ->
      forall i : 'I_n_individuals,
        ((k <= i)%nat -> rows_at r.2 i = rows_at (self, (z, d, y)) i) /\
        ((i < k)%nat -> sampled_row self mean tm (rows_at r.2 i))].
Proof.
rewrite /iterate_from.
have [] := @sampling_rows _ _ check (candidate mean tm) _ rows_at
    (sampling_frame self) (fun _ => sampled_row self mean tm)
    check_rows (@check_keeps self)
    (fun k (ss : sample_state) i Hik => (candidate_rows mean tm k ss).2 i Hik)
    (@candidate_keeps self mean tm) _
    (enum 'I_n_individuals) (self, (z, d, y)) (enum_uniq _).
- move=> k st [Hs Hg _ Hc]; rewrite (candidate_rows mean tm k st).1.
  by rewrite /sampled_row /directions /= Hs Hg (blend_frame Hc).
- by [].
move=> Hframe _ Hnone Hsome; split=> //.
  by move=> Hn i; apply: Hnone => //; rewrite mem_enum.
move=> k Hk i; have := Hsome k Hk i; rewrite mem_enum !index_enum_ord.
exact.
Qed.

Lemma check_base (st : sample_state) :
  base (check st).2.1 = (_check_terminations time_time (base st.1)).2.
Proof. by rewrite /check; case: (_check_terminations _ _). Qed.

(** With no limit set, [iterate] samples the whole population. *)

Lemma iterate_unlimited self (z d : 'M[R]_(n_individuals, N)) (mean : 'cV[R]_N)
    (tm : 'M[R]_(n_evolution_paths, N)) (y : 'cV[R]_n_individuals) :
  unlimited (base self) -> (iterate_from self z d mean tm y).1 = None.
Proof.
move=> Hself; rewrite /iterate_from.
apply: (sampling_complete (P := fun ss : sample_state => unlimited (base ss.1)))
  => // [ss Hss|k [self1 [[z1 d1] y1]] Hss].
  have [_ _ _ _ ->] := check_frame ss; rewrite check_base.
  exact: check_terminations_unlimited.
have {}Hss : unlimited (base self1) := Hss.
rewrite /candidate; case: (standard_normal _) => zk g; cbv beta iota zeta.
set ev := _evaluate_fitness _ _ _.
have : unlimited ev.2 by apply: evaluate_fitness_unlimited.
by case: ev.
Qed.

(** X7.  When [LMMAES.iterate] samples the whole population (no early
    return), its three outputs agree row by row: [d[k]] is [z[k]] passed
    through the inner loop over the first
    [min (_n_generations, n_evolution_paths)] rows of [tm], and [y[k]] is
    the fitness of [mean + sigma * d[k]]; no later candidate overwrites an
    earlier row. *)

Theorem iterate_fills_every_row self (z d : 'M[R]_(n_individuals, N))
    (mean : 'cV[R]_N) (tm : 'M[R]_(n_evolution_paths, N))
    (y : 'cV[R]_n_individuals) (k : 'I_n_individuals) :
  (iterate_from self z d mean tm y).1 = None ->
  let: (zk, dk, yk) := rows_at (iterate self z d mean tm y) k in
  dk = foldl (blend self tm) zk (directions self) /\
  yk = fitness_function (mean + sigma (base self) *: dk)%R.
Proof.
move=> Hn; have [_ H _] := iterate_rows self z d mean tm y.
by have := H Hn k; rewrite /iterate /sampled_row; case: (rows_at _ _) => [[zk dk] yk].
Qed.

(** X8.  In the first generation ([_n_generations = 0]) the inner loop over
    [j] is empty: every search direction is the raw standard normal draw,
    [d[k] = z[k]], whatever [tm] holds, and [y[k]] is the fitness of
    [mean + sigma * z[k]]. *)

Theorem first_generation_is_isotropic self (z d : 'M[R]_(n_individuals, N))
    (mean : 'cV[R]_N) (tm : 'M[R]_(n_evolution_paths, N))
    (y : 'cV[R]_n_individuals) (k : 'I_n_individuals) :
  _n_generations (base self) = 0%nat ->
  (iterate_from self z d mean tm y).1 = None ->
  let: (zk, dk, yk) := rows_at (iterate self z d mean tm y) k in
  dk = zk /\ yk = fitness_function (mean + sigma (base self) *: zk)%R.
Proof.
move=> Hg Hn; have [_ H _] := iterate_rows self z d mean tm y.
have := H Hn k; rewrite /iterate /sampled_row /directions Hg min0n take0.
by case: (rows_at _ _) => [[zk dk] yk] /= [-> ->].
Qed.

Lemma blend_zero self (v : 'cV[R]_N) (js : seq 'I_n_evolution_paths) :
  foldl (blend self 0) v js =
  ((\prod_(j <- js) (1 - _c_d self j ord0)) *: v)%R.
Proof.
elim: js v => [|j js IH] v /=; first by rewrite big_nil scale1r.
rewrite IH big_cons /blend.
have -> : get_row (0 : 'M[R]_(n_evolution_paths, N)) j = 0%R.
  by apply/colP => i; rewrite !mxE.
by rewrite !scaler0 addr0 scalerA mulrC.
Qed.

(** X9.  While [tm] is all zeros, as [initialize] returns it at the start
    and at every restart, the inner loop only rescales the draw: [d[k]] is
    [z[k]] times the product of the [1 - _c_d[j]] over the
    [min (_n_generations, n_evolution_paths)] indices [j] of the loop. *)

Theorem zero_transformation_shrinks_noise self (z d : 'M[R]_(n_individuals, N))
    (mean : 'cV[R]_N) (y : 'cV[R]_n_individuals) (k : 'I_n_individuals) :
  (iterate_from self z d mean 0 y).1 = None ->
  let: (zk, dk, yk) := rows_at (iterate self z d mean 0 y) k in
  dk = ((\prod_(j <- directions self) (1 - _c_d self j ord0)) *: zk)%R.
Proof.
move=> Hn; have [_ H _] := iterate_rows self z d mean 0 y.
have := H Hn k; rewrite /iterate /sampled_row blend_zero.
by case: (rows_at _ _) => [[zk dk] yk] /= [-> _].
Qed.

(** X10.  When [iterate] returns early at index [k], [optimize] breaks; the
    entries [y[k:]] are the ones that were passed in (those of the previous
    generation, or the contents of [np.empty]), and with [record_fitness]
    set all [n_individuals] entries of [y] are still appended to the fitness
    list, although only [k] of them were evaluated in this pass. *)

Theorem early_return_records_stale_fitness st (k : 'I_n_individuals) :
  (forall i j : nat, (i <= j)%nat -> time_time i <= time_time j) ->
  (iterate_from (self_of st) (z_of st) (d_of st) (mean_of st) (tm_of st)
     (y_of st)).1 = Some k ->
  exists st' : loop_state,
    [/\ generation st = Some (true, st'),
        evals (self_of st') = (evals (self_of st) + k)%nat,
        fitness_of st' =
        (if record_fitness (base (self_of st))
         then extend (fitness_of st) (y_of st') else fitness_of st),
        size (extend (fitness_of st) (y_of st')) =
        (size (fitness_of st) + n_individuals)%nat &
        forall i : 'I_n_individuals,
          (k <= i)%nat -> y_of st' i ord0 = y_of st i ord0].
Proof.
move=> Hmono Hk; rewrite /generation.
have [] := iterate_early Hmono Hk.
have [[_ _ Hrec _] _ Hsome] :=
  iterate_rows (self_of st) (z_of st) (d_of st) (mean_of st) (tm_of st)
    (y_of st).
have {Hsome} := fun i => (Hsome k Hk i).1.
move: Hrec; rewrite /iterate.
case: (iterate_from _ _ _ _ _ _) => o [self1 [[z1 d1] y1]]; unlet.
move=> Hrec Hrows Hn Hfire.
have [_ Hnc _ _ _] := check_terminations_frame time_time (base self1).
have Hrc : record_fitness (_check_terminations time_time (base self1)).2 =
           record_fitness (base self1) by [].
case: (_check_terminations _ _) Hfire Hnc Hrc => stop b /= -> Hnc Hrc.
eexists; split; first by [].
- by rewrite /evals /= Hnc.
- by rewrite /= Hrec.
- by rewrite /extend size_cat size_map size_enum_ord.
- by move=> i /Hrows; rewrite /rows_at /= => -[_ _ ->].
Qed.

(** The recombination loop raises when there are more parents than
    individuals: [order[k]] is out of range at [k = n_individuals]. *)

Lemma recombine_none self (order : 'S_n_individuals)
    (z d : 'M[R]_(n_individuals, N)) :
  (n_individuals < n_parents self)%nat -> recombine self order z d = None.
Proof.
move=> Hlt; rewrite /recombine.
have Hnone (ks : seq nat) :
    foldl (recombine_step self order z d) None ks = None by elim: ks.
rewrite -(subnKC (ltnW Hlt)) iotaD foldl_cat add0n.
rewrite -(prednK (n := n_parents self - n_individuals)) ?subn_gt0 //=.
set acc := foldl _ (Some _) _.
have -> : recombine_step self order z d acc n_individuals = None.
  by rewrite /recombine_step; case: acc => [[d_w z_w]|] //; rewrite insubF ?ltnn.
exact: Hnone.
Qed.

(** The attributes that [_update_distribution] reads are set.  [_c_c] is
    read inside the loop over the direction vectors only: without any, it
    may still be [None]. *)

Definition ready self : bool :=
  [&& _s_1 self, _s_2 self, c_s self &
      (_c_c self : bool) || (n_evolution_paths == 0)%nat].

Lemma initialized_ready self : initialized self -> ready self.
Proof. by rewrite /initialized /ready => /and4P[-> -> -> ->]. Qed.

(** X11.  [_update_distribution] returns exactly when the parents fit in
    the population and the attributes it reads are no longer [None]:
    [_s_1], [_s_2], [c_s], and [_c_c] unless there is no direction vector.
    Otherwise it raises: an IndexError at [order[k]] for [k = n_individuals]
    when [n_parents > n_individuals], a TypeError on a [None] attribute when
    it is called before [initialize]. *)

Theorem update_returns_iff_ready self (z d : 'M[R]_(n_individuals, N))
    (mean s : 'cV[R]_N) (tm : 'M[R]_(n_evolution_paths, N))
    (y : 'cV[R]_n_individuals) :
  isSome (_update_distribution self z d mean s tm y) =
  (n_parents self <= n_individuals)%nat && ready self.
Proof.
case: leqP => [Hle|Hlt] /=; last first.
  by rewrite /_update_distribution recombine_none.
rewrite /_update_distribution /ready.
have [[d_w z_w] ->] := recombine_some (argsort y) z d Hle.
case: (_s_1 self) => [s_1|] //=; case: (_s_2 self) => [s_2|] //=.
by case: (_c_c self) => [c_c|] /=; case: (c_s self) => [cs|] //=;
  case: (_ == _).
Qed.

(** *** The coefficients and the step-size *)

Lemma retention_range (c : R) :
  0 <= c -> 0 <= (if Rltb (1 - c) 0 then 1 / 2 else 1 - c) <= 1.
Proof. by move=> Hc; case: RltbP => H; lra. Qed.

Lemma ratio_nonneg (a b : nat) (x : R) :
  (0 < b)%nat -> 0 < x -> 0 <= INR a / (INR b * x).
Proof.
move=> /ltP /lt_0_INR Hb Hx; apply: Rmult_le_pos; first exact: pos_INR.
by left; apply: Rinv_0_lt_compat; apply: Rmult_lt_0_compat.
Qed.

(** X12.  With a non-negative [c_s] (the default [2 * n_individuals / N] is
    one) the exponential smoothing of [_update_distribution] is a damping.
    The path it returns is [_s_1 * s + _s_2 * z_w], for the attributes
    [_s_1], [_s_2] of [self] and the recombined draw [z_w], with [_s_1] in
    [0, 1] and [_s_2 >= 0]; row [k] of [tm] becomes
    [t_1 * tm[k] + t_2 * z_w] with [t_1] the retention [1 - c_c[k]], or 0.5
    when that is negative, in [0, 1], and [t_2 >= 0] the square root of the
    variance term, or of [0.5 ^ 2]. *)

Theorem retention_coefficients_in_unit_interval (is_restart : bool) self0
    (z d : 'M[R]_(n_individuals, N)) (mean s : 'cV[R]_N)
    (tm : 'M[R]_(n_evolution_paths, N)) (y : 'cV[R]_n_individuals) :
  (0 < N)%nat ->
  (forall c : R, options_c_s self0 = Some c -> 0 <= c) ->
  (n_parents self0 <= n_individuals)%nat ->
  let self := (initialize is_restart self0).2 in
  let c_c (k : nat) := INR n_individuals / (INR N * 4 ^ k) in
  let var (c : R) := _mu_eff self0 * c * (2 - c) in
  let keep (c : R) := if Rltb (1 - c) 0 then 1 / 2 else 1 - c in
  let spread (c : R) := sqrt (if Rltb (var c) 0 then (1 / 2) ^ 2 else var c) in
  exists (d_w z_w : 'cV[R]_N) (s_1 s_2 : R)
         (tm' : 'M[R]_(n_evolution_paths, N)) (self' : lmmaes),
    [/\ [/\ recombine self (argsort y) z d = Some (d_w, z_w),
            _s_1 self = Some s_1 & _s_2 self = Some s_2],
        _update_distribution self z d mean s tm y =
        Some ((mean + sigma (base self) *: d_w)%R,
              (s_1 *: s + s_2 *: z_w)%R, tm', self'),
        0 <= s_1 <= 1 /\ 0 <= s_2 &
        forall k : 'I_n_evolution_paths,
          [/\ get_row tm' k =
              (keep (c_c k) *: get_row tm k + spread (c_c k) *: z_w)%R,
              0 <= keep (c_c k) <= 1 & 0 <= spread (c_c k)]].
Proof.
move=> HN Hcs Hle self c_c var keep spread.
have [d_w [z_w [tm' [self' [Hrec [H1 H2] Hupd Hrows]]]]] :=
  update_after_initialize is_restart z d mean s tm y Hle.
exists d_w, z_w; eexists; eexists; exists tm', self'; split.
- by split; [exact: Hrec | exact: H1 | exact: H2].
- exact: Hupd.
- split; last exact: sqrt_pos.
  apply: retention_range; case Ho: (options_c_s self0) => [c|] /=.
    exact: Hcs Ho.
  have := @ratio_nonneg n_individuals N 1 HN Rlt_0_1.
  by rewrite Rmult_1_r => H; rewrite /Rdiv Rmult_assoc; apply: Rmult_le_pos; lra.
move=> k; split; first exact: Hrows.
  by apply/retention_range/ratio_nonneg => //; apply: pow_lt; lra.
exact: sqrt_pos.
Qed.

(** X13.  The rates [_c_d[j] = 1 / (N * 1.5 ^ j)] that [__init__] computes
    lie in (0, 1] and decrease with [j]: in the inner loop of [iterate] every
    [1 - _c_d[j]] is in [0, 1), and later rows of [tm] are mixed in with
    smaller rates. *)

Theorem direction_rates_decrease (es : optimizer N rng) (parents : nat)
    (w : nat -> R) (mu_eff : R) (opt_c_s : option R)
    (i j : 'I_n_evolution_paths) :
  (0 < N)%nat ->
  let c_d := _c_d (__init__ es parents w mu_eff opt_c_s) in
  [/\ 0 < c_d j ord0, c_d j ord0 <= 1 &
      (i <= j)%nat -> c_d j ord0 <= c_d i ord0].
Proof.
move=> /ltP HN c_d; rewrite /c_d /__init__ /= !mxE.
have HN1 : 1 <= INR N by rewrite -[1]/(INR 1); apply: le_INR.
have Hpow (k : nat) : 1 <= (3 / 2) ^ k by apply: pow_R1_Rle; lra.
have Hden (k : nat) : 1 <= INR N * (3 / 2) ^ k.
  by rewrite -[1]Rmult_1_r; apply: Rmult_le_compat; lra || exact: Hpow.
have Hinv (k : nat) : 0 < / (INR N * (3 / 2) ^ k) <= 1.
  split; first by apply: Rinv_0_lt_compat; have := Hden k; lra.
  by rewrite -Rinv_1; apply: Rinv_le_contravar; [lra | exact: Hden].
split; rewrite /Rdiv ?Rmult_1_l; try by have := Hinv j; lra.
move=> /leP Hij; apply: Rinv_le_contravar; first by have := Hden i; lra.
apply: Rmult_le_compat_l; first lra.
by apply: Rle_pow => //; lra.
Qed.

(** X14.  In exact arithmetic, [_update_distribution] multiplies [sigma] by
    the factor [exp (c_s / 2 * (sum (s' ^ 2) / N - 1))] of the new evolution
    path [s'], and with [c_s > 0] and [N >= 1] the length of that path
    decides the direction: the factor is above 1 when [sum (s' ^ 2) > N],
    below 1 when [sum (s' ^ 2) < N], and 1 when they are equal. *)

Theorem sigma_follows_path_length self (z d : 'M[R]_(n_individuals, N))
    (mean s : 'cV[R]_N) (tm : 'M[R]_(n_evolution_paths, N))
    (y : 'cV[R]_n_individuals) (mean' s' : 'cV[R]_N)
    (tm' : 'M[R]_(n_evolution_paths, N)) (self' : lmmaes) (cs : R) :
  _update_distribution self z d mean s tm y = Some (mean', s', tm', self') ->
  c_s self = Some cs -> 0 < cs -> (0 < N)%nat ->
  let factor := exp (cs / 2 * (sum_of_squares s' / INR N - 1)) in
  [/\ sigma (base self') = sigma (base self) * factor,
      INR N < sum_of_squares s' -> 1 < factor,
      sum_of_squares s' < INR N -> factor < 1 &
      sum_of_squares s' = INR N -> factor = 1].
Proof.
rewrite /_update_distribution; case: (recombine _ _ _ _) => // -[d_w z_w].
case: (_s_1 self) => // s_1; case: (_s_2 self) => // s_2.
case: (_c_c self) => [c_c|]; [|case: (_ == _) => //];
  case: (c_s self) => // cs0;
  move=> [_ <- _ <-] [->] Hcs /ltP /lt_0_INR HN /=;
  set S := sum_of_squares _;
  (have Hq : S / INR N - 1 = (S - INR N) * / INR N by field; lra);
  (have Hinv : 0 < / INR N by apply: Rinv_0_lt_compat);
  split=> // HS.
- have He : 0 < cs / 2 * (S / INR N - 1).
    by rewrite Hq; apply: Rmult_lt_0_compat; [lra | apply: Rmult_lt_0_compat; lra].
  by have := exp_increasing _ _ He; rewrite exp_0.
- have He : cs / 2 * (S / INR N - 1) < 0.
    have : 0 < cs / 2 * ((INR N - S) * / INR N).
      by apply: Rmult_lt_0_compat; [lra | apply: Rmult_lt_0_compat; lra].
    by rewrite Hq; nra.
  by have := exp_increasing _ _ He; rewrite exp_0.
- by rewrite Hq HS Rminus_diag Rmult_0_l Rmult_0_r exp_0.
- have He : 0 < cs / 2 * (S / INR N - 1).
    by rewrite Hq; apply: Rmult_lt_0_compat; [lra | apply: Rmult_lt_0_compat; lra].
  by have := exp_increasing _ _ He; rewrite exp_0.
- have He : cs / 2 * (S / INR N - 1) < 0.
    have : 0 < cs / 2 * ((INR N - S) * / INR N).
      by apply: Rmult_lt_0_compat; [lra | apply: Rmult_lt_0_compat; lra].
    by rewrite Hq; nra.
  by have := exp_increasing _ _ He; rewrite exp_0.
- by rewrite Hq HS Rminus_diag Rmult_0_l Rmult_0_r exp_0.
Qed.

(** *** [LMMAES.optimize] comes to an end *)

(** A pass that does not break sampled the whole population, and its last
    check found the budget not yet spent. *)

Lemma lmmaes_generation_full st st' :
  (forall i j : nat, (i <= j)%nat -> time_time i <= time_time j) ->
  generation st = Some (false, st') ->
  [/\ evals (self_of st') = (evals (self_of st) + n_individuals)%nat,
      budget (self_of st') = budget (self_of st) &
      forall m : nat, budget (self_of st) = Some m ->
        (evals (self_of st) + n_individuals < m)%nat].
Proof.
move=> Hmono.
case Hk: (iterate_from (self_of st) (z_of st) (d_of st) (mean_of st)
            (tm_of st) (y_of st)).1 => [k|].
  by have [st1 [-> _ _ _]] := lmmaes_generation_early Hmono Hk.
have Hn : evals (iterate (self_of st) (z_of st) (d_of st) (mean_of st)
                   (tm_of st) (y_of st)).1 =
          (evals (self_of st) + n_individuals)%nat.
  rewrite /iterate /iterate_from.
  rewrite (sampling_count (count := fun ss : sample_state => evals ss.1))
    ?enum_uniq //.
  - by move=> i ss; have [->] := candidate_frame (mean_of st) (tm_of st) i ss.
  - by rewrite /sampled -/(iterate_from _ _ _ _ _ _) Hk size_enum_ord.
have Hm : budget (iterate (self_of st) (z_of st) (d_of st) (mean_of st)
                    (tm_of st) (y_of st)).1 = budget (self_of st).
  rewrite /iterate /iterate_from.
  apply: (sampling_inv
    (P := fun ss : sample_state => budget ss.1 = budget (self_of st))) => //.
  move=> i ss <- _; have [_ -> _] := candidate_frame (mean_of st) (tm_of st) i (check ss).2.
  by have [_ ->] := check_frame ss.
rewrite /generation.
case: (iterate _ _ _ _ _ _) Hn Hm => self1 [[z1 d1] y1]; unlet => Hn1 Hm1.
have [Hmc Hnc _ _ _] := check_terminations_frame time_time (base self1).
have Hb := @check_terminations_budget _ _ time_time (base self1).
case: (_check_terminations _ _) Hmc Hnc Hb => -[] b /= Hmc Hnc Hb //.
set self2 := set_base self1 b.
case Hupd: (_update_distribution _ _ _ _ _ _ _) => [[[[mean s] tm] self3]|] //.
have [/= Hn3 Hm3] := update_distribution_budget Hupd.
have Hn3' : evals self3 = (evals (self_of st) + n_individuals)%nat.
  by rewrite Hn3 /evals /= Hnc.
have Hm3' : budget self3 = budget (self_of st) by rewrite Hm3 /budget /= Hmc.
have Hlt (m : nat) : budget (self_of st) = Some m ->
    (evals (self_of st) + n_individuals < m)%nat.
  by rewrite -Hm1 -Hn1 => Hm; apply: Hb.
rewrite /restart_initialize; set self4 := set_base self3 _.
have [Hn5 Hm5] := restart_keeps self4.
case: (ES_restart_initialize self4) Hn5 Hm5 => -[] self5 /= Hn5 Hm5.
  have [] := initialize_budget true self5.
  case: (initialize true self5) => [[[[[[z6 d6] mean6] s6] tm6] y6] self6] /=.
  by move=> Hn6 Hm6 [<-]; split; rewrite /= ?Hm6 ?Hn6 ?Hm5 ?Hn5.
by case=> <-; split; rewrite /= ?Hm5 ?Hn5.
Qed.

Lemma lmmaes_loop_fuel (m fuel : nat) st :
  (forall i j : nat, (i <= j)%nat -> time_time i <= time_time j) ->
  (0 < n_individuals)%nat ->
  budget (self_of st) = Some m ->
  (0 < fuel)%nat -> (m <= evals (self_of st) + fuel)%nat ->
  optimize_loop fuel st <> OutOfFuel.
Proof.
move=> Hmono Hpop; elim: fuel st => [|fuel IH] st //= Hm _ Hle.
case Hgen: (generation st) => [[[] st1]|] //.
have [Hn1 Hm1 Hlt] := lmmaes_generation_full Hmono Hgen.
have {}Hlt := Hlt m Hm.
have H1 : ((evals (self_of st)).+1 < m)%nat.
  by apply: leq_ltn_trans Hlt; rewrite -addn1 leq_add2l.
apply: IH; rewrite ?Hm1 //.
  by case: fuel Hle => // Hle; move: (leq_trans H1 Hle); rewrite addn1 ltnn.
rewrite Hn1; apply: leq_trans Hle _.
by rewrite addnS -addSn leq_add2r -addn1 leq_add2l.
Qed.

(** X15.  A run of [LMMAES.optimize] with an evaluation budget [m] and a
    non-empty population cannot go on for ever: called with the counter at
    [n0], it has returned or raised after at most [max (1, m - n0)] passes
    through its loop, because every pass that does not break evaluates the
    whole population.  (The clock does not run backwards; the base class is
    the one modelled above, and its restart test does not touch the
    counters.) *)

Theorem lmmaes_optimize_ends (m fuel : nat) self :
  (forall i j : nat, (i <= j)%nat -> time_time i <= time_time j) ->
  (0 < n_individuals)%nat ->
  budget self = Some m ->
  (0 < fuel)%nat -> (m <= evals self + fuel)%nat ->
  optimize fuel self <> OutOfFuel.
Proof.
move=> Hmono Hpop Hm Hfuel Hle; rewrite /optimize.
have Hstart : budget (self_of (start self)) = Some m /\
              evals (self_of (start self)) = evals self.
  rewrite /start /=.
  have [] := initialize_budget false
    (set_base self (Optimizer.optimize time_time (base self)).2).
  by case: (initialize _ _) => [[[[[[z0 d0] mean0] s0] tm0] y0] self0] /= -> ->.
case: Hstart => Hm0 Hn0.
have := @lmmaes_loop_fuel m fuel (start self) Hmono Hpop Hm0 Hfuel.
by rewrite Hn0 => /(_ Hle); case: (optimize_loop _ _).
Qed.

End LMMAES.

(** *** [LMMAES] on the sample problem: a population of four, two parents,
    one direction vector.  The default [c_s = 2 * 4 / 1] is above 2, so both
    fallbacks apply. *)

Definition sample_self (budget : option nat) : lmmaes 1 1 nat :=
  @__init__ 1 1 nat (Sample.fresh budget 1) 2 (fun _ => 1 / 2) 2 None.

Definition sample_restart (self : lmmaes 1 1 nat) : bool * lmmaes 1 1 nat :=
  (false, self).

Definition sample_initialized : lmmaes 1 1 nat :=
  (initialize 4 Sample.np_empty Sample.initialize_mean false
     (sample_self None)).2.

Lemma update_multiplies_sigma_witness :
  exists (mean' s' : 'cV[R]_1) (tm' : 'M[R]_1) (self' : lmmaes 1 1 nat)
         (cs : R),
    [/\ c_s sample_initialized = Some cs,
        (_update_distribution Sample.argsort sample_initialized
           (0 : 'M[R]_(4, 1)) 0 0 0 0 0)%R = Some (mean', s', tm', self') &
        sigma (base self') =
        sigma (base sample_initialized) *
        exp (cs / 2 * (sum_of_squares s' / INR 1 - 1))].
Proof.
have [mean' [s' [z_w [tm' [self' [cs [s_1 [s_2 [Hupd [Hc _ _] _ Hs]]]]]]]]] :=
  update_multiplies_sigma Sample.argsort (0 : 'M[R]_(4, 1))%R
    (0 : 'M[R]_(4, 1))%R (0 : 'cV[R]_1)%R (0 : 'cV[R]_1)%R
    (0 : 'M[R]_(1, 1))%R (0 : 'cV[R]_4)%R
    (initialize_initialized 4 Sample.np_empty Sample.initialize_mean false
       (sample_self None))
    (isT : (n_parents sample_initialized <= 4)%nat).
by exists mean', s', tm', self', cs.
Defined.

(** On the sample two parents of weight 1/2 are recombined: from arrays of
    ones, [d_w] and [z_w] are ones. *)

Lemma sample_recombine (y : 'cV[R]_4) :
  recombine (n_individuals := 4) sample_initialized (Sample.argsort y)
    (const_mx 1) (const_mx 1) = Some (const_mx 1, const_mx 1).
Proof.
rewrite /recombine /= /recombine_step.
rewrite (insubT (fun i => (i < 4)%nat) (isT : (0 < 4)%nat)).
rewrite (insubT (fun i => (i < 4)%nat) (isT : (1 < 4)%nat)).
by congr (Some (_, _)); apply/colP => i; rewrite !mxE /=;
  rewrite /GRing.add /GRing.mul /GRing.zero /=; lra.
Qed.

(** On the sample, [1 - c_s = -7] and [mu_eff * c_s * (2 - c_s) = -96],
    [1 - c_c[0] = -3] and [mu_eff * c_c[0] * (2 - c_c[0]) = -16]: from a
    path and a row of ones, the path and the row are smoothed with 0.5 and
    [sqrt(0.5 ^ 2)]. *)

Lemma negative_coefficients_witness :
  exists (tm' : 'M[R]_1) (self' : lmmaes 1 1 nat),
    [/\ _s_1 sample_initialized = Some (1 / 2),
        _s_2 sample_initialized = Some (sqrt ((1 / 2) ^ 2)),
        (_update_distribution Sample.argsort sample_initialized
           (const_mx 1 : 'M[R]_(4, 1)) (const_mx 1) 0 (const_mx 1)
           (const_mx 1) 0)%R =
        Some ((0 + sigma (base sample_initialized) *: const_mx 1)%R,
              ((1 / 2)%Re *: const_mx 1 +
               sqrt ((1 / 2) ^ 2)%Re *: const_mx 1)%R, tm', self') &
        get_row tm' ord0 =
        ((1 / 2)%Re *: get_row (const_mx 1 : 'M[R]_1) ord0 +
         sqrt ((1 / 2) ^ 2)%Re *: const_mx 1)%R].
Proof.
have [d_w [z_w [s_1 [s_2 [tm' [self' [[Hrec H1 H2] Hupd Hs Hrows]]]]]]] :=
  negative_coefficients_fall_back Sample.np_empty Sample.argsort
    Sample.initialize_mean false (const_mx 1 : 'M[R]_(4, 1))%R
    (const_mx 1 : 'M[R]_(4, 1))%R (0 : 'cV[R]_1)%R (const_mx 1 : 'cV[R]_1)%R
    (const_mx 1 : 'M[R]_(1, 1))%R (0 : 'cV[R]_4)%R
    (isT : (n_parents (sample_self None) <= 4)%nat).
have /Some_inj [Hd Hz] := etrans (esym Hrec) (sample_recombine 0%R).
case: Hs => Hs1 _ Hs2 _.
have {}Hs1 : s_1 = 1 / 2 by apply: Hs1; rewrite /= /INR /=; lra.
have {}Hs2 : s_2 = sqrt ((1 / 2) ^ 2) by apply: Hs2; rewrite /= /INR /=; lra.
have [t_1 [t_2 [Hrow [Ht1 _] [Ht2 _]]]] := Hrows ord0.
have {}Ht1 : t_1 = 1 / 2 by apply: Ht1; rewrite /= /INR /=; lra.
have {}Ht2 : t_2 = (1 / 2) ^ 2 by apply: Ht2; rewrite /= /INR /=; lra.
exists tm', self'; split.
- by rewrite H1 Hs1.
- by rewrite H2 Hs2.
- by rewrite Hupd Hd Hz Hs1 Hs2.
- by rewrite Hrow Hz Ht1 Ht2.
Defined.

(** *** The further facts on the sample problem *)

(** With no limit set, the four candidates of the sample are all sampled. *)

Lemma sample_iterate_complete (tm : 'M[R]_1) :
  (iterate_from (n_individuals := 4) Sample.sphere Sample.time_time
     Sample.standard_normal (sample_self None) 0 0 0 tm 0)%R.1 = None.
Proof. by apply: iterate_unlimited; split. Qed.

Lemma iterate_fills_every_row_witness :
  let: (zk, dk, yk) :=
    rows_at (iterate (n_individuals := 4) Sample.sphere Sample.time_time
               Sample.standard_normal (sample_self None) 0 0 0 1 0)%R ord0 in
  dk = foldl (blend (sample_self None) 1%R) zk (directions (sample_self None)) /\
  yk = Sample.sphere (0 + sigma (base (sample_self None)) *: dk)%R.
Proof.
exact: (iterate_fills_every_row ord0 (sample_iterate_complete 1%R)).
Defined.

Lemma first_generation_witness :
  let: (zk, dk, yk) :=
    rows_at (iterate (n_individuals := 4) Sample.sphere Sample.time_time
               Sample.standard_normal (sample_self None) 0 0 0 1 0)%R ord0 in
  dk = zk /\ yk = Sample.sphere (0 + sigma (base (sample_self None)) *: zk)%R.
Proof.
exact: (first_generation_is_isotropic (self := sample_self None) ord0 erefl
          (sample_iterate_complete 1%R)).
Defined.

Lemma zero_transformation_witness :
  let: (zk, dk, yk) :=
    rows_at (iterate (n_individuals := 4) Sample.sphere Sample.time_time
               Sample.standard_normal (sample_self None) 0 0 0 0 0)%R ord0 in
  dk = ((\prod_(j <- directions (sample_self None))
           (1 - _c_d (sample_self None) j ord0)) *: zk)%R.
Proof.
exact: (zero_transformation_shrinks_noise ord0
          (sample_iterate_complete 0%R)).
Defined.

Lemma retention_coefficients_witness :
  exists (s_1 s_2 : R) (tm' : 'M[R]_1) (self' : lmmaes 1 1 nat),
    [/\ _s_1 sample_initialized = Some s_1 /\ _s_2 sample_initialized = Some s_2,
        (_update_distribution Sample.argsort sample_initialized
           (const_mx 1 : 'M[R]_(4, 1)) (const_mx 1) 0 (const_mx 1)
           (const_mx 1) 0)%R =
        Some ((0 + sigma (base sample_initialized) *: const_mx 1)%R,
              (s_1 *: const_mx 1 + s_2 *: const_mx 1)%R, tm', self') &
        0 <= s_1 <= 1 /\ 0 <= s_2].
Proof.
have Hcs : forall c : R, options_c_s (sample_self None) = Some c -> 0 <= c by [].
have [d_w [z_w [s_1 [s_2 [tm' [self' [[Hrec H1 H2] Hupd H12 _]]]]]]] :=
  retention_coefficients_in_unit_interval Sample.np_empty Sample.argsort
    Sample.initialize_mean false (const_mx 1 : 'M[R]_(4, 1))%R
    (const_mx 1 : 'M[R]_(4, 1))%R (0 : 'cV[R]_1)%R (const_mx 1 : 'cV[R]_1)%R
    (const_mx 1 : 'M[R]_(1, 1))%R (0 : 'cV[R]_4)%R
    (isT : (0 < 1)%nat) Hcs (isT : (n_parents (sample_self None) <= 4)%nat).
have /Some_inj [Hd Hz] := etrans (esym Hrec) (sample_recombine 0%R).
by exists s_1, s_2, tm', self'; split=> //; rewrite Hupd Hd Hz.
Defined.

(** Two direction vectors in dimension one: the rates are 1 and 2/3. *)

Lemma direction_rates_witness :
  let c_d :=
    _c_d (@__init__ 1 2 nat (Sample.fresh None 1) 2 (fun _ => 1 / 2) 2 None) in
  [/\ 0 < c_d ord_max ord0, c_d ord_max ord0 <= 1 &
      c_d ord_max ord0 <= c_d ord0 ord0].
Proof.
have [H1 H2 H3] :=
  direction_rates_decrease (N := 1) (n_evolution_paths := 2)
    (Sample.fresh None 1) 2 (fun _ => 1 / 2) 2 None ord0 ord_max isT.
by split=> //; apply: H3.
Defined.

Lemma sigma_follows_path_length_witness :
  exists (mean' s' : 'cV[R]_1) (tm' : 'M[R]_1) (self' : lmmaes 1 1 nat),
    (_update_distribution Sample.argsort sample_initialized
       (const_mx 1 : 'M[R]_(4, 1)) (const_mx 1) 0 (const_mx 1)
       (const_mx 1) 0)%R = Some (mean', s', tm', self') /\
    sigma (base self') =
    sigma (base sample_initialized) *
    exp (2 * INR 4 / INR 1 / 2 * (sum_of_squares s' / INR 1 - 1)).
Proof.
have [d_w [z_w [cs [s_1 [s_2 [c_c [_ _ Hupd]]]]]]] :=
  update_distribution_eq Sample.argsort (const_mx 1 : 'M[R]_(4, 1))%R
    (const_mx 1 : 'M[R]_(4, 1))%R (0 : 'cV[R]_1)%R (const_mx 1 : 'cV[R]_1)%R
    (const_mx 1 : 'M[R]_(1, 1))%R (0 : 'cV[R]_4)%R
    (initialize_initialized 4 Sample.np_empty Sample.initialize_mean false
       (sample_self None))
    (isT : (n_parents sample_initialized <= 4)%nat).
have Hcs : 0 < 2 * INR 4 / INR 1 by rewrite /INR /=; lra.
have [Hsigma _ _ _] :=
  sigma_follows_path_length Hupd
    (erefl : c_s sample_initialized = Some (2 * INR 4 / INR 1)) Hcs
    (isT : (0 < 1)%nat).
by do 4!eexists; split; [exact: Hupd | exact: Hsigma].
Defined.

Lemma lmmaes_optimize_ends_witness :
  optimize (n_individuals := 4) Sample.sphere Sample.time_time
    Sample.standard_normal Sample.np_empty Sample.argsort
    Sample.initialize_mean sample_restart 8 (sample_self (Some 8%nat)) <>
  OutOfFuel.
Proof.
exact: (lmmaes_optimize_ends (n_individuals := 4)
          (ES_restart_initialize := sample_restart)
          Sample.initialize_mean_keeps (fun self => conj erefl erefl)
          (m := 8) (fuel := 8) (self := sample_self (Some 8%nat))
          Sample.time_time_mono isT erefl isT isT).
Defined.

End LMMAES.

(** ** [XNES]: exponential natural evolution strategy (nes/xnes.py) *)

Module XNES.

Import Optimizer.

Section XNES.

Variable N : nat.                       (* ndim_problem *)
Variable n_individuals : nat.
Variable rng : Type.
Variable fitness_function : 'cV[R]_N -> R.
Variable time_time : nat -> R.

(** [Generator.standard_normal((N,))], [np.empty], [np.argsort] (a
    permutation of the indices) and [scipy.linalg.expm]. *)

Variable standard_normal : rng -> 'cV[R]_N * rng.
Variable np_empty : forall a b : nat, 'M[R]_(a, b).
Variable argsort : 'cV[R]_n_individuals -> 'S_n_individuals.
Variable expm : 'M[R]_N -> 'M[R]_N.

(** [NES._initialize_mean] and [NES.restart_reinitialize] are not among the
    sources: they are parameters of the model, and touch only what the base
    class owns. *)

Variable _initialize_mean : bool -> optimizer N rng -> 'cV[R]_N * optimizer N rng.
Variable NES_restart_reinitialize :
  optimizer N rng -> 'cV[R]_n_individuals -> bool * optimizer N rng.

Record xnes : Type := Xnes {
  base : optimizer N rng;
  is_restart : bool;
  lr_cv : R;
  lr_sigma : R;
  _eye : 'M[R]_N;
  _w : 'cV[R]_n_individuals
}.

Definition set_base (self : xnes) (b : optimizer N rng) : xnes :=
  Xnes b (is_restart self) (lr_cv self) (lr_sigma self) (_eye self) (_w self).

(** [XNES.__init__].  [NES.__init__] is not among the sources: the
    attributes it leaves on [self] are the arguments. *)

Definition __init__ (nes : optimizer N rng) (restart : bool)
    (w : 'cV[R]_n_individuals) : xnes :=
  Xnes nes restart
    (6 / 10 * (3 + ln (INR N)) / INR N / sqrt (INR N))
    (6 / 10 * (3 + ln (INR N)) / INR N / sqrt (INR N))
    (1%:M)%R w.

(** The arrays that [initialize] returns: [x, y, mean, a, inv_a, log_det]. *)

Definition arrays : Type :=
  ('M[R]_(n_individuals, N) * 'cV[R]_n_individuals * 'cV[R]_N *
   'M[R]_N * 'M[R]_N * R)%type.

(** [np.maximum(0.0, np.log(n / 2.0 + 1.0) - np.log(n - np.arange(n)))]. *)

Definition rank_weights : 'cV[R]_n_individuals :=
  (\col_i (Rmax 0 (ln (INR n_individuals / 2 + 1) -
                   ln (INR n_individuals - INR i)))%Re)%R.

Definition initialize (restart : bool) (self : xnes) : arrays * xnes :=
  let x := np_empty n_individuals N in
  let y := np_empty n_individuals 1 in
  let: (mean, b) := _initialize_mean restart (base self) in
  let self := set_base self b in
  let a := (1%:M : 'M[R]_N)%R in
  let inv_a := (1%:M : 'M[R]_N)%R in
  let log_det := 0 in
  let self :=
    Xnes (base self) (is_restart self) (lr_cv self) (lr_sigma self)
      (_eye self) rank_weights in
  ((x, y, mean, a, inv_a, log_det), self).

(** The state of the sampling loop: [self] and the arrays [x, y]. *)

Definition sample_state : Type :=
  (xnes * ('M[R]_(n_individuals, N) * 'cV[R]_n_individuals))%type.

Definition check (st : sample_state) : bool * sample_state :=
  let: (stop, b) := _check_terminations time_time (base st.1) in
  (stop, (set_base st.1 b, st.2)).

Definition candidate (mean : 'cV[R]_N) (a : 'M[R]_N) (k : 'I_n_individuals)
    (st : sample_state) : sample_state :=
  let: (self, (x, y)) := st in
  let: (z, g) := standard_normal (rng_optimization (base self)) in
  let self := set_base self (set_rng_optimization (base self) g) in
  let x := set_row x k (mean + a *m z)%R in
  let: (yk, b) := _evaluate_fitness fitness_function (base self) (get_row x k) in
  (set_base self b, (x, set_item y k yk)).

Definition iterate_from (self : xnes) (x : 'M[R]_(n_individuals, N))
    (y : 'cV[R]_n_individuals) (mean : 'cV[R]_N) (a : 'M[R]_N) :
    option 'I_n_individuals * sample_state :=
  sampling check (candidate mean a) (enum 'I_n_individuals) (self, (x, y)).

Definition iterate (self : xnes) (x : 'M[R]_(n_individuals, N))
    (y : 'cV[R]_n_individuals) (mean : 'cV[R]_N) (a : 'M[R]_N) : sample_state :=
  (iterate_from self x y mean a).2.

(** The utilities: [u[o] = self._w[i]] for [i, o] in [enumerate(order)],
    then [u = u / np.sum(u) - 1.0 / n_individuals]. *)

Definition ranked (self : xnes) (order : 'S_n_individuals) :
  'cV[R]_n_individuals :=
  foldl (fun u i => set_item u (order i) (_w self i ord0))
    (np_empty n_individuals 1) (enum 'I_n_individuals).

Definition utilities (self : xnes) (y : 'cV[R]_n_individuals) :
  'cV[R]_n_individuals :=
  let order := argsort (- y)%R in
  let u := ranked self order in
  (\col_o (u o ord0 / (\sum_j u j ord0)%R - 1 / INR n_individuals)%Re)%R.

(** [s[k] = np.dot(inv_a, x[k] - mean)] for every [k]. *)

Definition whitened (x : 'M[R]_(n_individuals, N)) (mean : 'cV[R]_N)
    (inv_a : 'M[R]_N) : 'M[R]_(n_individuals, N) :=
  foldl (fun s k => set_row s k (inv_a *m (get_row x k - mean))%R)
    (np_empty n_individuals N) (enum 'I_n_individuals).

(** [np.dot(np.array([np.outer(k, k) - self._eye for k in s]).T, u)]: the
    transpose reverses the three axes, so entry [(j, i)] sums
    [(s[k][i] * s[k][j] - eye[i][j]) * u[k]] over [k]. *)

Definition covariance_gradient (self : xnes) (s : 'M[R]_(n_individuals, N))
    (u : 'cV[R]_n_individuals) : 'M[R]_N :=
  (\matrix_(j, i) \sum_k (s k i * s k j - _eye self i j) * u k ord0)%R.

(** The argument of the matrix exponential, from [g_cv] as first computed:
    [trace = np.trace(g_cv)], [g_cv -= trace / N * eye],
    [d_a = 0.5 * (lr_sigma * trace / N * eye + lr_cv * g_cv)]. *)

Definition exponent (self : xnes) (g_cv : 'M[R]_N) : 'M[R]_N :=
  let trace := (\tr g_cv)%R in
  let g_cv := (g_cv - (trace / INR N)%Re *: _eye self)%R in
  ((1 / 2)%Re *:
   ((lr_sigma self * trace / INR N)%Re *: _eye self + lr_cv self *: g_cv))%R.

Definition _update_distribution (self : xnes) (x : 'M[R]_(n_individuals, N))
    (y : 'cV[R]_n_individuals) (mean : 'cV[R]_N) (a inv_a : 'M[R]_N)
    (log_det : R) : 'cV[R]_N * 'M[R]_N * 'M[R]_N * R :=
  let u := utilities self y in
  let s := whitened x mean inv_a in
  let d_c := (s^T *m u)%R in
  let g_cv := covariance_gradient self s u in
  let trace := (\tr g_cv)%R in
  let d_a := exponent self g_cv in
  let mean := (mean + a *m d_c)%R in
  let a := (a *m expm d_a)%R in
  let inv_a := (expm (- d_a) *m inv_a)%R in
  let log_det := log_det + 1 / 2 * lr_sigma self * trace in
  (mean, a, inv_a, log_det).

(** The variables of the [while True] loop of [optimize]. *)

Record loop_state : Type := LoopState {
  self_of : xnes;
  x_of : 'M[R]_(n_individuals, N);
  y_of : 'cV[R]_n_individuals;
  mean_of : 'cV[R]_N;
  a_of : 'M[R]_N;
  inv_a_of : 'M[R]_N;
  log_det_of : R;
  fitness_of : seq R
}.

(** [if self.is_restart and NES.restart_reinitialize(self, y)]: the second
    test runs only when the first holds. *)

Definition restart_reinitialize (self : xnes) (arr : arrays) : arrays * xnes :=
  let: (x, y, mean, a, inv_a, log_det) := arr in
  if is_restart self then
    let: (restart, b) := NES_restart_reinitialize (base self) y in
    if restart then initialize true (set_base self b)
    else (arr, set_base self b)
  else (arr, self).

(** One pass through the body of the loop: [(true, _)] when it left by
    [break]. *)

Definition generation (st : loop_state) : bool * loop_state :=
  let: (self, (x, y)) :=
    iterate (self_of st) (x_of st) (y_of st) (mean_of st) (a_of st) in
  let: (stop, b) := _check_terminations time_time (base self) in
  let self := set_base self b in
  if stop
  then (true, LoopState self x y (mean_of st) (a_of st) (inv_a_of st)
                (log_det_of st) (fitness_of st))
  else
    let: (mean, a, inv_a, log_det) :=
      _update_distribution self x y (mean_of st) (a_of st) (inv_a_of st)
        (log_det_of st) in
    let self :=
      set_base self
        (set_n_generations (base self) (_n_generations (base self)).+1) in
    let: ((x, y, mean, a, inv_a, log_det), self) :=
      restart_reinitialize self (x, y, mean, a, inv_a, log_det) in
    (false, LoopState self x y mean a inv_a log_det (fitness_of st)).

Fixpoint optimize_loop (fuel : nat) (st : loop_state) : run loop_state :=
  if fuel is fuel'.+1 then
    let: (stop, st') := generation st in
    if stop then Done st' else optimize_loop fuel' st'
  else OutOfFuel.

(** The lines of [optimize] before the loop.  [NES.optimize] is not among
    the sources: it is taken to be [Optimizer.optimize]. *)

Definition start (self : xnes) : loop_state :=
  let: (fitness, b) := Optimizer.optimize time_time (base self) in
  let: ((x, y, mean, a, inv_a, log_det), self) :=
    initialize false (set_base self b) in
  LoopState self x y mean a inv_a log_det fitness.

(** Modelled from the spec: [NES._collect] is not among the sources.  The
    result carries the common keys of section 6 and the final mean. *)

Record xnes_results : Type := XnesResults {
  common : results N;
  r_mean : 'cV[R]_N
}.

Definition optimize (fuel : nat) (self : xnes) : run xnes_results :=
  match optimize_loop fuel (start self) with
  | Done st =>
      Done (XnesResults
              (_collect_results (base (self_of st)) (fitness_of st))
              (mean_of st))
  | Raised => Raised
  | OutOfFuel => OutOfFuel
  end.

(** The state after [k] passes through the loop that did not [break]. *)

Fixpoint generations (k : nat) (st : loop_state) : option loop_state :=
  if k is k'.+1 then
    if generations k' st is Some st' then
      let: (stop, st'') := generation st' in
      if stop then None else Some st''
    else None
  else Some st.

(** *** The utilities of [XNES] *)

Implicit Types (self : xnes) (st : loop_state).

(** The loop over [enumerate(order)] stores weight [i] at index
    [order[i]]: no entry of the [np.empty] array survives. *)

Lemma ranked_items (w u0 : 'cV[R]_n_individuals) (order : 'S_n_individuals)
    (ks : seq 'I_n_individuals) (i : 'I_n_individuals) :
  uniq ks ->
  foldl (fun u i => set_item u (order i) (w i ord0)) u0 ks (order i) ord0 =
  if i \in ks then w i ord0 else u0 (order i) ord0.
Proof.
elim: ks u0 => [|k ks IH] u0 //= /andP[Hk Huniq].
rewrite IH // in_cons mxE (inj_eq perm_inj).
by case: (altP (i =P k)) => [->|Hik] /=; first by rewrite (negbTE Hk).
Qed.

Lemma ranked_sum self (order : 'S_n_individuals) :
  (\sum_o ranked self order o ord0)%R = (\sum_i _w self i ord0)%R.
Proof.
rewrite (reindex_inj (@perm_inj _ order)) /=; apply: eq_bigr => i _.
by rewrite /ranked ranked_items ?enum_uniq // mem_enum.
Qed.

Lemma rank_weights_sum_pos :
  (0 < n_individuals)%nat -> 0 < (\sum_i rank_weights i ord0)%R.
Proof.
move=> Hn; have Hlast : (n_individuals.-1 < n_individuals)%nat.
  by rewrite ltn_predL.
apply: (@sum_pos _ _ (Ordinal Hlast)) => [i|]; rewrite mxE; first exact: Rmax_l.
apply: Rlt_le_trans (Rmax_r _ _).
have -> : INR n_individuals - INR (Ordinal Hlast) = 1.
  by rewrite /= -{1}(prednK Hn) S_INR; lra.
rewrite ln_1 Rminus_0_r -ln_1; apply: ln_increasing; first lra.
by have := lt_0_INR _ (elimT ltP Hn); lra.
Qed.

Lemma initialize_weights (restart : bool) self :
  _w (initialize restart self).2 = rank_weights /\
  _eye (initialize restart self).2 = _eye self.
Proof. by rewrite /initialize; case: (_initialize_mean _ _). Qed.

(** C8.  After [initialize] has set the ranking weights, the utility
    vector that [_update_distribution] computes from any fitness array [y]
    (the weights placed by rank, divided by their sum, minus
    [1 / n_individuals]) sums to zero. *)

Theorem utilities_sum_to_zero (restart : bool) self0
    (y : 'cV[R]_n_individuals) :
  (\sum_o utilities (initialize restart self0).2 y o ord0)%R = 0.
Proof.
have [Hw _] := initialize_weights restart self0.
case: (posnP n_individuals) => [Hn0|Hn].
  by rewrite big1 // => i _; move: (leq_trans (ltn_ord i) (eq_leq Hn0)).
rewrite /utilities; set u := ranked _ _.
have Hu : (\sum_o u o ord0)%R = (\sum_i rank_weights i ord0)%R.
  by rewrite /u ranked_sum Hw.
have Hpos := rank_weights_sum_pos Hn.
have HnR : 0 < INR n_individuals by apply: lt_0_INR; apply/ltP.
under eq_bigr do rewrite mxE.
rewrite big_split /= sumrN sumr_const card_ord natmul_INR -mulr_suml Hu.
move: (\sum_i rank_weights i ord0)%R Hpos => S Hpos.
by rewrite /GRing.add /GRing.opp /GRing.mul /=; field; split; lra.
Qed.

(** *** The transform of [XNES] along a run *)

(** The attributes that no method assigns after [__init__] and
    [initialize]. *)

Lemma xnes_check_frame (ss : sample_state) :
  [/\ n_function_evaluations (base (check ss).2.1) =
      n_function_evaluations (base ss.1),
      max_function_evaluations (base (check ss).2.1) =
      max_function_evaluations (base ss.1),
      _eye (check ss).2.1 = _eye ss.1,
      (check ss).2.2 = ss.2 &
      (check ss).1 = (_check_terminations time_time (base ss.1)).1].
Proof.
rewrite /check.
have [Hm Hn _ _ _] := check_terminations_frame time_time (base ss.1).
by case: (_check_terminations _ _) Hm Hn => stop b /= Hm Hn.
Qed.

Lemma xnes_candidate_frame (mean : 'cV[R]_N) (a : 'M[R]_N)
    (k : 'I_n_individuals) (ss : sample_state) :
  [/\ n_function_evaluations (base (candidate mean a k ss).1) =
      (n_function_evaluations (base ss.1)).+1,
      max_function_evaluations (base (candidate mean a k ss).1) =
      max_function_evaluations (base ss.1) &
      _eye (candidate mean a k ss).1 = _eye ss.1].
Proof.
case: ss => self [x y]; rewrite /candidate.
case: (standard_normal _) => z g; cbv beta iota zeta.
set ev := _evaluate_fitness _ _ _.
have Hn : n_function_evaluations ev.2 = (n_function_evaluations (base self)).+1.
  by [].
have Hm : max_function_evaluations ev.2 = max_function_evaluations (base self).
  by [].
by case: ev Hn Hm => yk b /= Hn Hm.
Qed.

Lemma xnes_iterate_eye self (x : 'M[R]_(n_individuals, N))
    (y : 'cV[R]_n_individuals) (mean : 'cV[R]_N) (a : 'M[R]_N) :
  _eye (iterate self x y mean a).1 = _eye self.
Proof.
rewrite /iterate /iterate_from.
apply: (sampling_inv (P := fun ss : sample_state => _eye ss.1 = _eye self)) => //.
move=> k ss <- _; have [_ _ ->] := xnes_candidate_frame mean a k (check ss).2.
by have [_ _ ->] := xnes_check_frame ss.
Qed.

(** A property [J] of [(a, inv_a, log_det)] that holds of [(I, I, 0)] and
    that [_update_distribution] preserves holds at the head of every pass
    through the loop of [optimize]. *)

Section Invariant.

Variable J : 'M[R]_N -> 'M[R]_N -> R -> Prop.

Hypothesis J_initial : J 1%:M%R 1%:M%R 0.

Hypothesis J_update :
  forall self (x : 'M[R]_(n_individuals, N)) (y : 'cV[R]_n_individuals)
         (mean : 'cV[R]_N) (a inv_a : 'M[R]_N) (log_det : R),
    _eye self = 1%:M%R -> J a inv_a log_det ->
    let r := _update_distribution self x y mean a inv_a log_det in
    J r.1.1.2 r.1.2 r.2.

Definition holds st : Prop :=
  _eye (self_of st) = 1%:M%R /\ J (a_of st) (inv_a_of st) (log_det_of st).

Lemma initialize_holds (restart : bool) self :
  _eye self = 1%:M%R ->
  let r := initialize restart self in
  _eye r.2 = 1%:M%R /\ J r.1.1.1.2 r.1.1.2 r.1.2.
Proof.
by rewrite /initialize; case: (_initialize_mean _ _) => mean b /= ->.
Qed.

Lemma generation_holds st : holds st -> holds (generation st).2.
Proof.
case=> Heye HJ; rewrite /generation.
have := xnes_iterate_eye (self_of st) (x_of st) (y_of st) (mean_of st) (a_of st).
case: (iterate _ _ _ _ _) => self1 [x1 y1]; unlet; rewrite Heye => Heye1.
case: (_check_terminations _ _) => -[] b; unlet; first by split.
set self2 := set_base self1 b.
have Heye2 : _eye self2 = 1%:M%R by [].
have := J_update x1 y1 (mean_of st) Heye2 HJ.
case: (_update_distribution _ _ _ _ _ _ _) => [[[mean2 a2] inv_a2] log_det2].
unlet => HJ2; rewrite /restart_reinitialize; set self3 := set_base self2 _.
have Heye3 : _eye self3 = 1%:M%R by [].
case: (is_restart self3); last by split.
case: (NES_restart_reinitialize _ _) => -[] b4; last by split.
have := initialize_holds true (self := set_base self3 b4) Heye3.
by case: (initialize _ _) => [[[[[[x5 y5] mean5] a5] inv_a5] log_det5] self5].
Qed.

Lemma generations_hold (k : nat) self0 st :
  _eye self0 = 1%:M%R -> generations k (start self0) = Some st -> holds st.
Proof.
move=> Heye; elim: k st => [|k IH] st /=.
  case=> <-; rewrite /start; case: (Optimizer.optimize _ _) => fitness b.
  have := initialize_holds false (self := set_base self0 b) Heye.
  by case: (initialize _ _) => [[[[[[x y] mean] a] inv_a] log_det] self].
case: (generations k (start self0)) IH => // st1 /(_ _ erefl) Hst1.
have := generation_holds Hst1.
by case: (generation st1) => -[] st2 //= Hst2 [<-].
Qed.

End Invariant.

(** What the model uses of the matrix exponential: [expm(-X)] is the
    inverse of [expm(X)], and the determinant of [expm(X)] is the
    exponential of the trace of [X]. *)

Hypothesis expm_inverse : forall X : 'M[R]_N, (expm (- X) *m expm X = 1%:M)%R.

Hypothesis det_expm : forall X : 'M[R]_N, (\det (expm X))%R = exp (\tr X)%R.

Lemma update_inverse self (x : 'M[R]_(n_individuals, N))
    (y : 'cV[R]_n_individuals) (mean : 'cV[R]_N) (a inv_a : 'M[R]_N)
    (log_det : R) :
  (inv_a *m a = 1%:M)%R ->
  let r := _update_distribution self x y mean a inv_a log_det in
  (r.1.2 *m r.1.1.2 = 1%:M)%R.
Proof.
move=> Hinv; rewrite /_update_distribution /=.
by rewrite mulmxA -(mulmxA (expm _) inv_a) Hinv mulmx1 expm_inverse.
Qed.

(** Removing the trace from [g_cv] leaves the isotropic part alone in the
    trace of the exponent. *)

Lemma exponent_trace self (g_cv : 'M[R]_N) :
  _eye self = 1%:M%R ->
  (\tr (exponent self g_cv))%R = 1 / 2 * lr_sigma self * (\tr g_cv)%R.
Proof.
move=> Heye; rewrite /exponent Heye.
rewrite mxtraceZ mxtraceD !mxtraceZ raddfB /= mxtraceZ mxtrace1 -INR_natmul.
case: (posnP N) => [HN0|HN].
  have -> : (\tr g_cv)%R = 0.
    rewrite /mxtrace big1 // => i _.
    by move: (leq_trans (ltn_ord i) (eq_leq HN0)).
  by rewrite /GRing.add /GRing.opp /GRing.mul /=; lra.
have HNR : 0 < INR N by apply: lt_0_INR; apply/ltP.
move: (\tr g_cv)%R => t.
by rewrite /GRing.add /GRing.opp /GRing.mul /=; field; lra.
Qed.

Lemma update_log_det self (x : 'M[R]_(n_individuals, N))
    (y : 'cV[R]_n_individuals) (mean : 'cV[R]_N) (a inv_a : 'M[R]_N)
    (log_det : R) :
  _eye self = 1%:M%R ->
  0 < (\det a)%R /\ log_det = ln (\det a)%R ->
  let r := _update_distribution self x y mean a inv_a log_det in
  0 < (\det r.1.1.2)%R /\ r.2 = ln (\det r.1.1.2)%R.
Proof.
move=> Heye [Hpos ->]; rewrite /_update_distribution /=.
rewrite det_mulmx det_expm exponent_trace //.
set t := 1 / 2 * _ * _; split; first exact: Rmult_lt_0_compat (exp_pos t).
by rewrite /GRing.mul /= ln_mult ?ln_exp //; exact: exp_pos.
Qed.

(** C2.  At the head of every pass through the loop of [XNES.optimize],
    [inv_a] is the inverse of [a]: [inv_a * a = I], so that [a] is
    invertible; the pair starts as [(I, I)], and the [a * expm(d_a)] and
    [expm(-d_a) * inv_a] that [_update_distribution] returns are again
    inverse to each other. *)

Theorem inverse_is_maintained (nes : optimizer N rng) (restart : bool)
    (w : 'cV[R]_n_individuals) (k : nat) st :
  generations k (start (__init__ nes restart w)) = Some st ->
  [/\ (inv_a_of st *m a_of st = 1%:M)%R,
      (\det (a_of st))%R <> 0 &
      forall (x : 'M[R]_(n_individuals, N)) (y : 'cV[R]_n_individuals)
             (mean : 'cV[R]_N) (log_det : R),
        let r :=
          _update_distribution (self_of st) x y mean (a_of st) (inv_a_of st)
            log_det in
        (r.1.2 *m r.1.1.2 = 1%:M)%R].
Proof.
move=> Hk.
have [_ Hinv] : holds (fun a inv_a _ => (inv_a *m a = 1%:M)%R) st.
  apply: generations_hold Hk => //; first by rewrite mulmx1.
  by move=> self x y mean a inv_a log_det _; exact: update_inverse.
split=> //; last by move=> x y mean log_det; exact: update_inverse.
move=> Hdet; have := congr1 determinant Hinv.
rewrite det_mulmx det1 Hdet /GRing.mul /= Rmult_0_r => H01.
by move: R1_neq_R0; rewrite H01.
Qed.

(** Removing [trace / N * eye] from [g_cv] leaves a matrix of trace 0. *)

Lemma trace_removed (g_cv : 'M[R]_N) :
  (\tr (g_cv - (\tr g_cv / INR N)%Re *: (1%:M : 'M[R]_N)))%R = 0.
Proof.
rewrite raddfB /= mxtraceZ mxtrace1 -INR_natmul.
case: (posnP N) => [HN0|HN].
  have -> : (\tr g_cv)%R = 0.
    rewrite /mxtrace big1 // => i _.
    by move: (leq_trans (ltn_ord i) (eq_leq HN0)).
  by rewrite /GRing.add /GRing.opp /GRing.mul /=; lra.
have HNR : 0 < INR N by apply: lt_0_INR; apply/ltP.
move: (\tr g_cv)%R => t.
by rewrite /GRing.add /GRing.opp /GRing.mul /=; field; lra.
Qed.

(** C9.  At the head of every pass through the loop of [XNES.optimize],
    [a] has a positive determinant and [log_det] is its logarithm: it
    starts at 0 with [a = I], and a call of [_update_distribution] from
    there, on any population, multiplies the factor [expm(d_a)] onto [a]
    and adds [0.5 * lr_sigma * trace] to [log_det], for [trace] the trace
    of the [g_cv] it computes.  That increment is the trace of the exponent
    [d_a] (the trace-removed [g_cv] has trace 0 and contributes nothing),
    that is the logarithm of the determinant of [expm(d_a)]; so the
    [log_det] that the update returns is again the logarithm of the
    determinant of the [a] it returns. *)

Theorem log_det_is_log_determinant (nes : optimizer N rng) (restart : bool)
    (w : 'cV[R]_n_individuals) (k : nat) st :
  generations k (start (__init__ nes restart w)) = Some st ->
  [/\ 0 < (\det (a_of st))%R,
      log_det_of st = ln (\det (a_of st))%R,
      forall g_cv : 'M[R]_N,
        (\tr (exponent (self_of st) g_cv))%R =
        1 / 2 * lr_sigma (self_of st) * (\tr g_cv)%R,
      forall g_cv : 'M[R]_N,
        ln (\det (expm (exponent (self_of st) g_cv)))%R =
        1 / 2 * lr_sigma (self_of st) * (\tr g_cv)%R &
      forall (x : 'M[R]_(n_individuals, N)) (y : 'cV[R]_n_individuals)
             (mean : 'cV[R]_N),
        let r :=
          _update_distribution (self_of st) x y mean (a_of st) (inv_a_of st)
            (log_det_of st) in
        let g_cv :=
          covariance_gradient (self_of st)
            (whitened x mean (inv_a_of st)) (utilities (self_of st) y) in
        let d_a := exponent (self_of st) g_cv in
        [/\ r.1.1.2 = (a_of st *m expm d_a)%R,
            r.2 = log_det_of st + 1 / 2 * lr_sigma (self_of st) * (\tr g_cv)%R,
            (\tr (g_cv - (\tr g_cv / INR N)%Re *: _eye (self_of st)))%R = 0 /\
            (\tr d_a)%R = 1 / 2 * lr_sigma (self_of st) * (\tr g_cv)%R,
            ln (\det (expm d_a))%R =
            1 / 2 * lr_sigma (self_of st) * (\tr g_cv)%R &
            0 < (\det r.1.1.2)%R /\ r.2 = ln (\det r.1.1.2)%R]].
Proof.
move=> Hk.
have [Heye [Hpos Hlog]] :
    holds (fun a _ log_det => 0 < (\det a)%R /\ log_det = ln (\det a)%R) st.
  apply: generations_hold Hk => //.
    by rewrite det1 ln_1; split=> //; exact: Rlt_0_1.
  by move=> self x y mean a inv_a log_det; exact: update_log_det.
split=> // [g_cv|g_cv|x y mean r g_cv d_a]; first exact: exponent_trace.
  by rewrite det_expm ln_exp exponent_trace.
split=> //.
- by split; [rewrite Heye; exact: trace_removed | exact: exponent_trace].
- by rewrite det_expm ln_exp exponent_trace.
- exact: (update_log_det x y mean (inv_a_of st) Heye (conj Hpos Hlog)).
Qed.

(** *** The sampling loop and the budget of [XNES] *)

Definition evals self : nat := n_function_evaluations (base self).

Definition budget self : option nat := max_function_evaluations (base self).

Section Iterate.

Variables (self : xnes) (x : 'M[R]_(n_individuals, N)).
Variables (y : 'cV[R]_n_individuals) (mean : 'cV[R]_N) (a : 'M[R]_N).

Lemma xnes_iterate_budget (m n0 : nat) :
  budget self = Some m -> (evals self <= maxn m n0)%nat ->
  budget (iterate self x y mean a).1 = Some m /\
  (evals (iterate self x y mean a).1 <= maxn m n0)%nat.
Proof.
move=> Hm Hn; rewrite /iterate /iterate_from.
apply: (sampling_inv
  (P := fun ss : sample_state =>
          budget ss.1 = Some m /\ (evals ss.1 <= maxn m n0)%nat)) => //.
move=> k ss [Hb He] Hstop; rewrite /budget /evals.
have [-> -> _] := xnes_candidate_frame mean a k (check ss).2.
have [-> -> _ _ Hc] := xnes_check_frame ss; split=> //.
apply: leq_trans (leq_maxl _ _); rewrite Hc in Hstop.
exact: check_terminations_budget Hb Hstop.
Qed.

Lemma xnes_iterate_early (k : 'I_n_individuals) :
  (forall i j : nat, (i <= j)%nat -> time_time i <= time_time j) ->
  (iterate_from self x y mean a).1 = Some k ->
  evals (iterate self x y mean a).1 = (evals self + k)%nat /\
  (_check_terminations time_time (base (iterate self x y mean a).1)).1.
Proof.
move=> Hmono; rewrite /iterate /iterate_from => Hk; split.
  rewrite (sampling_count (count := fun ss : sample_state => evals ss.1))
    ?enum_uniq //.
  - by move=> i ss; rewrite /evals; have [->] := xnes_candidate_frame mean a i ss.
  - by rewrite /sampled Hk index_enum_ord.
have [ss0 [Hfired Hss0]] := sampling_early Hk.
rewrite Hss0.
have [_ _ _ _ Hc] := xnes_check_frame ss0; rewrite Hc in Hfired.
have -> : base (check ss0).2.1 = (_check_terminations time_time (base ss0.1)).2.
  by rewrite /check; case: (_check_terminations _ _).
exact: check_terminations_stable.
Qed.

End Iterate.

(** When the sampling loop returned early, [optimize] leaves by [break]:
    the distribution is the one the generation started with. *)

Lemma xnes_generation_early st (k : 'I_n_individuals) :
  (forall i j : nat, (i <= j)%nat -> time_time i <= time_time j) ->
  (iterate_from (self_of st) (x_of st) (y_of st) (mean_of st) (a_of st)).1 =
  Some k ->
  exists st' : loop_state,
    [/\ generation st = (true, st'),
        evals (self_of st') = (evals (self_of st) + k)%nat,
        [/\ mean_of st' = mean_of st, a_of st' = a_of st &
            inv_a_of st' = inv_a_of st] &
        log_det_of st' = log_det_of st].
Proof.
move=> Hmono Hk; rewrite /generation.
have [] := xnes_iterate_early Hmono Hk.
case: (iterate _ _ _ _ _) => self1 [x1 y1]; unlet => Hn Hfire.
have [_ Hnc _ _ _] := check_terminations_frame time_time (base self1).
case: (_check_terminations _ _) Hfire Hnc => stop b; unlet => -> Hnc.
by eexists; split; first by []; rewrite /evals /= ?Hnc.
Qed.

(** [NES._initialize_mean] and [NES.restart_reinitialize] neither evaluate
    the fitness function nor change the budget (section 4.3). *)

Hypothesis initialize_mean_keeps :
  forall (restart : bool) (b : optimizer N rng),
    n_function_evaluations (_initialize_mean restart b).2 =
    n_function_evaluations b /\
    max_function_evaluations (_initialize_mean restart b).2 =
    max_function_evaluations b.

Hypothesis restart_keeps :
  forall (b : optimizer N rng) (y : 'cV[R]_n_individuals),
    n_function_evaluations (NES_restart_reinitialize b y).2 =
    n_function_evaluations b /\
    max_function_evaluations (NES_restart_reinitialize b y).2 =
    max_function_evaluations b.

Definition within_budget (m n0 : nat) self : Prop :=
  budget self = Some m /\ (evals self <= maxn m n0)%nat.

Lemma xnes_initialize_budget (restart : bool) self :
  evals (initialize restart self).2 = evals self /\
  budget (initialize restart self).2 = budget self.
Proof.
rewrite /initialize /evals /budget /=.
have := initialize_mean_keeps restart (base self).
by case: (_initialize_mean _ _) => mean b.
Qed.

Lemma xnes_generation_budget (m n0 : nat) st :
  within_budget m n0 (self_of st) ->
  within_budget m n0 (self_of (generation st).2).
Proof.
rewrite /within_budget => -[Hm Hn]; rewrite /generation.
have := xnes_iterate_budget (x_of st) (y_of st) (mean_of st) (a_of st) Hm Hn.
case: (iterate _ _ _ _ _) => self1 [x1 y1]; unlet => -[Hm1 Hn1].
have [Hmc Hnc _ _ _] := check_terminations_frame time_time (base self1).
case: (_check_terminations _ _) Hmc Hnc => -[] b; unlet => Hmc Hnc.
  by split; rewrite /budget /evals /= ?Hmc ?Hnc.
case: (_update_distribution _ _ _ _ _ _ _) => [[[mean2 a2] inv_a2] log_det2].
unlet; rewrite /restart_reinitialize; set self3 := set_base (set_base self1 b) _.
have Hm3 : budget self3 = Some m by rewrite /budget /= Hmc.
have Hn3 : (evals self3 <= maxn m n0)%nat by rewrite /evals /= Hnc.
case: (is_restart self3); last by [].
have [Hn4 Hm4] := restart_keeps (base self3) y1.
case: (NES_restart_reinitialize _ _) Hn4 Hm4 => -[] b4 /= Hn4 Hm4; last first.
  by split; rewrite /budget /evals /= ?Hm4 ?Hn4.
have [] := xnes_initialize_budget true (set_base self3 b4).
case: (initialize _ _) => [[[[[[x5 y5] mean5] a5] inv_a5] log_det5] self5] /=.
by move=> -> ->; split; rewrite /budget /evals /= ?Hm4 ?Hn4.
Qed.

Lemma xnes_loop_budget (m n0 fuel : nat) st st' :
  within_budget m n0 (self_of st) ->
  optimize_loop fuel st = Done st' ->
  within_budget m n0 (self_of st').
Proof.
elim: fuel st => [|fuel IH] st //= Hst.
have := xnes_generation_budget Hst.
case: (generation st) => -[] st1 /= Hst1; first by case=> <-.
exact: IH.
Qed.

(** Every candidate evaluation of [XNES] follows a termination check that
    did not fire: the evaluation counter of a result never exceeds the
    budget it started within. *)

Lemma xnes_optimize_budget (m fuel : nat) self (r : xnes_results) :
  budget self = Some m ->
  optimize fuel self = Done r ->
  (r_n_function_evaluations (common r) <= maxn m (evals self))%nat.
Proof.
move=> Hm; rewrite /optimize.
case Hloop: (optimize_loop fuel (start self)) => [st'| |] // [<-] /=.
have Hstart : within_budget m (evals self) (self_of (start self)).
  rewrite /start /=.
  have [] := xnes_initialize_budget false
    (set_base self (Optimizer.optimize time_time (base self)).2).
  case: (initialize _ _) => [[[[[[x0 y0] mean0] a0] inv_a0] log_det0] self0] /=.
  by move=> Hn0 Hm0; split; rewrite /= ?Hm0 ?Hn0 // /evals /= leq_maxr.
by have := xnes_loop_budget Hstart Hloop; rewrite /within_budget => -[].
Qed.

(** *** More on the ranking weights and the utilities *)

Lemma rank_weight_arg (i : 'I_n_individuals) : 0 < INR n_individuals - INR i.
Proof. by have /ltP/lt_INR := ltn_ord i; lra. Qed.

(** X16.  The weights that [initialize] computes,
    [max (0, ln (n / 2 + 1) - ln (n - i))], are non-negative and do not
    decrease with the rank [i]; they are zero on the first half of the ranks
    ([2 * (i + 1) <= n]) and positive on the others, where rank [i] is the
    position in [order = np.argsort(-y)]. *)

Theorem rank_weights_favour_late_ranks (i j : 'I_n_individuals) :
  [/\ 0 <= rank_weights i ord0,
      (i <= j)%nat -> rank_weights i ord0 <= rank_weights j ord0,
      (2 * i.+1 <= n_individuals)%nat -> rank_weights i ord0 = 0 &
      (n_individuals < 2 * i.+1)%nat -> 0 < rank_weights i ord0].
Proof.
rewrite !mxE; have Hi := rank_weight_arg i; have Hj := rank_weight_arg j.
have Hhalf : 0 < INR n_individuals / 2 + 1.
  by have := pos_INR n_individuals; lra.
split.
- exact: Rmax_l.
- move=> /leP/le_INR Hij; apply: Rle_max_compat_l.
  by have := @ln_monotone (INR n_individuals - INR j) (INR n_individuals - INR i)
       Hj; lra.
- rewrite mul2n -addnn => /leP/le_INR; rewrite -plusE plus_INR S_INR => Hle.
  apply: Rmax_left.
  by have := @ln_monotone (INR n_individuals / 2 + 1)
       (INR n_individuals - INR i) Hhalf; lra.
- rewrite mul2n -addnn => /ltP/lt_INR; rewrite -plusE plus_INR S_INR => Hlt.
  apply: Rlt_le_trans (Rmax_r _ _).
  by have := @ln_increasing (INR n_individuals - INR i)
       (INR n_individuals / 2 + 1) Hi; lra.
Qed.

Lemma ranked_at self (order : 'S_n_individuals) (o : 'I_n_individuals) :
  ranked self order o ord0 = _w self (((order^-1)%g : 'S_n_individuals) o) ord0.
Proof.
by rewrite -{1}[o](permKV order) /ranked ranked_items ?enum_uniq // mem_enum.
Qed.

(** X17.  Every utility that [_update_distribution] computes lies between
    [-1 / n_individuals] and [1 - 1 / n_individuals]: the ranked weights are
    non-negative and each is at most their sum. *)

Theorem utilities_are_bounded (restart : bool) self0
    (y : 'cV[R]_n_individuals) (o : 'I_n_individuals) :
  - (1 / INR n_individuals) <=
  utilities (initialize restart self0).2 y o ord0 <=
  1 - 1 / INR n_individuals.
Proof.
have [Hw _] := initialize_weights restart self0.
have Hn : (0 < n_individuals)%nat by exact: leq_ltn_trans (ltn_ord o).
rewrite /utilities mxE ranked_sum ranked_at Hw.
set i := (_ : 'S_n_individuals) o.
have Hpos := rank_weights_sum_pos Hn.
have Hi0 : 0 <= rank_weights i ord0 by rewrite mxE; exact: Rmax_l.
have Hle : rank_weights i ord0 <= (\sum_j rank_weights j ord0)%R.
  rewrite (bigD1 i) //=.
  have := @sum_nonneg _ (fun j => j != i) (fun j => rank_weights j ord0).
  have Hall j : 0 <= rank_weights j ord0 by rewrite mxE; exact: Rmax_l.
  move=> /(_ Hall); move: (\sum_(j < n_individuals | j != i) _)%R => T HT.
  by rewrite /GRing.add /=; lra.
move: (\sum_j rank_weights j ord0)%R Hpos Hle => S Hpos Hle.
have Hinv : 0 < / S by apply: Rinv_0_lt_compat.
have H0 : 0 <= rank_weights i ord0 / S by apply: Rmult_le_pos => //; lra.
have H1 : rank_weights i ord0 / S <= 1.
  have := Rmult_le_compat_r (/ S) _ _ (Rlt_le _ _ Hinv) Hle.
  by rewrite Rinv_r; lra.
by lra.
Qed.

(** *** What [iterate] and the whitening leave in the arrays *)

(** Row [k] of [x] and entry [k] of [y]. *)

Definition rows_at (ss : sample_state) (k : 'I_n_individuals) : 'cV[R]_N * R :=
  (get_row ss.2.1 k, ss.2.2 k ord0).

Lemma xnes_candidate_rows (mean : 'cV[R]_N) (a : 'M[R]_N)
    (k : 'I_n_individuals) (ss : sample_state) :
  let z := (standard_normal (rng_optimization (base ss.1))).1 in
  rows_at (candidate mean a k ss) k =
  ((mean + a *m z)%R, fitness_function (mean + a *m z)%R) /\
  forall i, i != k -> rows_at (candidate mean a k ss) i = rows_at ss i.
Proof.
case: ss => self [x y]; rewrite /candidate /rows_at.
case: (standard_normal _) => z g; cbv beta iota zeta.
set ev := _evaluate_fitness _ _ _.
have Hy : ev.1 = _ := evaluate_fitness_value _ _ _.
case: ev Hy => yk b /= ->.
rewrite !get_row_set_row !set_item_at !eqxx; split=> //.
by move=> i /negbTE Hik; rewrite !get_row_set_row set_item_at Hik.
Qed.

Lemma xnes_check_rows (ss : sample_state) (i : 'I_n_individuals) :
  rows_at (check ss).2 i = rows_at ss i.
Proof. by rewrite /rows_at; have [_ _ _ ->] := xnes_check_frame ss. Qed.

(** [iterate] draws from the generator once per candidate and nothing else
    touches it: candidate [k] of a complete pass gets draw [k] of the
    generator that [self] holds when [iterate] is called. *)

Definition next_generator (g : rng) : rng := (standard_normal g).2.

Definition draw self (k : nat) : 'cV[R]_N :=
  (standard_normal (iter k next_generator (rng_optimization (base self)))).1.

Lemma xnes_iterate_draws self (x : 'M[R]_(n_individuals, N))
    (y : 'cV[R]_n_individuals) (mean : 'cV[R]_N) (a : 'M[R]_N)
    (k : 'I_n_individuals) :
  (iterate_from self x y mean a).1 = None ->
  rows_at (iterate self x y mean a) k =
  ((mean + a *m draw self k)%R,
   fitness_function (mean + a *m draw self k)%R).
Proof.
rewrite /iterate /iterate_from => Hn.
have := @sampling_counted _ _ check (candidate mean a) _ rows_at
  (fun j (ss : sample_state) =>
     rng_optimization (base ss.1) =
     iter j next_generator (rng_optimization (base self)))
  (fun j _ r =>
     r = ((mean + a *m draw self j)%R,
          fitness_function (mean + a *m draw self j)%R))
  xnes_check_rows _
  (fun i (ss : sample_state) i' Hi => (xnes_candidate_rows mean a i ss).2 i' Hi)
  _ _ 0 (enum 'I_n_individuals) (self, (x, y)) (enum_uniq _) erefl Hn k.
rewrite mem_enum index_enum_ord add0n; apply=> //.
- move=> j i [self1 [x1 y1]] Hg.
  have {}Hg : rng_optimization (base self1) =
              iter j next_generator (rng_optimization (base self)) := Hg.
  rewrite iterS -Hg /next_generator /candidate.
  case: (standard_normal _) => z g; cbv beta iota zeta.
  set ev := _evaluate_fitness _ _ _.
  have : rng_optimization ev.2 = g by [].
  by case: ev.
- move=> j i ss Hg; rewrite (xnes_candidate_rows mean a i ss).1.
  by rewrite /draw -Hg.
Qed.

Lemma whitened_row (x : 'M[R]_(n_individuals, N)) (mean : 'cV[R]_N)
    (inv_a : 'M[R]_N) (k : 'I_n_individuals) :
  get_row (whitened x mean inv_a) k = (inv_a *m (get_row x k - mean))%R.
Proof.
pose F (k : 'I_n_individuals) (_ : 'cV[R]_N) : 'cV[R]_N :=
  (inv_a *m (get_row x k - mean))%R.
rewrite /whitened.
have -> : (fun (s : 'M[R]_(n_individuals, N)) k =>
             set_row s k (inv_a *m (get_row x k - mean))%R) =
          fun m k => set_row m k (F k (get_row m k)) by [].
by rewrite get_row_foldl ?enum_uniq // mem_enum.
Qed.

(** X18.  When [XNES.iterate] samples the whole population, [x[k]] is
    [mean + a z_k] for [z_k] the [k]-th standard normal draw of the
    generator that [self] holds, and [y[k]] is the fitness of [x[k]]; with
    [inv_a] the inverse of [a], the whitening [s[k] = inv_a (x[k] - mean)]
    of [_update_distribution] gives back exactly that draw [z_k], so no
    entry of the [np.empty] array [s] survives. *)

Theorem whitening_recovers_the_draws self (x : 'M[R]_(n_individuals, N))
    (y : 'cV[R]_n_individuals) (mean : 'cV[R]_N) (a inv_a : 'M[R]_N)
    (k : 'I_n_individuals) :
  (iterate_from self x y mean a).1 = None ->
  (inv_a *m a = 1%:M)%R ->
  let ss := iterate self x y mean a in
  [/\ get_row ss.2.1 k = (mean + a *m draw self k)%R,
      ss.2.2 k ord0 = fitness_function (get_row ss.2.1 k) &
      get_row (whitened ss.2.1 mean inv_a) k = draw self k].
Proof.
move=> Hn Hinv ss; have := xnes_iterate_draws k Hn.
rewrite /rows_at -/ss => -[Hx Hy]; split=> //; first by rewrite Hy Hx.
by rewrite whitened_row Hx addrC addKr mulmxA Hinv mul1mx.
Qed.

(** X19.  The matrices that [_update_distribution] builds are symmetric as
    long as [_eye] is the identity: [g_cv] is, its trace-free part is, and so
    is the argument [d_a] of the matrix exponential. *)

Theorem exponent_is_symmetric self (s : 'M[R]_(n_individuals, N))
    (u : 'cV[R]_n_individuals) :
  _eye self = 1%:M%R ->
  ((covariance_gradient self s u)^T = covariance_gradient self s u)%R /\
  ((exponent self (covariance_gradient self s u))^T =
   exponent self (covariance_gradient self s u))%R.
Proof.
move=> Heye.
have Hg : ((covariance_gradient self s u)^T = covariance_gradient self s u)%R.
  apply/matrixP => i j; rewrite !mxE; apply: eq_bigr => k _.
  by rewrite Heye !mxE eq_sym [(s k i * _)%R]mulrC.
split=> //; rewrite /exponent Heye.
move: (covariance_gradient self s u) Hg => g Hg; apply/matrixP => i j.
have Hgij : g j i = g i j by move/matrixP/(_ i j): Hg; rewrite mxE.
by rewrite !mxE Hgij eq_sym.
Qed.

(** With no limit set, [iterate] samples the whole population. *)

Lemma xnes_iterate_unlimited self (x : 'M[R]_(n_individuals, N))
    (y : 'cV[R]_n_individuals) (mean : 'cV[R]_N) (a : 'M[R]_N) :
  unlimited (base self) -> (iterate_from self x y mean a).1 = None.
Proof.
move=> Hself; rewrite /iterate_from.
apply: (sampling_complete (P := fun ss : sample_state => unlimited (base ss.1)))
  => // [ss Hss|k [self1 [x1 y1]] Hss].
  have [_ _ _ _ ->] := xnes_check_frame ss.
  have -> : base (check ss).2.1 = (_check_terminations time_time (base ss.1)).2.
    by rewrite /check; case: (_check_terminations _ _).
  exact: check_terminations_unlimited.
have {}Hss : unlimited (base self1) := Hss.
rewrite /candidate; case: (standard_normal _) => z g; cbv beta iota zeta.
set ev := _evaluate_fitness _ _ _.
have : unlimited ev.2 by apply: evaluate_fitness_unlimited.
by case: ev.
Qed.

(** *** The learning rates *)

Lemma learning_rate_pos : (0 < N)%nat ->
  0 < 6 / 10 * (3 + ln (INR N)) / INR N / sqrt (INR N).
Proof.
move=> /ltP HN.
have HN1 : 1 <= INR N by rewrite -[1]/(INR 1); apply: le_INR.
have Hln : 0 <= ln (INR N) by rewrite -ln_1; apply: ln_monotone => //; lra.
have Hsqrt : 0 < sqrt (INR N) by apply: sqrt_lt_R0; lra.
apply: Rmult_lt_0_compat; last exact: Rinv_0_lt_compat.
apply: Rmult_lt_0_compat; last by apply: Rinv_0_lt_compat; lra.
by apply: Rmult_lt_0_compat; lra.
Qed.

(** X20.  For a problem of dimension at least one, the two learning rates
    that [__init__] sets are equal and positive, and [initialize] keeps
    them.  So [_update_distribution] moves [log_det], the logarithm of the
    volume of the search distribution, in the direction of the trace of
    [g_cv]: up when the trace is positive, down when it is negative. *)

Theorem log_det_follows_trace (nes : optimizer N rng) (restart r : bool)
    (w : 'cV[R]_n_individuals) (x : 'M[R]_(n_individuals, N))
    (y : 'cV[R]_n_individuals) (mean : 'cV[R]_N) (a inv_a : 'M[R]_N)
    (log_det : R) :
  (0 < N)%nat ->
  let self := (initialize r (__init__ nes restart w)).2 in
  let g_cv :=
    covariance_gradient self (whitened x mean inv_a) (utilities self y) in
  let log_det' := (_update_distribution self x y mean a inv_a log_det).2 in
  [/\ lr_cv self = lr_sigma self, 0 < lr_sigma self,
      0 < (\tr g_cv)%R -> log_det < log_det' &
      (\tr g_cv)%R < 0 -> log_det' < log_det].
Proof.
move=> HN self g_cv log_det'.
have Hlr : lr_cv self = lr_sigma self /\
           lr_sigma self = 6 / 10 * (3 + ln (INR N)) / INR N / sqrt (INR N).
  by rewrite /self /initialize; case: (_initialize_mean _ _).
case: Hlr => Hcv Hsigma; have Hpos := learning_rate_pos HN.
rewrite -Hsigma in Hpos.
have Hlog : log_det' = log_det + 1 / 2 * lr_sigma self * (\tr g_cv)%R by [].
split=> //; rewrite Hlog; move: (\tr g_cv)%R (lr_sigma self) Hpos => t c Hc Ht.
  have H : 0 < c * t by apply: Rmult_lt_0_compat.
  by lra.
have H : 0 < c * - t by apply: Rmult_lt_0_compat; lra.
by lra.
Qed.

(** *** [XNES.optimize] comes to an end *)

(** A pass that does not break sampled the whole population, and its last
    check found the budget not yet spent. *)

Lemma xnes_generation_full st :
  (forall i j : nat, (i <= j)%nat -> time_time i <= time_time j) ->
  (generation st).1 = false ->
  [/\ evals (self_of (generation st).2) = (evals (self_of st) + n_individuals)%nat,
      budget (self_of (generation st).2) = budget (self_of st) &
      forall m : nat, budget (self_of st) = Some m ->
        (evals (self_of st) + n_individuals < m)%nat].
Proof.
move=> Hmono.
case Hk: (iterate_from (self_of st) (x_of st) (y_of st) (mean_of st)
            (a_of st)).1 => [k|].
  by have [st1 [-> _ _ _]] := xnes_generation_early Hmono Hk.
have Hn : evals (iterate (self_of st) (x_of st) (y_of st) (mean_of st)
                   (a_of st)).1 =
          (evals (self_of st) + n_individuals)%nat.
  rewrite /iterate /iterate_from.
  rewrite (sampling_count (count := fun ss : sample_state => evals ss.1))
    ?enum_uniq //.
  - by move=> i ss; rewrite /evals;
      have [->] := xnes_candidate_frame (mean_of st) (a_of st) i ss.
  - by rewrite /sampled -/(iterate_from _ _ _ _ _) Hk size_enum_ord.
have Hm : budget (iterate (self_of st) (x_of st) (y_of st) (mean_of st)
                    (a_of st)).1 = budget (self_of st).
  rewrite /iterate /iterate_from.
  apply: (sampling_inv
    (P := fun ss : sample_state => budget ss.1 = budget (self_of st))) => //.
  move=> i ss <- _; rewrite /budget.
  have [_ -> _] := xnes_candidate_frame (mean_of st) (a_of st) i (check ss).2.
  by have [_ ->] := xnes_check_frame ss.
rewrite /generation.
case: (iterate _ _ _ _ _) Hn Hm => self1 [x1 y1]; unlet => Hn1 Hm1.
have [Hmc Hnc _ _ _] := check_terminations_frame time_time (base self1).
have Hb := @check_terminations_budget _ _ time_time (base self1).
case: (_check_terminations _ _) Hmc Hnc Hb => -[] b; unlet => Hmc Hnc Hb //.
have Hlt (m : nat) : budget (self_of st) = Some m ->
    (evals (self_of st) + n_individuals < m)%nat.
  by rewrite -Hm1 -Hn1 => Hm; apply: Hb.
case: (_update_distribution _ _ _ _ _ _ _) => [[[mean2 a2] inv_a2] log_det2].
unlet; rewrite /restart_reinitialize; set self3 := set_base (set_base self1 b) _.
have Hm3 : budget self3 = budget (self_of st) by rewrite /budget /= Hmc.
have Hn3 : evals self3 = (evals (self_of st) + n_individuals)%nat.
  by rewrite /evals /= Hnc.
case: (is_restart self3); last by [].
have [Hn4 Hm4] := restart_keeps (base self3) y1.
case: (NES_restart_reinitialize _ _) Hn4 Hm4 => -[] b4 /= Hn4 Hm4 _; last first.
  by split; rewrite /budget /evals /= ?Hm4 ?Hn4.
have [] := xnes_initialize_budget true (set_base self3 b4).
case: (initialize _ _) => [[[[[[x5 y5] mean5] a5] inv_a5] log_det5] self5] /=.
by move=> -> ->; split; rewrite /budget /evals /= ?Hm4 ?Hn4.
Qed.

Lemma xnes_loop_done (m fuel : nat) st :
  (forall i j : nat, (i <= j)%nat -> time_time i <= time_time j) ->
  (0 < n_individuals)%nat ->
  budget (self_of st) = Some m ->
  (0 < fuel)%nat -> (m <= evals (self_of st) + fuel)%nat ->
  exists st' : loop_state, optimize_loop fuel st = Done st'.
Proof.
move=> Hmono Hpop; elim: fuel st => [|fuel IH] st //= Hm _ Hle.
have := @xnes_generation_full st Hmono.
case: (generation st) => -[] st1 /=; first by exists st1.
move=> /(_ erefl) [Hn1 Hm1 Hlt].
have {}Hlt := Hlt m Hm.
have H1 : ((evals (self_of st)).+1 < m)%nat.
  by apply: leq_ltn_trans Hlt; rewrite -addn1 leq_add2l.
apply: IH; rewrite ?Hm1 //.
  by case: fuel Hle => // Hle; move: (leq_trans H1 Hle); rewrite addn1 ltnn.
rewrite Hn1; apply: leq_trans Hle _.
by rewrite addnS -addSn leq_add2r -addn1 leq_add2l.
Qed.

(** X21.  A run of [XNES.optimize] with an evaluation budget [m] and a
    non-empty population returns a result: called with the counter at [n0],
    it leaves its loop within [max (1, m - n0)] passes, because every pass
    that does not break evaluates the whole population and no method of
    [XNES] raises.  (The clock does not run backwards; the base class is the
    one modelled above, and its restart test does not touch the counters.) *)

Theorem xnes_optimize_returns (m fuel : nat) self :
  (forall i j : nat, (i <= j)%nat -> time_time i <= time_time j) ->
  (0 < n_individuals)%nat ->
  budget self = Some m ->
  (0 < fuel)%nat -> (m <= evals self + fuel)%nat ->
  exists r : xnes_results, optimize fuel self = Done r.
Proof.
move=> Hmono Hpop Hm Hfuel Hle; rewrite /optimize.
have Hstart : budget (self_of (start self)) = Some m /\
              evals (self_of (start self)) = evals self.
  rewrite /start /=.
  have [] := xnes_initialize_budget false
    (set_base self (Optimizer.optimize time_time (base self)).2).
  by case: (initialize _ _) => [[[[[[x0 y0] mean0] a0] inv_a0] log_det0] self0] /= -> ->.
case: Hstart => Hm0 Hn0.
have [|st' ->] := @xnes_loop_done m fuel (start self) Hmono Hpop Hm0 Hfuel.
  by rewrite Hn0.
by eexists.
Qed.

(** With no limit set, a pass through the loop of [optimize] does not
    break. *)

Lemma xnes_check_unlimited (ss : sample_state) :
  unlimited (base ss.1) ->
  (check ss).1 = false /\ unlimited (base (check ss).2.1).
Proof.
move=> Hss; have [_ _ _ _ ->] := xnes_check_frame ss.
have -> : base (check ss).2.1 = (_check_terminations time_time (base ss.1)).2.
  by rewrite /check; case: (_check_terminations _ _).
exact: check_terminations_unlimited.
Qed.

Lemma xnes_candidate_unlimited (mean : 'cV[R]_N) (a : 'M[R]_N)
    (k : 'I_n_individuals) (ss : sample_state) :
  unlimited (base ss.1) -> unlimited (base (candidate mean a k ss).1).
Proof.
case: ss => self1 [x1 y1] Hss.
have {}Hss : unlimited (base self1) := Hss.
rewrite /candidate; case: (standard_normal _) => z g; cbv beta iota zeta.
set ev := _evaluate_fitness _ _ _.
have : unlimited ev.2 by apply: evaluate_fitness_unlimited.
by case: ev.
Qed.

Lemma xnes_generation_unlimited st :
  unlimited (base (self_of st)) -> (generation st).1 = false.
Proof.
move=> Hst.
have Hu : unlimited (base (iterate (self_of st) (x_of st) (y_of st)
                            (mean_of st) (a_of st)).1).
  rewrite /iterate /iterate_from.
  apply: (sampling_inv
    (P := fun ss : sample_state => unlimited (base ss.1))) => //.
  move=> i ss Hss _; have [_ {}Hss] := xnes_check_unlimited Hss.
  exact: xnes_candidate_unlimited.
rewrite /generation.
case: (iterate _ _ _ _ _) Hu => self1 [x1 y1]; unlet => Hu.
have [Hc _] := check_terminations_unlimited time_time Hu.
case: (_check_terminations _ _) Hc => stop b; unlet => ->.
case: (_update_distribution _ _ _ _ _ _ _) => [[[mean2 a2] inv_a2] log_det2].
by unlet; case: (restart_reinitialize _ _) => [[[[[[x3 y3] m3] a3] i3] l3] s3].
Qed.

End XNES.

(** *** [XNES] on the sample problem: dimension one, a population of
    four, and [exp] as the matrix exponential. *)

Definition sample_self (budget : option nat) : xnes 1 4 nat :=
  __init__ (Sample.fresh budget 1) false (0 : 'cV[R]_4)%R.

Definition sample_start (budget : option nat) : loop_state 1 4 nat :=
  start Sample.time_time Sample.np_empty Sample.initialize_mean
    (sample_self budget).

Lemma inverse_is_maintained_witness :
  (inv_a_of (sample_start None) *m a_of (sample_start None) = 1%:M)%R /\
  (\det (a_of (sample_start None)))%R <> 0.
Proof.
have [Hinv Hdet _] :=
  inverse_is_maintained (fitness_function := Sample.sphere)
    (standard_normal := Sample.standard_normal) (argsort := Sample.argsort)
    (NES_restart_reinitialize := Sample.restart_reinitialize)
    Sample.expm_inverse (k := 0)
    (erefl (Some (sample_start None))).
by [].
Defined.

Lemma sample_first_generation :
  exists st : loop_state 1 4 nat,
    generations Sample.sphere Sample.time_time Sample.standard_normal
      Sample.np_empty Sample.argsort Sample.expm Sample.initialize_mean
      Sample.restart_reinitialize 1 (sample_start None) = Some st.
Proof.
have := xnes_generation_unlimited Sample.sphere Sample.time_time
  Sample.standard_normal Sample.np_empty Sample.argsort Sample.expm
  Sample.initialize_mean Sample.restart_reinitialize
  (st := sample_start None).
rewrite /generations => /(_ (And3 erefl erefl erefl)).
by case: (generation _ _ _ _ _ _ _ _ _) => stop st /= ->; exists st.
Qed.

(** After one pass through the loop on the sample, that is after one call
    of [_update_distribution], [log_det] is the logarithm of the determinant
    of [a]; and a second update adds [0.5 * lr_sigma * trace]. *)

Lemma log_det_witness :
  exists st : loop_state 1 4 nat,
    [/\ generations Sample.sphere Sample.time_time Sample.standard_normal
          Sample.np_empty Sample.argsort Sample.expm Sample.initialize_mean
          Sample.restart_reinitialize 1 (sample_start None) = Some st,
        0 < (\det (a_of st))%R /\ log_det_of st = ln (\det (a_of st))%R &
        let r :=
          _update_distribution Sample.np_empty Sample.argsort Sample.expm
            (self_of st) (x_of st) (y_of st) (mean_of st) (a_of st)
            (inv_a_of st) (log_det_of st) in
        r.2 = ln (\det r.1.1.2)%R].
Proof.
have [st Hst] := sample_first_generation; exists st.
have [Hpos Hlog _ _ Hupd] :=
  log_det_is_log_determinant (fitness_function := Sample.sphere)
    (standard_normal := Sample.standard_normal) (argsort := Sample.argsort)
    (NES_restart_reinitialize := Sample.restart_reinitialize)
    Sample.det_expm (k := 1) Hst.
split=> //.
by have [_ _ _ _ [_ H]] := Hupd (x_of st) (y_of st) (mean_of st); exact: H.
Defined.


(** *** The further facts on the sample problem *)

(** With no limit set, the four candidates of the sample are all sampled. *)

Lemma xnes_sample_iterate_complete :
  (iterate_from Sample.sphere Sample.time_time Sample.standard_normal
     (sample_self None) 0 0 0 1%:M)%R.1 = None.
Proof. by apply: xnes_iterate_unlimited; split. Qed.

Lemma whitening_witness :
  let ss :=
    (iterate Sample.sphere Sample.time_time Sample.standard_normal
       (sample_self None) 0 0 0 1%:M)%R in
  [/\ get_row ss.2.1 ord0 = (0 + 1%:M *m const_mx 1)%R,
      ss.2.2 ord0 ord0 = Sample.sphere (get_row ss.2.1 ord0) &
      get_row (whitened Sample.np_empty ss.2.1 0 1%:M)%R ord0 = const_mx 1].
Proof.
exact: (@whitening_recovers_the_draws _ _ _ _ _ _ Sample.np_empty _ _ _ _ _
          (1%:M)%R ord0 xnes_sample_iterate_complete (mulmx1 _)).
Defined.

Lemma exponent_is_symmetric_witness :
  ((exponent (sample_self None)
      (covariance_gradient (sample_self None) (0 : 'M[R]_(4, 1)) 0))^T =
   exponent (sample_self None)
     (covariance_gradient (sample_self None) (0 : 'M[R]_(4, 1)) 0))%R.
Proof.
by have [_ H] :=
  exponent_is_symmetric (self := sample_self None) (0 : 'M[R]_(4, 1))%R
    (0 : 'cV[R]_4)%R erefl.
Defined.

Lemma log_det_follows_trace_witness :
  0 < lr_sigma
        (initialize Sample.np_empty Sample.initialize_mean false
           (sample_self None)).2.
Proof.
by have [_ H _ _] :=
  log_det_follows_trace Sample.np_empty Sample.argsort Sample.expm
    Sample.initialize_mean (Sample.fresh None 1) false false (0 : 'cV[R]_4)%R (0 : 'M[R]_(4, 1))%R
    (0 : 'cV[R]_4)%R (0 : 'cV[R]_1)%R (1%:M : 'M[R]_1)%R (1%:M : 'M[R]_1)%R 0
    (isT : (0 < 1)%nat).
Defined.

Lemma xnes_optimize_returns_witness :
  exists r : xnes_results 1,
    optimize Sample.sphere Sample.time_time Sample.standard_normal
      Sample.np_empty Sample.argsort Sample.expm Sample.initialize_mean
      Sample.restart_reinitialize 8 (sample_self (Some 8%nat)) = Done r.
Proof.
exact: (xnes_optimize_returns Sample.sphere Sample.standard_normal
          Sample.np_empty Sample.argsort Sample.expm
          Sample.initialize_mean_keeps Sample.restart_reinitialize_keeps
          (m := 8) (fuel := 8) (self := sample_self (Some 8%nat))
          Sample.time_time_mono isT erefl isT isT).
Defined.

End XNES.

(** ** The engine: what the variants share *)

Section Engine.

Variables (N n_individuals n_evolution_paths : nat) (rng : Type).
Variable fitness_function : 'cV[R]_N -> R.
Variable time_time : nat -> R.
Variable standard_normal : rng -> 'cV[R]_N * rng.
Variable uniform : rng -> R * rng.
Variable uniform_between : 'cV[R]_N -> 'cV[R]_N -> rng -> 'cV[R]_N * rng.
Variable np_empty : forall a b : nat, 'M[R]_(a, b).
Variable argsort : 'cV[R]_n_individuals -> 'S_n_individuals.
Variable expm : 'M[R]_N -> 'M[R]_N.
Variable initialize_mean :
  bool -> Optimizer.optimizer N rng -> 'cV[R]_N * Optimizer.optimizer N rng.
Variable ES_restart_initialize :
  LMMAES.lmmaes N n_evolution_paths rng ->
  bool * LMMAES.lmmaes N n_evolution_paths rng.
Variable NES_restart_reinitialize :
  Optimizer.optimizer N rng -> 'cV[R]_n_individuals ->
  bool * Optimizer.optimizer N rng.

Local Notation lmmaes_iterate_from :=
  (LMMAES.iterate_from fitness_function time_time standard_normal).
Local Notation lmmaes_generation :=
  (LMMAES.generation fitness_function time_time standard_normal np_empty
     argsort initialize_mean ES_restart_initialize).
Local Notation lmmaes_optimize :=
  (LMMAES.optimize fitness_function time_time standard_normal np_empty
     argsort initialize_mean ES_restart_initialize).
Local Notation xnes_iterate_from :=
  (XNES.iterate_from fitness_function time_time standard_normal).
Local Notation xnes_generation :=
  (XNES.generation fitness_function time_time standard_normal np_empty
     argsort expm initialize_mean NES_restart_reinitialize).
Local Notation xnes_optimize :=
  (XNES.optimize fitness_function time_time standard_normal np_empty
     argsort expm initialize_mean NES_restart_reinitialize).
Local Notation srs_optimize :=
  (SRS.optimize fitness_function time_time standard_normal uniform
     uniform_between).

(** The clock never runs backwards. *)

Hypothesis time_time_mono :
  forall i j : nat, (i <= j)%nat -> time_time i <= time_time j.

(** C1.  In [LMMAES] and in [XNES]: when the termination check of the
    sampling loop fires before candidate [k], [iterate] returns at once, so
    that only [k] candidates of the generation were evaluated, and the pass
    through the loop of [optimize] ends by [break] at its own termination
    check, before [_update_distribution]: the mean and the shape of the
    distribution (and the step-size of [LMMAES]) are those the generation
    started with. *)

Theorem early_exit_skips_update :
  (forall (st : LMMAES.loop_state N n_individuals n_evolution_paths rng)
          (k : 'I_n_individuals),
     (lmmaes_iterate_from (LMMAES.self_of st) (LMMAES.z_of st)
        (LMMAES.d_of st) (LMMAES.mean_of st) (LMMAES.tm_of st)
        (LMMAES.y_of st)).1 = Some k ->
     exists st' : LMMAES.loop_state N n_individuals n_evolution_paths rng,
       [/\ lmmaes_generation st = Some (true, st'),
           LMMAES.evals (LMMAES.self_of st') =
           (LMMAES.evals (LMMAES.self_of st) + k)%nat,
           [/\ LMMAES.mean_of st' = LMMAES.mean_of st,
               LMMAES.s_of st' = LMMAES.s_of st &
               LMMAES.tm_of st' = LMMAES.tm_of st] &
           Optimizer.sigma (LMMAES.base (LMMAES.self_of st')) =
           Optimizer.sigma (LMMAES.base (LMMAES.self_of st))]) /\
  (forall (st : XNES.loop_state N n_individuals rng) (k : 'I_n_individuals),
     (xnes_iterate_from (XNES.self_of st) (XNES.x_of st) (XNES.y_of st)
        (XNES.mean_of st) (XNES.a_of st)).1 = Some k ->
     exists st' : XNES.loop_state N n_individuals rng,
       [/\ xnes_generation st = (true, st'),
           XNES.evals (XNES.self_of st') =
           (XNES.evals (XNES.self_of st) + k)%nat,
           [/\ XNES.mean_of st' = XNES.mean_of st,
               XNES.a_of st' = XNES.a_of st &
               XNES.inv_a_of st' = XNES.inv_a_of st] &
           XNES.log_det_of st' = XNES.log_det_of st]).
Proof.
split=> st k Hk.
  exact: LMMAES.lmmaes_generation_early.
exact: XNES.xnes_generation_early.
Qed.

(** The base-class helpers that draw a mean and that decide on a restart
    neither evaluate the fitness function nor change the budget. *)

Hypothesis initialize_mean_keeps :
  forall (is_restart : bool) (b : Optimizer.optimizer N rng),
    Optimizer.n_function_evaluations (initialize_mean is_restart b).2 =
    Optimizer.n_function_evaluations b /\
    Optimizer.max_function_evaluations (initialize_mean is_restart b).2 =
    Optimizer.max_function_evaluations b.

Hypothesis ES_restart_keeps :
  forall self : LMMAES.lmmaes N n_evolution_paths rng,
    LMMAES.evals (ES_restart_initialize self).2 = LMMAES.evals self /\
    LMMAES.budget (ES_restart_initialize self).2 = LMMAES.budget self.

Hypothesis NES_restart_keeps :
  forall (b : Optimizer.optimizer N rng) (y : 'cV[R]_n_individuals),
    Optimizer.n_function_evaluations (NES_restart_reinitialize b y).2 =
    Optimizer.n_function_evaluations b /\
    Optimizer.max_function_evaluations (NES_restart_reinitialize b y).2 =
    Optimizer.max_function_evaluations b.

(** What the three loops do with a budget [max_function_evaluations = m]:
    the result of a run of [LMMAES] or of [XNES] records at most [m]
    evaluations (or the count the run started with, if that was already
    above [m]), because a termination check precedes every candidate
    evaluation; the result of a run of [SRS] records at most [m] or two more
    than the run started with, because [SRS] evaluates its starting point
    and one candidate before its first termination check. *)

Theorem evaluations_within_budget (m fuel : nat) :
  [/\ forall (self : LMMAES.lmmaes N n_evolution_paths rng)
             (r : LMMAES.lmmaes_results N n_evolution_paths),
        LMMAES.budget self = Some m ->
        lmmaes_optimize fuel self = Done r ->
        (Optimizer.r_n_function_evaluations (LMMAES.common r) <=
         maxn m (LMMAES.evals self))%nat,
      forall (self : XNES.xnes N n_individuals rng) (r : XNES.xnes_results N),
        XNES.budget self = Some m ->
        xnes_optimize fuel self = Done r ->
        (Optimizer.r_n_function_evaluations (XNES.common r) <=
         maxn m (XNES.evals self))%nat &
      forall (self : SRS.srs N rng) (r : Optimizer.results N),
        Optimizer.max_function_evaluations (SRS.base self) = Some m ->
        srs_optimize fuel self = Done r ->
        (Optimizer.r_n_function_evaluations r <=
         maxn m (Optimizer.n_function_evaluations (SRS.base self)).+2)%nat].
Proof.
split=> self r Hm Hr.
- exact: LMMAES.lmmaes_optimize_budget Hm Hr.
- exact: XNES.xnes_optimize_budget Hm Hr.
- exact: SRS.srs_optimize_budget Hm Hr.
Qed.

End Engine.

(** ** The engine on the sample problem *)

(** With no budget left, the first termination check of a generation
    fires. *)

Definition lmmaes_spent : LMMAES.loop_state 1 4 1 nat :=
  LMMAES.start 4 Sample.time_time Sample.np_empty Sample.initialize_mean
    (LMMAES.sample_self (Some 0%nat)).

Definition xnes_spent : XNES.loop_state 1 4 nat := XNES.sample_start (Some 0%nat).

Lemma lmmaes_spent_returns_early :
  (LMMAES.iterate_from Sample.sphere Sample.time_time Sample.standard_normal
     (LMMAES.self_of lmmaes_spent) (LMMAES.z_of lmmaes_spent)
     (LMMAES.d_of lmmaes_spent) (LMMAES.mean_of lmmaes_spent)
     (LMMAES.tm_of lmmaes_spent) (LMMAES.y_of lmmaes_spent)).1 = Some ord0.
Proof.
rewrite /LMMAES.iterate_from enum_ordSl; apply: sampling_first.
have [_ _ _ _ ->] := LMMAES.check_frame Sample.time_time
  (LMMAES.self_of lmmaes_spent,
   (LMMAES.z_of lmmaes_spent, LMMAES.d_of lmmaes_spent,
    LMMAES.y_of lmmaes_spent)).
exact: (@Optimizer.check_terminations_spent _ _ _ _ 0).
Qed.

Lemma xnes_spent_returns_early :
  (XNES.iterate_from Sample.sphere Sample.time_time Sample.standard_normal
     (XNES.self_of xnes_spent) (XNES.x_of xnes_spent) (XNES.y_of xnes_spent)
     (XNES.mean_of xnes_spent) (XNES.a_of xnes_spent)).1 = Some ord0.
Proof.
rewrite /XNES.iterate_from enum_ordSl; apply: sampling_first.
have [_ _ _ _ ->] := XNES.xnes_check_frame Sample.time_time
  (XNES.self_of xnes_spent, (XNES.x_of xnes_spent, XNES.y_of xnes_spent)).
exact: (@Optimizer.check_terminations_spent _ _ _ _ 0).
Qed.

Lemma early_exit_witness :
  (exists st' : LMMAES.loop_state 1 4 1 nat,
     LMMAES.generation Sample.sphere Sample.time_time Sample.standard_normal
       Sample.np_empty Sample.argsort Sample.initialize_mean
       LMMAES.sample_restart lmmaes_spent = Some (true, st') /\
     LMMAES.evals (LMMAES.self_of st') =
     (LMMAES.evals (LMMAES.self_of lmmaes_spent) + 0)%nat) /\
  (exists st' : XNES.loop_state 1 4 nat,
     XNES.generation Sample.sphere Sample.time_time Sample.standard_normal
       Sample.np_empty Sample.argsort Sample.expm Sample.initialize_mean
       Sample.restart_reinitialize xnes_spent = (true, st') /\
     XNES.evals (XNES.self_of st') =
     (XNES.evals (XNES.self_of xnes_spent) + 0)%nat).
Proof.
have [HL HX] :=
  early_exit_skips_update (n_evolution_paths := 1) Sample.sphere
    Sample.standard_normal Sample.np_empty Sample.argsort Sample.expm
    Sample.initialize_mean LMMAES.sample_restart Sample.restart_reinitialize
    Sample.time_time_mono.
have [stL [HgL HnL _ _]] := HL lmmaes_spent ord0 lmmaes_spent_returns_early.
have [stX [HgX HnX _ _]] := HX xnes_spent ord0 xnes_spent_returns_early.
by split; [exists stL | exists stX].
Defined.

(** With no budget left, [LMMAES.optimize] and [XNES.optimize] return from
    their first pass through the loop. *)

Lemma lmmaes_spent_run :
  exists r : LMMAES.lmmaes_results 1 1,
    LMMAES.optimize Sample.sphere Sample.time_time Sample.standard_normal
      Sample.np_empty Sample.argsort Sample.initialize_mean
      LMMAES.sample_restart 1 (LMMAES.sample_self (Some 0%nat)) = Done r.
Proof.
have [st' [Hgen _ _ _]] :=
  LMMAES.lmmaes_generation_early Sample.np_empty Sample.argsort
    Sample.initialize_mean LMMAES.sample_restart Sample.time_time_mono
    lmmaes_spent_returns_early.
by rewrite /LMMAES.optimize /LMMAES.optimize_loop -/lmmaes_spent Hgen; eexists.
Qed.

Lemma xnes_spent_run :
  exists r : XNES.xnes_results 1,
    XNES.optimize Sample.sphere Sample.time_time Sample.standard_normal
      Sample.np_empty Sample.argsort Sample.expm Sample.initialize_mean
      Sample.restart_reinitialize 1 (XNES.sample_self (Some 0%nat)) = Done r.
Proof.
have [st' [Hgen _ _ _]] :=
  XNES.xnes_generation_early Sample.np_empty Sample.argsort Sample.expm
    Sample.initialize_mean Sample.restart_reinitialize Sample.time_time_mono
    xnes_spent_returns_early.
rewrite /XNES.optimize /XNES.optimize_loop.
by rewrite -/(XNES.sample_start (Some 0%nat)) -/xnes_spent Hgen; eexists.
Qed.

(** On the sample, each variant returns a result within the bound of
    [evaluations_within_budget]: none, none and two evaluations. *)

Lemma evaluations_within_budget_witness :
  [/\ exists r : LMMAES.lmmaes_results 1 1,
        LMMAES.optimize Sample.sphere Sample.time_time Sample.standard_normal
          Sample.np_empty Sample.argsort Sample.initialize_mean
          LMMAES.sample_restart 1 (LMMAES.sample_self (Some 0%nat)) = Done r /\
        (Optimizer.r_n_function_evaluations (LMMAES.common r) <= 0)%nat,
      exists r : XNES.xnes_results 1,
        XNES.optimize Sample.sphere Sample.time_time Sample.standard_normal
          Sample.np_empty Sample.argsort Sample.expm Sample.initialize_mean
          Sample.restart_reinitialize 1 (XNES.sample_self (Some 0%nat)) =
        Done r /\
        (Optimizer.r_n_function_evaluations (XNES.common r) <= 0)%nat &
      exists r : Optimizer.results 1,
        SRS.optimize Sample.sphere Sample.time_time Sample.standard_normal
          Sample.uniform Sample.uniform_between 1
          (SRS.sample_self (Some 1%nat)) = Done r /\
        (Optimizer.r_n_function_evaluations r <= 2)%nat].
Proof.
have [rL HrL] := lmmaes_spent_run.
have [rX HrX] := xnes_spent_run.
have [rS [HrS _]] :=
  SRS.optimize_small_budget Sample.sphere Sample.time_time
    Sample.standard_normal Sample.uniform Sample.uniform_between 0
    (erefl : Optimizer.max_function_evaluations
               (SRS.base (SRS.sample_self (Some 1%nat))) = Some 1%nat) isT.
have [HL HX _] :=
  evaluations_within_budget (n_evolution_paths := 1) Sample.sphere
    Sample.time_time Sample.standard_normal Sample.uniform
    Sample.uniform_between Sample.np_empty Sample.argsort Sample.expm
    (ES_restart_initialize := LMMAES.sample_restart)
    Sample.initialize_mean_keeps (fun self => conj erefl erefl)
    Sample.restart_reinitialize_keeps 0 1.
have [_ _ HS] :=
  evaluations_within_budget (n_evolution_paths := 1) Sample.sphere
    Sample.time_time Sample.standard_normal Sample.uniform
    Sample.uniform_between Sample.np_empty Sample.argsort Sample.expm
    (ES_restart_initialize := LMMAES.sample_restart)
    Sample.initialize_mean_keeps (fun self => conj erefl erefl)
    Sample.restart_reinitialize_keeps 1 1.
split.
- by exists rL; split=> //; exact: (HL (LMMAES.sample_self (Some 0%nat)) rL erefl HrL).
- by exists rX; split=> //; exact: (HX (XNES.sample_self (Some 0%nat)) rX erefl HrX).
- by exists rS; split=> //; exact: (HS (SRS.sample_self (Some 1%nat)) rS erefl HrS).
Defined.

(** ** The sampling loops count what they sample *)

Section Population.

Variables (N n_individuals n_evolution_paths : nat) (rng : Type).
Variable fitness_function : 'cV[R]_N -> R.
Variable time_time : nat -> R.
Variable standard_normal : rng -> 'cV[R]_N * rng.

(** X22.  [LMMAES.iterate] and [XNES.iterate] evaluate each candidate they
    get to exactly once: the counter of evaluations grows by
    [n_individuals] when the loop runs to its end, and by [k] when it
    returns early at index [k].  (One evaluation is one increment of the
    counter, as in the base class modelled above.) *)

Theorem iterate_counts_its_candidates :
  (forall (self : LMMAES.lmmaes N n_evolution_paths rng)
          (z d : 'M[R]_(n_individuals, N)) (mean : 'cV[R]_N)
          (tm : 'M[R]_(n_evolution_paths, N)) (y : 'cV[R]_n_individuals),
     LMMAES.evals
       (LMMAES.iterate fitness_function time_time standard_normal
          self z d mean tm y).1 =
     (LMMAES.evals self +
      if (LMMAES.iterate_from fitness_function time_time standard_normal
            self z d mean tm y).1 is Some k then k else n_individuals)%nat) /\
  (forall (self : XNES.xnes N n_individuals rng)
          (x : 'M[R]_(n_individuals, N)) (y : 'cV[R]_n_individuals)
          (mean : 'cV[R]_N) (a : 'M[R]_N),
     XNES.evals
       (XNES.iterate fitness_function time_time standard_normal
          self x y mean a).1 =
     (XNES.evals self +
      if (XNES.iterate_from fitness_function time_time standard_normal
            self x y mean a).1 is Some k then k else n_individuals)%nat).
Proof.
split=> [self z d mean tm y|self x y mean a].
  rewrite /LMMAES.iterate /LMMAES.iterate_from.
  rewrite (sampling_count
             (count := fun ss : LMMAES.sample_state _ _ _ _ => LMMAES.evals ss.1))
    ?enum_uniq //.
  - by move=> i ss; have [->] := LMMAES.candidate_frame fitness_function
      standard_normal mean tm i ss.
  - by rewrite /sampled; case: (sampling _ _ _ _).1 => [k|];
      rewrite ?index_enum_ord ?size_enum_ord.
rewrite /XNES.iterate /XNES.iterate_from.
rewrite (sampling_count
           (count := fun ss : XNES.sample_state _ _ _ => XNES.evals ss.1))
  ?enum_uniq //.
- by move=> i ss; rewrite /XNES.evals; have [->] :=
    XNES.xnes_candidate_frame fitness_function standard_normal mean a i ss.
- by rewrite /sampled; case: (sampling _ _ _ _).1 => [k|];
    rewrite ?index_enum_ord ?size_enum_ord.
Qed.

End Population.

(** On the sample with no budget left, [LMMAES.iterate] returns at once: the
    four entries of [y] are the ones it was given. *)

Lemma stale_fitness_witness :
  exists st' : LMMAES.loop_state 1 4 1 nat,
    LMMAES.generation Sample.sphere Sample.time_time Sample.standard_normal
      Sample.np_empty Sample.argsort Sample.initialize_mean
      LMMAES.sample_restart lmmaes_spent = Some (true, st') /\
    forall i : 'I_4, LMMAES.y_of st' i ord0 = LMMAES.y_of lmmaes_spent i ord0.
Proof.
have [st' [Hgen _ _ _ Hy]] :=
  LMMAES.early_return_records_stale_fitness Sample.np_empty Sample.argsort
    Sample.initialize_mean LMMAES.sample_restart Sample.time_time_mono
    lmmaes_spent_returns_early.
by exists st'; split=> // i; exact: Hy.
Defined.
